(** * Waved display driver: a shallow embedding of [src/lib/display.cpp]

    The development follows the update pipeline of the driver: the region
    algebra, [push_update], [pop_update] and [process_update],
    [merge_updates], [align_region], the two frame generators
    ([generate_batch], [generate_immediate]), the temperature read, the null
    frame of [start] and the vsync thread.

    Conventions.
    - [std::uint32_t] values are integers in [Z], wrap-around written out
      with [wrap32]; the 16-bit phase accumulator wraps with [wrap16].
    - The panel-sized vectors ([current_intensity], [next_intensity],
      [waveform_steps]) and update buffers are [list Z], read with [load]
      and written with [store]; a raw pointer into one of them is the
      integer offset from its base.
    - The constants of [display.hpp] are fields of a [Geometry] record (the
      header is not under [src/]), except the packing constants that the
      specification fixes.
    - The coordinates of an [UpdateRegion] are taken to be [std::uint32_t]
      (their declaration is not under [src/] either): the guards of
      [push_update] at lines 430-431 catch the wrap-around of the
      subtractions at lines 423-424.
    - The build variants [DRY_RUN] and [ENABLE_PERF_REPORT] are left out. *)

From Stdlib Require Import ZArith List Lia Bool.
From stdpp Require Import base numbers list list_numbers.
Import ListNotations.

Local Open Scope Z_scope.

(** ** Machine integers *)

Definition wrap32 (z : Z) : Z := z mod 2 ^ 32.
Definition wrap16 (z : Z) : Z := z mod 2 ^ 16.

(** Bitwise complement of a 32-bit unsigned value ([~m]). *)
Definition not32 (m : Z) : Z := wrap32 (Z.lnot m).

(** ** Panel geometry *)

Record Geometry := {
  epd_width : Z;
  epd_height : Z;
  buf_width : Z;
  buf_height : Z;
  margin_top : Z;
  margin_left : Z
}.

(** Modelled from the spec: the packing constants of [display.hpp], which is
    not under [src/]; section 6 of the specification gives
    [buf_actual_depth = 8], [intensity_values = 32] and section 4.F.4 gives
    [buf_depth = 4]. *)
Definition buf_actual_depth : Z := 8.
Definition buf_depth : Z := 4.
Definition intensity_values : Z := 32.

Definition buf_stride (g : Geometry) : Z := buf_width g * buf_depth.
Definition buf_frame (g : Geometry) : Z := buf_stride g * buf_height g.
Definition epd_size (g : Geometry) : Z := epd_width g * epd_height g.

(** What the driver relies on: a non-empty panel whose pixel count fits a
    32-bit offset and whose width is a whole number of packed groups. *)
Definition geometry_ok (g : Geometry) : Prop :=
  0 < epd_width g /\ 0 < epd_height g /\
  epd_width g * epd_height g < 2 ^ 32 /\
  epd_width g mod buf_actual_depth = 0.

(** ** Region algebra *)

Record UpdateRegion := {
  top : Z;
  left : Z;
  width : Z;
  height : Z
}.

(** Every field is a [std::uint32_t]. *)
Definition region_wf (r : UpdateRegion) : Prop :=
  0 <= top r < 2 ^ 32 /\ 0 <= left r < 2 ^ 32 /\
  0 <= width r < 2 ^ 32 /\ 0 <= height r < 2 ^ 32.

(** The region lies on the panel (the invariant of queued updates). *)
Definition region_within (g : Geometry) (r : UpdateRegion) : Prop :=
  0 <= top r /\ 0 <= left r /\ 0 <= width r /\ 0 <= height r /\
  left r + width r <= epd_width g /\ top r + height r <= epd_height g.

(** Modelled from the spec: [UpdateRegion::contains] is declared in a header
    that is not under [src/]; section 4.A describes it as a
    point-in-rectangle test, half-open on the right and bottom edges. *)
Definition contains (r : UpdateRegion) (x y : Z) : bool :=
  (left r <=? x) && (x <? left r + width r) &&
  (top r <=? y) && (y <? top r + height r).

(** Modelled from the spec: [UpdateRegion::extend(region)], section 4.A:
    min of tops and lefts, max of rights and bottoms. *)
Definition extend (r o : UpdateRegion) : UpdateRegion :=
  let t := Z.min (top r) (top o) in
  let l := Z.min (left r) (left o) in
  let right := Z.max (left r + width r) (left o + width o) in
  let bottom := Z.max (top r + height r) (top o + height o) in
  {| top := t; left := l; width := right - l; height := bottom - t |}.

(** Modelled from the spec: [UpdateRegion::extend(x, y)], the bounding
    union with the one-pixel region at [(x, y)]. *)
Definition extend_point (r : UpdateRegion) (x y : Z) : UpdateRegion :=
  extend r {| top := y; left := x; width := 1; height := 1 |}.

(** [Display::align_region]. *)
Definition align_region (region : UpdateRegion) : UpdateRegion :=
  let mask := buf_actual_depth - 1 in
  if (Z.land (width region) mask =? 0) && (Z.land (left region) mask =? 0)
  then region
  else
    let pad_left := Z.land (left region) mask in
    {| top := top region;
       left := Z.land (left region) (not32 mask);
       width := Z.land (wrap32 (pad_left + width region + mask)) (not32 mask);
       height := height region |}.

(** ** Vectors and pointers

    [load a i] is [a[i]] and [store a i v] is [a[i] = v]. The driver indexes
    raw pointers, so an access outside the vector is undefined in the source;
    here such a read yields 0 and such a write is dropped. Every access of
    the generators stays inside the vectors when the region lies on the panel
    (the pending queue only holds such regions). *)

Definition load (a : list Z) (i : Z) : Z := a !!! Z.to_nat i.
Definition store (a : list Z) (i v : Z) : list Z := <[Z.to_nat i := v]> a.

(** [for (v = a; v < b; v += step) s = body v s]: test, body, increment.
    [b - a] iterations of fuel are enough for any positive step. *)
Fixpoint for_range {S : Type} (fuel : nat) (v bound step : Z)
    (body : Z -> S -> S) (s : S) : S :=
  match fuel with
  | O => s
  | Datatypes.S fuel' =>
      if v <? bound
      then for_range fuel' (v + step) bound step body (body v s)
      else s
  end.

Definition for_loop {S : Type} (a b step : Z) (body : Z -> S -> S) (s : S) : S :=
  for_range (Z.to_nat (b - a)) a b step body s.

(** ** Updates *)

Record Update := {
  ids : list Z;          (* [Update::id], the identifiers merged so far *)
  mode : Z;
  immediate : bool;
  region : UpdateRegion;
  buffer : list Z
}.

(** Modelled from the spec: [Update::apply(target, target_width)] is defined
    in a file that is not under [src/]; section 4.F.1 describes it as
    writing the update's buffer into the target, row-major, over the update's
    region. *)
Definition apply_update (u : Update) (target : list Z) (target_width : Z) : list Z :=
  for_loop 0 (height (region u)) 1 (fun r t =>
    for_loop 0 (width (region u)) 1 (fun c t' =>
      store t' ((top (region u) + r) * target_width + left (region u) + c)
            (load (buffer u) (r * width (region u) + c))) t) target.

(** ** Driver state (the fields the pipeline touches) *)

Record Display := {
  current_intensity : list Z;
  next_intensity : list Z;
  waveform_steps : list Z;
  pending_updates : list Update;
  next_update_id : Z;
  temperature : Z
}.

Definition set_next_intensity (d : Display) (a : list Z) : Display :=
  {| current_intensity := current_intensity d; next_intensity := a;
     waveform_steps := waveform_steps d; pending_updates := pending_updates d;
     next_update_id := next_update_id d; temperature := temperature d |}.

Definition set_current_intensity (d : Display) (a : list Z) : Display :=
  {| current_intensity := a; next_intensity := next_intensity d;
     waveform_steps := waveform_steps d; pending_updates := pending_updates d;
     next_update_id := next_update_id d; temperature := temperature d |}.

Definition set_waveform_steps (d : Display) (a : list Z) : Display :=
  {| current_intensity := current_intensity d; next_intensity := next_intensity d;
     waveform_steps := a; pending_updates := pending_updates d;
     next_update_id := next_update_id d; temperature := temperature d |}.

Definition set_pending_updates (d : Display) (q : list Update) : Display :=
  {| current_intensity := current_intensity d; next_intensity := next_intensity d;
     waveform_steps := waveform_steps d; pending_updates := q;
     next_update_id := next_update_id d; temperature := temperature d |}.

(** ** [Display::push_update] *)

(** The region part of the coordinate transform (lines 422-427). *)
Definition transform_region (g : Geometry) (region : UpdateRegion) : UpdateRegion :=
  {| top := wrap32 (epd_height g - left region - width region);
     left := wrap32 (epd_width g - top region - height region);
     width := height region;
     height := width region |}.

(** The buffer part of the transform (lines 414-420): transpose, flip both
    axes, mask to 5 bits. *)
Definition transform_buffer (region : UpdateRegion) (buffer : list Z) : list Z :=
  map (fun k =>
         let i := height region - k mod height region - 1 in
         let j := width region - k / height region - 1 in
         Z.land (load buffer (i * width region + j)) (intensity_values - 1))
      (seqZ 0 (Z.of_nat (length buffer))).

(** The bounds test of lines 429-434, on the transformed region. *)
Definition out_of_panel (g : Geometry) (region : UpdateRegion) : bool :=
  (epd_width g <=? left region)
  || (epd_height g <=? top region)
  || (epd_width g <? wrap32 (left region + width region))
  || (epd_height g <? wrap32 (top region + height region)).

Definition push_update (g : Geometry) (mode : Z) (immediate : bool)
    (region : UpdateRegion) (buffer : list Z) (d : Display) : bool * Display :=
  if negb (Z.of_nat (length buffer) =? wrap32 (width region * height region))
  then (false, d)
  else
    let trans_buffer := transform_buffer region buffer in
    let region := transform_region g region in
    if out_of_panel g region then (false, d)
    else
      (true,
       {| current_intensity := current_intensity d;
          next_intensity := next_intensity d;
          waveform_steps := waveform_steps d;
          pending_updates :=
            pending_updates d ++
            [ {| ids := [next_update_id d]; mode := mode;
                 immediate := immediate; region := region;
                 buffer := trans_buffer |} ];
          next_update_id := next_update_id d + 1;
          temperature := temperature d |}).

(** ** [Display::merge_updates] *)

(** The scan of lines 533-558. The three pointers are offsets into
    [waveform_steps], [next_intensity] and the peer's buffer; the state also
    carries whether the [return] of line 552 was taken. The inner loop does
    not move any pointer; after each row [step] and [cand] move by
    [mid_offset]. *)
Definition merge_check_pixel (steps nxt buf : list Z) (next : Z) (x : Z)
    (s : Z * Z * bool) : Z * Z * bool :=
  let '(step, cand, stop) := s in
  if stop then s
  else if negb (load nxt cand =? load buf next) && (0 <? load steps step)
       then (step, cand, true)
       else s.

Definition merge_check_row (steps nxt buf : list Z) (next : Z)
    (r : UpdateRegion) (mid_offset : Z) (y : Z) (s : Z * Z * bool) : Z * Z * bool :=
  let '(step, cand, stop) :=
    for_loop (left r) (wrap32 (left r + width r)) 1
             (merge_check_pixel steps nxt buf next) s in
  if stop then (step, cand, true)
  else (step + mid_offset, cand + mid_offset, false).

Definition merge_rejected (g : Geometry) (d : Display) (next_update : Update) : bool :=
  let r := region next_update in
  let start_offset := wrap32 (top r * epd_width g + left r) in
  let mid_offset := wrap32 (epd_width g - width r) in
  let '(_, _, stop) :=
    for_loop (top r) (wrap32 (top r + height r)) 1
             (merge_check_row (waveform_steps d) (next_intensity d)
                              (buffer next_update) 0 r mid_offset)
             (start_offset, start_offset, false) in
  stop.

Definition merge_metadata (cur_update next_update : Update) : Update :=
  {| ids := ids cur_update ++ ids next_update;
     mode := mode cur_update;
     immediate := immediate cur_update;
     region := extend (region cur_update) (region next_update);
     buffer := buffer cur_update |}.

(** The [while] loop over the queue; it ends at the first peer that is not
    merged, which stays at the head. *)
Fixpoint merge_queue (g : Geometry) (cur_update : Update) (d : Display)
    (queue : list Update) : Update * Display :=
  match queue with
  | [] => (cur_update, set_pending_updates d [])
  | next_update :: rest =>
      if negb (Bool.eqb (immediate cur_update) (immediate next_update))
         || negb (mode cur_update =? mode next_update)
      then (cur_update, set_pending_updates d queue)
      else if immediate cur_update && merge_rejected g d next_update
      then (cur_update, set_pending_updates d queue)
      else
        merge_queue g (merge_metadata cur_update next_update)
          (set_next_intensity d
             (apply_update next_update (next_intensity d) (epd_width g)))
          rest
  end.

Definition merge_updates (g : Geometry) (cur_update : Update) (d : Display)
    : Update * Display :=
  merge_queue g cur_update d (pending_updates d).

(** ** Waveforms *)

Inductive Phase := Noop | Black | White | Toggle.

(** Modelled from the spec: the numeric value of each [Phase] enumerator
    (declared in a header that is not under [src/]); section 6 gives [Noop=00b], [Black=01b],
    [White=10b], [Toggle=11b]. *)
Definition phase_code (p : Phase) : Z :=
  match p with Noop => 0 | Black => 1 | White => 2 | Toggle => 3 end.

(** [PhaseMatrix] is a 32 x 32 array of phases, [matrix[prev][next]]. *)
Definition PhaseMatrix : Type := Z -> Z -> Phase.
Definition Waveform : Type := list PhaseMatrix.

(** [waveform[k]]; the source does not check [k]. *)
Definition waveform_at (waveform : Waveform) (k : Z) : PhaseMatrix :=
  nth (Z.to_nat k) waveform (fun _ _ => Noop).

(** [WaveformTable::lookup(mode, temperature)], an external collaborator. *)
Definition WaveformTable : Type := Z -> Z -> Waveform.

(** A frame is the framebuffer page seen as 16-bit cells, the unit in which
    the generators write; [data] pointers are cell indices. *)
Definition Frame : Type := list Z.

(** The cell at which the generators start writing (lines 620-625). *)
Definition data_start (g : Geometry) (aligned_region : UpdateRegion) : Z :=
  ((margin_top g + top aligned_region) * buf_stride g
   + (margin_left g + left aligned_region / buf_actual_depth) * buf_depth) / 2.

(** The cells skipped at the end of a row (lines 664-667). *)
Definition data_row_gap (g : Geometry) (aligned_region : UpdateRegion) : Z :=
  wrap32 (buf_stride g
          - wrap32 (width aligned_region / buf_actual_depth * buf_depth)) / 2.

(** ** [Display::generate_batch] *)

(** One pixel of a group (lines 646-655); the state is the accumulator and
    the [prev] and [next] pointers. *)
Definition batch_lane (matrix : PhaseMatrix) (cur nxt : list Z)
    (region : UpdateRegion) (y x : Z) (s : Z * Z * Z) : Z * Z * Z :=
  let '(phases, prev, next) := s in
  let phases := wrap16 (Z.shiftl phases 2) in
  if contains region x y
  then (Z.lor phases (phase_code (matrix (load cur prev) (load nxt next))),
        prev + 1, next + 1)
  else (phases, prev, next).

(** One group of eight pixels (lines 643-660); the state is the two pixel
    pointers, the [data] pointer and the frame under construction. *)
Definition batch_group (matrix : PhaseMatrix) (cur nxt : list Z)
    (region : UpdateRegion) (y sx : Z) (s : Z * Z * Z * Frame) : Z * Z * Z * Frame :=
  let '(prev, next, data, frame) := s in
  let '(phases, prev, next) :=
    for_loop sx (sx + buf_actual_depth) 1
             (batch_lane matrix cur nxt region y) (0, prev, next) in
  (prev, next, data + 2, store frame data phases).

(** One row (lines 638-668). *)
Definition batch_row (g : Geometry) (matrix : PhaseMatrix) (cur nxt : list Z)
    (region aligned_region : UpdateRegion) (mid_offset : Z) (y : Z)
    (s : Z * Z * Z * Frame) : Z * Z * Z * Frame :=
  let '(prev, next, data, frame) :=
    for_loop (left aligned_region)
             (wrap32 (left aligned_region + width aligned_region))
             buf_actual_depth
             (batch_group matrix cur nxt region y) s in
  (prev + mid_offset, next + mid_offset,
   data + data_row_gap g aligned_region, frame).

(** The body of the loop over waveform steps (lines 618-668). The counter
    [i] and the outer [phases] of lines 631-632 are never read and are left
    out. *)
Definition batch_frame (g : Geometry) (cur nxt : list Z) (region : UpdateRegion)
    (null_frame : Frame) (matrix : PhaseMatrix) : Frame :=
  let aligned_region := align_region region in
  let start_offset := wrap32 (top region * epd_width g + left region) in
  let mid_offset := wrap32 (epd_width g - width region) in
  let '(_, _, _, frame) :=
    for_loop (top aligned_region)
             (wrap32 (top aligned_region + height aligned_region)) 1
             (batch_row g matrix cur nxt region aligned_region mid_offset)
             (start_offset, start_offset, data_start g aligned_region, null_frame) in
  frame.

Definition with_region (u : Update) (r : UpdateRegion) : Update :=
  {| ids := ids u; mode := mode u; immediate := immediate u;
     region := r; buffer := buffer u |}.

(** [generate_batch]: the frames handed to [send_frames], the update with its
    merged metadata, and the new state. *)
Definition generate_batch (g : Geometry) (table : WaveformTable)
    (null_frame : Frame) (update : Update) (d : Display)
    : list Frame * Update * Display :=
  let waveform := table (mode update) (temperature d) in
  let d := set_next_intensity d (current_intensity d) in
  let d := set_next_intensity d
             (apply_update update (next_intensity d) (epd_width g)) in
  let '(update, d) := merge_updates g update d in
  let generate_buffer :=
    map (batch_frame g (current_intensity d) (next_intensity d)
                     (region update) null_frame) waveform in
  (generate_buffer, update, set_current_intensity d (next_intensity d)).

(** ** [Display::generate_immediate] *)

(** The state of one pass over the region: the two vectors the pass writes,
    the [finished] flag, [active_region], the three pixel pointers, the
    [data] pointer and the frame. *)
Record Pass := {
  p_steps : list Z;
  p_current : list Z;
  p_finished : bool;
  p_active : UpdateRegion;
  p_step : Z;
  p_prev : Z;
  p_next : Z;
  p_data : Z;
  p_frame : Frame
}.

(** Lines 742-756: a pixel whose value differs from its target. *)
Definition advance_pixel (waveform : Waveform) (x y prev_v next_v : Z)
    (p : Pass) : Phase * Pass :=
  let step_v := load (p_steps p) (p_step p) in
  let phase := waveform_at waveform step_v prev_v next_v in
  let active := extend_point (p_active p) x y in
  let steps := store (p_steps p) (p_step p) (step_v + 1) in
  if step_v + 1 =? Z.of_nat (length waveform)
  then (phase,
        {| p_steps := store steps (p_step p) 0;
           p_current := store (p_current p) (p_prev p) next_v;
           p_finished := false; p_active := active;
           p_step := p_step p; p_prev := p_prev p; p_next := p_next p;
           p_data := p_data p; p_frame := p_frame p |})
  else (phase,
        {| p_steps := steps;
           p_current := p_current p;
           p_finished := false; p_active := active;
           p_step := p_step p; p_prev := p_prev p; p_next := p_next p;
           p_data := p_data p; p_frame := p_frame p |}).

(** [++step; ++next; ++prev]. *)
Definition next_pixel (p : Pass) : Pass :=
  {| p_steps := p_steps p; p_current := p_current p;
     p_finished := p_finished p; p_active := p_active p;
     p_step := p_step p + 1; p_prev := p_prev p + 1; p_next := p_next p + 1;
     p_data := p_data p; p_frame := p_frame p |}.

(** One pixel of a group (lines 736-763). *)
Definition immediate_lane (waveform : Waveform) (nxt : list Z)
    (region : UpdateRegion) (y x : Z) (s : Z * Pass) : Z * Pass :=
  let '(phases, p) := s in
  let phases := wrap16 (Z.shiftl phases 2) in
  if contains region x y
  then
    let prev_v := load (p_current p) (p_prev p) in
    let next_v := load nxt (p_next p) in
    let '(phase, p) :=
      if negb (prev_v =? next_v)
      then advance_pixel waveform x y prev_v next_v p
      else (Noop, p) in
    (Z.lor phases (phase_code phase), next_pixel p)
  else (phases, p).

(** One group (lines 733-767): [*data = phases; data += 2]. *)
Definition immediate_group (waveform : Waveform) (nxt : list Z)
    (region : UpdateRegion) (y sx : Z) (p : Pass) : Pass :=
  let '(phases, p) :=
    for_loop sx (sx + buf_actual_depth) 1
             (immediate_lane waveform nxt region y) (0, p) in
  {| p_steps := p_steps p; p_current := p_current p;
     p_finished := p_finished p; p_active := p_active p;
     p_step := p_step p; p_prev := p_prev p; p_next := p_next p;
     p_data := p_data p + 2; p_frame := store (p_frame p) (p_data p) phases |}.

(** One row (lines 728-776). *)
Definition immediate_row (g : Geometry) (waveform : Waveform) (nxt : list Z)
    (region aligned_region : UpdateRegion) (mid_offset : Z) (y : Z) (p : Pass) : Pass :=
  let p :=
    for_loop (left aligned_region)
             (wrap32 (left aligned_region + width aligned_region))
             buf_actual_depth
             (immediate_group waveform nxt region y) p in
  {| p_steps := p_steps p; p_current := p_current p;
     p_finished := p_finished p; p_active := p_active p;
     p_step := p_step p + mid_offset; p_prev := p_prev p + mid_offset;
     p_next := p_next p + mid_offset;
     p_data := p_data p + data_row_gap g aligned_region;
     p_frame := p_frame p |}.

(** The zero-initialised [UpdateRegion active_region{}]. *)
Definition empty_region : UpdateRegion :=
  {| top := 0; left := 0; width := 0; height := 0 |}.

(** One pass over the region (lines 694-776), after the merge. *)
Definition immediate_pass (g : Geometry) (waveform : Waveform)
    (null_frame : Frame) (region : UpdateRegion) (d : Display) : Pass :=
  let aligned_region := align_region region in
  let start_offset := wrap32 (top region * epd_width g + left region) in
  let mid_offset := wrap32 (epd_width g - width region) in
  for_loop (top aligned_region)
           (wrap32 (top aligned_region + height aligned_region)) 1
           (immediate_row g waveform (next_intensity d) region aligned_region
                          mid_offset)
           {| p_steps := waveform_steps d; p_current := current_intensity d;
              p_finished := true; p_active := empty_region;
              p_step := start_offset; p_prev := start_offset;
              p_next := start_offset;
              p_data := data_start g aligned_region; p_frame := null_frame |}.

(** What a run of [generate_immediate] leaves behind: the frames handed to
    [send_frames] in order, the number of passes over the region (executions
    of the [while] body), the update and the state. *)
Record ImmediateRun := {
  sent_frames : list Frame;
  passes : nat;
  final_update : Update;
  final_display : Display
}.

(** The [while (!finished)] loop. Other threads may push updates while the
    generator runs: [arrivals] lists, pass by pass, the updates that reach the
    pending queue before that pass takes the queue lock in [merge_updates].
    The loop has no bound of its own, so the model runs on fuel and yields
    [None] when the fuel does not suffice. *)
Fixpoint immediate_loop (g : Geometry) (waveform : Waveform) (null_frame : Frame)
    (fuel : nat) (arrivals : list (list Update)) (update : Update) (d : Display)
    (sent : list Frame) (count : nat) : option ImmediateRun :=
  match fuel with
  | O => None
  | Datatypes.S fuel' =>
      let d := set_pending_updates d (pending_updates d ++ hd [] arrivals) in
      let '(update, d) := merge_updates g update d in
      let p := immediate_pass g waveform null_frame (region update) d in
      let d := set_current_intensity (set_waveform_steps d (p_steps p))
                                     (p_current p) in
      if p_finished p
      then Some {| sent_frames := sent; passes := Datatypes.S count;
                   final_update := update; final_display := d |}
      else immediate_loop g waveform null_frame fuel' (tl arrivals)
             (with_region update (p_active p)) d
             (sent ++ [p_frame p]) (Datatypes.S count)
  end.

Definition generate_immediate (g : Geometry) (table : WaveformTable)
    (null_frame : Frame) (fuel : nat) (arrivals : list (list Update))
    (update : Update) (d : Display) : option ImmediateRun :=
  let waveform := table (mode update) (temperature d) in
  let d := set_waveform_steps d
             (replicate (length (waveform_steps d)) 0) in
  let d := set_next_intensity d (current_intensity d) in
  let d := set_next_intensity d
             (apply_update update (next_intensity d) (epd_width g)) in
  immediate_loop g waveform null_frame fuel arrivals update d [] 0.

(** ** [Display::update_temperature] *)

(** [sizeof(buffer)] for [char buffer[12]]. *)
Definition sizeof_buffer : Z := 12.

(** [static_cast<size_t>] of a [ssize_t] (32-bit ARM target; any width of at
    least four bits gives the same comparison below). *)
Definition cast_size_t (z : Z) : Z := z mod 2 ^ 32.

(** What the sensor file delivers to [read]: an error, or the bytes the file
    holds from offset 0. *)
Inductive SensorFile :=
| ReadError
| ReadBytes (data : list Z).

(** [read(fd, buffer, count)]: returns -1, or stores at most [count] bytes at
    the start of [buffer] and returns how many. *)
Definition sys_read (file : SensorFile) (buffer : list Z) (count : Z) : Z * list Z :=
  match file with
  | ReadError => (-1, buffer)
  | ReadBytes data =>
      let n := Z.to_nat (Z.min (Z.of_nat (length data)) count) in
      (Z.of_nat n, take n data ++ drop n buffer)
  end.

(** Lines 374-378: where the terminator goes for a given return of [read]. *)
Definition terminator_index (size : Z) : Z :=
  if sizeof_buffer <=? cast_size_t size then sizeof_buffer - 1 else size.

Inductive TemperatureRead :=
| Cached                                (* read less than the interval ago *)
| SeekFails
| ReadFails
| Terminated (size : Z) (index : Z) (buffer : list Z).

(** [update_temperature] up to the call of [std::stoi]: [fresh] is the
    outcome of the interval test, [seek] the return of [lseek], [buffer] the
    uninitialised local array. *)
Definition update_temperature (fresh : bool) (seek : Z) (file : SensorFile)
    (buffer : list Z) : TemperatureRead :=
  if fresh then Cached
  else if negb (seek =? 0) then SeekFails
  else
    let '(size, buffer) := sys_read file buffer sizeof_buffer in
    if size =? -1 then ReadFails
    else Terminated size (terminator_index size)
                    (store buffer (terminator_index size) 0).

(** ** [Display::run_vsync_thread] *)

Inductive BlankArg := FB_BLANK_UNBLANK | FB_BLANK_POWERDOWN.
Inductive FlipRequest := FBIOPUT_VSCREENINFO | FBIOPAN_DISPLAY.

Definition fbioblank_off : BlankArg := FB_BLANK_POWERDOWN.
Definition fbioblank_on : BlankArg := FB_BLANK_UNBLANK.

(** What the thread does that is visible outside it, in program order. *)
Inductive Event :=
| WaitFor (ready : bool)       (* [wait_for]; [false]: timed out, no batch *)
| Wait                         (* [wait] without a timeout *)
| Blank (arg : BlankArg) (ret : Z)            (* [ioctl(FBIOBLANK, arg)] *)
| ReadTemperature (ok : bool)                 (* [update_temperature()] *)
| Memcpy (dst : Z) (frame : Frame)            (* byte offset in the mapping *)
| Flip (request : FlipRequest) (yoffset : Z) (ret : Z)
| Release.                     (* [vsync_can_write = true], notify *)

(** The fields the thread owns or writes. *)
Record Vsync := {
  next_frame : Z;
  first_frame : bool;
  power_state : bool
}.

(** [Display::set_power]: the ioctl is issued only on a change of state, and
    the state follows only when the ioctl returns 0. *)
Definition set_power (want : bool) (ret : Z) (v : Vsync) : list Event * Vsync :=
  if negb (Bool.eqb want (power_state v))
  then ([Blank (if want then fbioblank_on else fbioblank_off) ret],
        {| next_frame := next_frame v; first_frame := first_frame v;
           power_state := if ret =? 0 then want else power_state v |})
  else ([], v).

(** What the environment decides during one turn of the thread's loop. *)
Record Round := {
  stop_at_entry : bool;     (* [stopping_vsync] at the [while] test *)
  timed_out : bool;         (* [wait_for] returned false *)
  stop_after_wait : bool;   (* [stopping_vsync] at line 834 *)
  blank_off_ret : Z;        (* return of the power-down ioctl, if issued *)
  blank_on_ret : Z;         (* return of the unblank ioctl, if issued *)
  temperature_ok : bool;    (* [update_temperature] did not throw *)
  batch : list Frame;       (* [vsync_buffer] *)
  flip_rets : list Z        (* returns of the flip ioctls, frame by frame *)
}.

(** The loop over the frames of a batch (lines 847-880); the boolean tells
    whether the thread goes on ([false]: the ioctl failed, the thread
    returns). *)
Fixpoint copy_frames (g : Geometry) (frames : list Frame) (rets : list Z)
    (v : Vsync) : list Event * Vsync * bool :=
  match frames with
  | [] => ([], v, true)
  | frame :: frames' =>
      let next_frame := (next_frame v + 1) mod 2 in
      let yoffset := next_frame * buf_height g in
      let ret := hd 0 rets in
      let events :=
        [Memcpy (next_frame * buf_frame g) frame;
         Flip (if first_frame v then FBIOPUT_VSCREENINFO else FBIOPAN_DISPLAY)
              yoffset ret] in
      if ret =? -1
      then (events,
            {| next_frame := next_frame; first_frame := first_frame v;
               power_state := power_state v |}, false)
      else
        let '(events', v', ok) :=
          copy_frames g frames' (tl rets)
            {| next_frame := next_frame; first_frame := false;
               power_state := power_state v |} in
        (events ++ events', v', ok)
  end.

(** One turn of the [while] loop (lines 819-892). *)
Definition vsync_round (g : Geometry) (r : Round) (v : Vsync)
    : list Event * Vsync * bool :=
  let '(waited, v) :=
    if timed_out r
    then
      let '(off, v) := set_power false (blank_off_ret r) v in
      ([WaitFor false] ++ off ++ [Wait], v)
    else ([WaitFor true], v) in
  if stop_after_wait r then (waited, v, false)
  else
    let '(on, v) := set_power true (blank_on_ret r) v in
    if negb (temperature_ok r)
    then (waited ++ on ++ [ReadTemperature false], v, false)
    else
      let '(copied, v, ok) := copy_frames g (batch r) (flip_rets r) v in
      if ok
      then (waited ++ on ++ [ReadTemperature true] ++ copied ++ [Release], v, true)
      else (waited ++ on ++ [ReadTemperature true] ++ copied, v, false).

(** The thread: [next_frame = 0], [first_frame = true], then the loop, one
    [Round] of environment choices per turn. *)
Fixpoint vsync_loop (g : Geometry) (rounds : list Round) (v : Vsync) : list Event :=
  match rounds with
  | [] => []
  | r :: rounds' =>
      if stop_at_entry r then []
      else
        let '(events, v, continue) := vsync_round g r v in
        if continue then events ++ vsync_loop g rounds' v else events
  end.

Definition run_vsync_thread (g : Geometry) (power : bool) (rounds : list Round)
    : list Event :=
  vsync_loop g rounds
    {| next_frame := 0; first_frame := true; power_state := power |}.

(** ** Definitions used to state the properties *)

(** The reMarkable 2 panel: 1872 x 1404 pixels behind a 260 x 1408
    framebuffer, three control rows above and 26 control groups to the left
    (the layout the null frame of [Display::start] writes). *)
Definition remarkable2 : Geometry :=
  {| epd_width := 1872; epd_height := 1404;
     buf_width := 260; buf_height := 1408;
     margin_top := 3; margin_left := 26 |}.

(** A panel small enough to run the generators on: 16 x 2 pixels. *)
Definition panel_16x2 : Geometry :=
  {| epd_width := 16; epd_height := 2;
     buf_width := 3; buf_height := 3;
     margin_top := 1; margin_left := 1 |}.

(** The geometry with the two panel dimensions exchanged. *)
Definition swap_axes (g : Geometry) : Geometry :=
  {| epd_width := epd_height g; epd_height := epd_width g;
     buf_width := buf_width g; buf_height := buf_height g;
     margin_top := margin_top g; margin_left := margin_left g |}.

(** Sample inputs. *)
Definition region_13_5 : UpdateRegion :=
  {| top := 3; left := 13; width := 5; height := 2 |}.
Definition region_10_20 : UpdateRegion :=
  {| top := 10; left := 20; width := 30; height := 40 |}.
Definition origin_pixel : UpdateRegion :=
  {| top := 0; left := 0; width := 1; height := 1 |}.

Definition empty_at_origin : UpdateRegion :=
  {| top := 0; left := 0; width := 0; height := 0 |}.
Definition portrait_2x3 : UpdateRegion :=
  {| top := 0; left := 0; width := 2; height := 3 |}.

(** The driver state on the 16 x 2 panel before any update. *)
Definition idle_16x2 : Display :=
  {| current_intensity := replicate 32 0;
     next_intensity := replicate 32 0;
     waveform_steps := replicate 32 0;
     pending_updates := [];
     next_update_id := 0;
     temperature := 24 |}.

(** A sensor file holding "24\n" and an uninitialised 12-byte array. *)
Definition sensor_24 : SensorFile := ReadBytes [50; 52; 10].
Definition stack_bytes : list Z := replicate 12 170.

(** *** The power discipline of the vsync thread, as a monitor over its trace

    The monitor follows the power state the driver believes in
    ([believed_on]), whether an unblank ioctl has been issued since the last
    wait ([unblank_asked]), and what a timed-out wait still owes ([due]): the
    power-down ioctl when the panel is on, then a wait without timeout. It
    records a violation when something else happens while an event is due,
    or when a frame is copied while the panel is believed off and no unblank
    has been issued since the wait. *)

Inductive Pending := NothingDue | PowerDownDue | WaitDue.

Record Monitor := {
  believed_on : bool;
  unblank_asked : bool;
  due : Pending;
  violated : bool
}.

Definition power_step (power : bool) (e : Event) : bool :=
  match e with
  | Blank arg ret =>
      if ret =? 0
      then match arg with FB_BLANK_UNBLANK => true | FB_BLANK_POWERDOWN => false end
      else power
  | _ => power
  end.

Definition violation (m : Monitor) : Monitor :=
  {| believed_on := believed_on m; unblank_asked := unblank_asked m;
     due := NothingDue; violated := true |}.

Definition monitor_step (m : Monitor) (e : Event) : Monitor :=
  let on := power_step (believed_on m) e in
  match due m, e with
  | PowerDownDue, Blank FB_BLANK_POWERDOWN _ =>
      {| believed_on := on; unblank_asked := unblank_asked m;
         due := WaitDue; violated := violated m |}
  | PowerDownDue, _ => violation m
  | WaitDue, Wait =>
      {| believed_on := on; unblank_asked := false;
         due := NothingDue; violated := violated m |}
  | WaitDue, _ => violation m
  | NothingDue, WaitFor false =>
      {| believed_on := on; unblank_asked := false;
         due := if believed_on m then PowerDownDue else WaitDue;
         violated := violated m |}
  | NothingDue, WaitFor true =>
      {| believed_on := on; unblank_asked := false;
         due := NothingDue; violated := violated m |}
  | NothingDue, Wait =>
      {| believed_on := on; unblank_asked := false;
         due := NothingDue; violated := violated m |}
  | NothingDue, Blank FB_BLANK_UNBLANK _ =>
      {| believed_on := on; unblank_asked := true;
         due := NothingDue; violated := violated m |}
  | NothingDue, Memcpy _ _ =>
      {| believed_on := on; unblank_asked := unblank_asked m;
         due := NothingDue;
         violated := violated m || negb (believed_on m || unblank_asked m) |}
  | NothingDue, _ =>
      {| believed_on := on; unblank_asked := unblank_asked m;
         due := NothingDue; violated := violated m |}
  end.

Definition monitor_start (power : bool) : Monitor :=
  {| believed_on := power; unblank_asked := false;
     due := NothingDue; violated := false |}.

Definition accepted (m : Monitor) : bool :=
  negb (violated m) && match due m with NothingDue => true | _ => false end.

Definition power_discipline (power : bool) (tr : list Event) : bool :=
  accepted (fold_left monitor_step tr (monitor_start power)).

(** A monitor state between two rounds of the thread. *)
Definition settled (v : Vsync) (m : Monitor) : Prop :=
  believed_on m = power_state v /\ due m = NothingDue /\ violated m = false.

(** *** A scenario on the 16 x 2 panel: a stroke and a later retouch

    [stroke] is an immediate update of the first two pixels of row 0;
    [retouch] is an immediate update of the same mode over the same two
    pixels that keeps the first target and changes the second. *)

Definition first_two_pixels : UpdateRegion :=
  {| top := 0; left := 0; width := 2; height := 1 |}.

Definition stroke : Update :=
  {| ids := [0]; mode := 1; immediate := true;
     region := first_two_pixels; buffer := [5; 5] |}.

Definition retouch : Update :=
  {| ids := [1]; mode := 1; immediate := true;
     region := first_two_pixels; buffer := [5; 9] |}.

Definition two_steps : Waveform := [fun _ _ => Black; fun _ _ => White].

(** The null frame of the 16 x 2 panel, with no control bytes set. *)
Definition null_16x2 : Frame := replicate 18 0.

(** The state of the generator when [generate_immediate stroke] enters its
    loop (lines 684-687). *)
Definition stroke_started : Display :=
  set_next_intensity idle_16x2
    (apply_update stroke (current_intensity idle_16x2) (epd_width panel_16x2)).

(** The state after the first pass of the loop, when [retouch] has been
    pushed in the meantime. *)
Definition stroke_in_flight : Display :=
  let p := immediate_pass panel_16x2 two_steps null_16x2 (region stroke)
                          stroke_started in
  set_pending_updates
    (set_current_intensity (set_waveform_steps stroke_started (p_steps p))
                           (p_current p))
    [retouch].

(** A batch update of two pixels of row 1 on the 16 x 2 panel. *)
Definition patch : Update :=
  {| ids := [0]; mode := 1; immediate := false;
     region := {| top := 1; left := 3; width := 2; height := 1 |};
     buffer := [7; 9] |}.

(** *** Packed words

    The cell of a frame that holds the group of eight pixels starting at
    column [sx] of row [y] (section 4.F.2 of the specification: byte offset
    [(margin_top + y) * buf_stride + (margin_left + sx / 8) * buf_depth]). *)
Definition group_cell (g : Geometry) (y sx : Z) : Z :=
  ((margin_top g + y) * buf_stride g
   + (margin_left g + sx / buf_actual_depth) * buf_depth) / 2.

(** The two-bit lane of pixel [(x, y)] for one waveform step. *)
Definition lane_code (matrix : PhaseMatrix) (cur nxt : list Z)
    (region : UpdateRegion) (w x y : Z) : Z :=
  if contains region x y
  then phase_code (matrix (load cur (y * w + x)) (load nxt (y * w + x)))
  else 0.

(** The [i]-th bit pair of a 16-bit word, counted from the most significant
    pair. *)
Definition lane_of_word (word i : Z) : Z :=
  Z.land (Z.shiftr word (2 * (7 - i))) 3.

(** The value of the accumulator after [n] lanes [f sx], [f (sx + 1)], ...,
    each shifted in from the right. *)
Fixpoint pack (f : Z -> Z) (sx : Z) (n : nat) : Z :=
  match n with
  | O => 0
  | Datatypes.S n' => pack f sx n' * 4 + f (sx + Z.of_nat n')
  end.

(** The framebuffer page has room for the panel behind its margins, and the
    null frame is one page of 16-bit cells. *)
Definition frame_layout_ok (g : Geometry) (null_frame : Frame) : Prop :=
  0 <= margin_top g /\ 0 <= margin_left g /\
  margin_left g + epd_width g / buf_actual_depth <= buf_width g /\
  margin_top g + epd_height g <= buf_height g /\
  buf_stride g < 2 ^ 32 /\
  Z.of_nat (length null_frame) = buf_frame g / 2.

(** The column at which the pixel pointers stand when the walk over row [y]
    reaches column [x]: they only move over the pixels of the region. *)
Definition clamp (r : UpdateRegion) (x : Z) : Z :=
  Z.max (left r) (Z.min x (left r + width r)).

(** The three results of [generate_batch]. *)
Definition batch_frames (g : Geometry) (table : WaveformTable) (null_frame : Frame)
    (u : Update) (d : Display) : list Frame :=
  fst (fst (generate_batch g table null_frame u d)).
Definition batch_update (g : Geometry) (table : WaveformTable) (null_frame : Frame)
    (u : Update) (d : Display) : Update :=
  snd (fst (generate_batch g table null_frame u d)).
Definition batch_display (g : Geometry) (table : WaveformTable) (null_frame : Frame)
    (u : Update) (d : Display) : Display :=
  snd (generate_batch g table null_frame u d).

(** Whether the pixel stored at index [i] of the panel-sized vectors lies in
    the region. *)
Definition pixel_in (g : Geometry) (r : UpdateRegion) (i : Z) : bool :=
  contains r (i mod epd_width g) (i / epd_width g).

(** The three pixel pointers of a pass stand at offset [c]. *)
Definition at_cursor (c : Z) (p : Pass) : Prop :=
  p_step p = c /\ p_prev p = c /\ p_next p = c.

(** The state of [generate_immediate] between two passes while no update
    arrives: the vectors are panel-sized, the queue is empty, and every pixel
    that still differs from its target lies in the update's region and stands
    at step [j] of the waveform. *)
Definition in_step (g : Geometry) (j : Z) (u : Update) (d : Display) : Prop :=
  region_within g (region u) /\
  Z.of_nat (length (waveform_steps d)) = epd_size g /\
  Z.of_nat (length (current_intensity d)) = epd_size g /\
  Z.of_nat (length (next_intensity d)) = epd_size g /\
  pending_updates d = [] /\
  forall i, 0 <= i < epd_size g ->
            load (current_intensity d) i <> load (next_intensity d) i ->
            pixel_in g (region u) i = true /\ load (waveform_steps d) i = j.

(** The state in which [generate_immediate] leaves a pass. *)
Definition after_pass (d : Display) (p : Pass) : Display :=
  set_current_intensity (set_waveform_steps d (p_steps p)) (p_current p).

(** A caller's region whose bottom edge [top + height] does not fit 32
    bits. *)
Definition overflowing_region : UpdateRegion :=
  {| top := 16; left := 1; width := 0; height := 2 ^ 32 - 1 |}.

(** An update over the same two pixels that changes the first target. *)
Definition retouch_first : Update :=
  {| ids := [2]; mode := 1; immediate := true;
     region := first_two_pixels; buffer := [9; 5] |}.

(** One turn of the vsync loop in which the wait times out and a batch of
    one frame arrives afterwards. *)
Definition idle_then_batch : Round :=
  {| stop_at_entry := false; timed_out := true; stop_after_wait := false;
     blank_off_ret := 0; blank_on_ret := 0; temperature_ok := true;
     batch := [null_16x2]; flip_rets := [0] |}.

(** The region with its two sizes exchanged and the same corner. *)
Definition transposed (r : UpdateRegion) : UpdateRegion :=
  {| top := top r; left := left r; width := height r; height := width r |}.

(** A caller's buffer for [portrait_2x3], with values that do not all fit
    five bits. *)
Definition buffer_2x3 : list Z := [1; 34; 3; 4; 255; 6].

(** ** [Display::pop_update] and [Display::process_update]

    [pop_update] waits on [updates_cv] until the queue is not empty or the
    generator is told to stop (lines 493-500); the model tells the three ways
    the call can stand apart. *)
Inductive Popped :=
| StillWaiting                       (* empty queue, not stopping: blocked *)
| Stopping                           (* [stopping_generator]: returns [{}] *)
| Front (u : Update) (d : Display).  (* the front update, popped *)

Definition pop_update (stopping_generator : bool) (d : Display) : Popped :=
  match pending_updates d with
  | [] => if stopping_generator then Stopping else StillWaiting
  | u :: q =>
      if stopping_generator then Stopping
      else Front u (set_pending_updates d q)
  end.

(** [process_update] (lines 471-484). The call does not return while
    [pop_update] waits; otherwise it leaves the batches handed to
    [send_frames], in order, and the new state. An immediate update sends its
    frames one per batch. [OutOfFuel] when the fuel of [generate_immediate]
    does not suffice. *)
Inductive Processed :=
| Blocked
| OutOfFuel
| Done (batches : list (list Frame)) (d : Display).

Definition process_update (g : Geometry) (table : WaveformTable)
    (null_frame : Frame) (fuel : nat) (arrivals : list (list Update))
    (stopping_generator : bool) (d : Display) : Processed :=
  match pop_update stopping_generator d with
  | StillWaiting => Blocked
  | Stopping => Done [] d
  | Front update d =>
      if immediate update
      then
        match generate_immediate g table null_frame fuel arrivals update d with
        | Some run => Done (map (fun f => [f]) (sent_frames run)) (final_display run)
        | None => OutOfFuel
        end
      else
        let '(frames, _, d) := generate_batch g table null_frame update d in
        Done [frames] d
  end.

(** What [push_update] guarantees of every update it puts in the queue. *)
Definition update_ok (g : Geometry) (u : Update) : Prop :=
  region_within g (region u) /\
  Z.of_nat (length (buffer u)) = width (region u) * height (region u) /\
  Forall (fun v => 0 <= v < intensity_values) (buffer u).

(** The test of lines 520-525, as the condition under which [merge_updates]
    goes on. *)
Definition same_kind (cur_update next_update : Update) : bool :=
  Bool.eqb (immediate cur_update) (immediate next_update)
  && (mode cur_update =? mode next_update).

(** A second batch update for the 16 x 2 panel, and one of another mode. *)
Definition patch_left : Update :=
  {| ids := [1]; mode := 1; immediate := false;
     region := {| top := 0; left := 0; width := 1; height := 2 |};
     buffer := [4; 6] |}.

Definition patch_other_mode : Update :=
  {| ids := [2]; mode := 2; immediate := false;
     region := {| top := 0; left := 0; width := 1; height := 1 |};
     buffer := [8] |}.

Definition queued_16x2 : Display :=
  set_pending_updates idle_16x2 [patch_left; patch_other_mode; patch_left].

(** The value a pixel takes from the last update of a list whose region
    contains it, or [old] when there is none: updates are applied to
    [next_intensity] in list order (lines 603 and 561). *)
Definition last_writer (updates : list Update) (x y : Z) (old : Z) : Z :=
  match find (fun p => contains (region p) x y) (rev updates) with
  | Some p =>
      load (buffer p)
           ((y - top (region p)) * width (region p) + (x - left (region p)))
  | None => old
  end.

(** The first frame of the batch generated for [patch]. *)
Definition patch_frame : Frame :=
  nth 0 (batch_frames panel_16x2 (fun _ _ => two_steps) null_16x2 patch idle_16x2) [].

(** What a run of the loop of [generate_immediate] leaves when it started
    from [d] with [sent] frames sent and [count] passes made, [n + 1] steps
    of the waveform being left for the pixels in transition: the targets are
    reached, every step counter is back at 0, the queue is empty, and the
    run made one pass and sent no frame when no pixel differed from its
    target, and [n + 2] passes and [n + 1] frames when one did. *)
Definition run_settles (g : Geometry) (d : Display) (sent : list Frame)
    (count n : nat) (run : ImmediateRun) : Prop :=
  next_intensity (final_display run) = next_intensity d /\
  current_intensity (final_display run) = next_intensity d /\
  Z.of_nat (length (waveform_steps (final_display run))) = epd_size g /\
  (forall i, 0 <= i < epd_size g ->
             load (waveform_steps (final_display run)) i = 0) /\
  pending_updates (final_display run) = [] /\
  ((forall i, 0 <= i < epd_size g ->
              load (current_intensity d) i = load (next_intensity d) i) ->
   sent_frames run = sent /\ passes run = Datatypes.S count) /\
  (forall i, 0 <= i < epd_size g ->
             load (current_intensity d) i <> load (next_intensity d) i ->
             length (sent_frames run) = (length sent + n + 1)%nat /\
             passes run = (count + n + 2)%nat).

(** The pixels that are at their target are at step 0. *)
Definition rested (g : Geometry) (d : Display) : Prop :=
  forall i, 0 <= i < epd_size g ->
            load (current_intensity d) i = load (next_intensity d) i ->
            load (waveform_steps d) i = 0.

(** *** The copy and flip protocol of the vsync thread, as a monitor

    Between two frames the monitor is [Ready] and remembers whether no flip
    has been issued yet; a copy must be followed at once by the flip of the
    page it filled, requested with [FBIOPUT_VSCREENINFO] the first time and
    with [FBIOPAN_DISPLAY] afterwards; after a flip that returned -1 nothing
    more may happen. *)
Inductive FlipState :=
| Ready (first : bool)
| Copied (first : bool) (dst : Z)
| Ended
| Broken.

Definition flip_step (g : Geometry) (s : FlipState) (e : Event) : FlipState :=
  match s, e with
  | Ready first, Memcpy dst _ => Copied first dst
  | Ready first, Flip _ _ _ => Broken
  | Ready first, _ => Ready first
  | Copied first dst, Flip request yoffset ret =>
      if (((dst =? 0) && (yoffset =? 0))
          || ((dst =? buf_frame g) && (yoffset =? buf_height g)))
         && (match request with
             | FBIOPUT_VSCREENINFO => first
             | FBIOPAN_DISPLAY => negb first
             end)
      then if ret =? -1 then Ended else Ready false
      else Broken
  | Copied _ _, _ => Broken
  | Ended, _ => Broken
  | Broken, _ => Broken
  end.

Definition flip_accepted (s : FlipState) : bool :=
  match s with Ready _ | Ended => true | _ => false end.

Definition flip_discipline (g : Geometry) (tr : list Event) : bool :=
  flip_accepted (fold_left (flip_step g) tr (Ready true)).

(** The frames copied into the framebuffer, in order. *)
Definition copied_frames (tr : list Event) : list Frame :=
  flat_map (fun e => match e with Memcpy _ frame => [frame] | _ => [] end) tr.

(** How many batches were released to the generator. *)
Definition releases (tr : list Event) : nat :=
  length (List.filter (fun e => match e with Release => true | _ => false end) tr).

(** A sensor file holding more than the array can take. *)
Definition sensor_long : SensorFile :=
  ReadBytes [49; 50; 51; 52; 53; 54; 55; 56; 57; 48; 49; 50; 51; 52].

(** ** [Display::start]: the null frame (lines 201-273)

    The null frame is seen here as its bytes; [null_ptr] is a byte offset.
    One run writes [count] times the control byte [value], [buf_depth] bytes
    apart. The source does not check [null_ptr]; a write past the end of the
    array, undefined in C++, is dropped by [store]. *)
Definition fill_run (count value : Z) (s : Z * list Z) : Z * list Z :=
  for_loop 0 count 1
    (fun _ s => let '(null_ptr, frame) := s in
                (null_ptr + buf_depth, store frame null_ptr value)) s.

(** Lines 204-223. *)
Definition null_first_line (s : Z * list Z) : Z * list Z :=
  let s := fill_run 20 67 s in       (* 0b01000011 *)
  let s := fill_run 20 71 s in       (* 0b01000111 *)
  let s := fill_run 63 69 s in       (* 0b01000101 *)
  let s := fill_run 40 71 s in       (* 0b01000111 *)
  fill_run 117 67 s.                 (* 0b01000011 *)

(** Lines 226-246, the body of the loop over [y]. *)
Definition null_second_third_lines (y : Z) (s : Z * list Z) : Z * list Z :=
  let s := fill_run 8 65 s in        (* 0b01000001 *)
  let s := fill_run 11 97 s in       (* 0b01100001 *)
  let s := fill_run 36 65 s in       (* 0b01000001 *)
  let s := fill_run 200 67 s in      (* 0b01000011 *)
  fill_run 5 65 s.                   (* 0b01000001 *)

(** Lines 249-273, the body of the loop over [y]. *)
Definition null_following_lines (y : Z) (s : Z * list Z) : Z * list Z :=
  let s := fill_run 8 65 s in        (* 0b01000001 *)
  let s := fill_run 11 97 s in       (* 0b01100001 *)
  let s := fill_run 7 65 s in        (* 0b01000001 *)
  let s := fill_run 29 81 s in       (* 0b01010001 *)
  let s := fill_run 200 83 s in      (* 0b01010011 *)
  fill_run 5 81 s.                   (* 0b01010001 *)

(** The initialisation: the final [null_ptr] and the frame. *)
Definition init_null_frame (g : Geometry) (null_frame : list Z) : Z * list Z :=
  let s := null_first_line (2, null_frame) in
  let s := for_loop 1 3 1 null_second_third_lines s in
  for_loop 3 (buf_height g) 1 null_following_lines s.

(** The control byte of group [col] in a row made of the given runs
    [(count, value)]. *)
Fixpoint run_value (runs : list (Z * Z)) (k : Z) : Z :=
  match runs with
  | [] => 0
  | (count, value) :: rest =>
      if k <? count then value else run_value rest (k - count)
  end.

Definition fill_runs (runs : list (Z * Z)) (s : Z * list Z) : Z * list Z :=
  fold_left (fun s r => fill_run (fst r) (snd r) s) runs s.

Definition first_line_runs : list (Z * Z) :=
  [(20, 67); (20, 71); (63, 69); (40, 71); (117, 67)].
Definition second_third_runs : list (Z * Z) :=
  [(8, 65); (11, 97); (36, 65); (200, 67); (5, 65)].
Definition following_runs : list (Z * Z) :=
  [(8, 65); (11, 97); (7, 65); (29, 81); (200, 83); (5, 81)].

Definition control_byte (y col : Z) : Z :=
  run_value (if y =? 0 then first_line_runs
             else if y <? 3 then second_third_runs
             else following_runs) col.

(** The framebuffer of the reMarkable 2 with only four rows, and its null
    frame before the initialisation. *)
Definition short_260 : Geometry :=
  {| epd_width := 1872; epd_height := 1;
     buf_width := 260; buf_height := 4;
     margin_top := 3; margin_left := 26 |}.
Definition blank_260 : list Z := replicate 4160 0.

(** The pixel the scan of [merge_updates] reads in row [j] of the peer's
    region, and what makes it stop there: the offset moves by
    [epd_width - width] from one row to the next and not inside a row, and
    the peer's buffer is read at its first value only. *)
Definition scan_offset (g : Geometry) (r : UpdateRegion) (j : Z) : Z :=
  wrap32 (top r * epd_width g + left r) + j * wrap32 (epd_width g - width r).

Definition scan_hit (g : Geometry) (d : Display) (p : Update) (j : Z) : Prop :=
  load (next_intensity d) (scan_offset g (region p) j) <> load (buffer p) 0 /\
  0 < load (waveform_steps d) (scan_offset g (region p) j).

(** The two-bit lane of pixel [(x, y)] in the frame of one pass of
    [generate_immediate]: the phase of the pixel's step when the pixel lies
    in the region and differs from its target, nothing otherwise. *)
Definition immediate_lane_code (waveform : Waveform) (steps cur nxt : list Z)
    (region : UpdateRegion) (w x y : Z) : Z :=
  if contains region x y && negb (load cur (y * w + x) =? load nxt (y * w + x))
  then phase_code (waveform_at waveform (load steps (y * w + x))
                               (load cur (y * w + x)) (load nxt (y * w + x)))
  else 0.

(** The two-bit lane, in a frame, of the pixel stored at index [i] of the
    panel-sized vectors. *)
Definition pixel_lane (g : Geometry) (frame : Frame) (i : Z) : Z :=
  lane_of_word (load frame (group_cell g (i / epd_width g) (i mod epd_width g)))
               (i mod epd_width g mod 8).

(** *** What the environment lets the vsync thread do

    The copies into the framebuffer, in order, each with its destination. *)
Definition memcpys (tr : list Event) : list (Z * Frame) :=
  flat_map (fun e => match e with Memcpy dst frame => [(dst, frame)] | _ => [] end) tr.

(** The outcomes of the timed waits, in order. *)
Definition wait_outcomes (tr : list Event) : list bool :=
  flat_map (fun e => match e with WaitFor ready => [ready] | _ => [] end) tr.

(** The frames of a batch that the thread copies and asks the panel to show
    when the flips return [rets]: all of them, or those up to and including
    the first whose flip returns -1 (the thread returns there, line 877);
    the boolean tells whether every flip succeeded. *)
Fixpoint flipped (frames : list Frame) (rets : list Z) : list Frame * bool :=
  match frames with
  | [] => ([], true)
  | frame :: frames' =>
      if hd 0 rets =? -1 then ([frame], false)
      else let '(shown, all) := flipped frames' (tl rets) in (frame :: shown, all)
  end.

(** The frames of a round that the thread copies, and whether it goes on to
    the next turn: nothing is copied when the stop flag is up after the wait
    (line 834) or the temperature read throws. *)
Definition round_frames (r : Round) : list Frame * bool :=
  if stop_after_wait r then ([], false)
  else if negb (temperature_ok r) then ([], false)
  else flipped (batch r) (flip_rets r).

(** All the frames displayed since the thread started, across batches: the
    loop goes from one round to the next as long as the stop flag is down
    at the [while] test (line 819) and the round before let it go on. *)
Fixpoint frames_shown (rounds : list Round) : list Frame :=
  match rounds with
  | [] => []
  | r :: rounds' =>
      if stop_at_entry r then []
      else fst (round_frames r)
           ++ (if snd (round_frames r) then frames_shown rounds' else [])
  end.

(** The turns of the loop that are entered. *)
Fixpoint rounds_entered (rounds : list Round) : list Round :=
  match rounds with
  | [] => []
  | r :: rounds' =>
      if stop_at_entry r then []
      else r :: (if snd (round_frames r) then rounds_entered rounds' else [])
  end.

(** A turn in which a batch of two frames is ready at once. *)
Definition busy_round : Round :=
  {| stop_at_entry := false; timed_out := false; stop_after_wait := false;
     blank_off_ret := 0; blank_on_ret := 0; temperature_ok := true;
     batch := [patch_frame; null_16x2]; flip_rets := [0; 0] |}.

(** The recorded power state when the waits of a turn are over. *)
Definition power_after_wait (r : Round) (v : Vsync) : bool :=
  power_state (if timed_out r then snd (set_power false (blank_off_ret r) v)
               else v).

(** *** The power discipline as the specification words it

    Without regard to the recorded power state: a timed-out wait is followed
    by the power-down ioctl and then by the wait without timeout; once the
    panel has been powered down this way, no frame is copied before an
    unblank ioctl. *)
Record Claimed := {
  claimed_due : Pending;
  powered_down : bool;
  claim_broken : bool
}.

Definition claimed_step (m : Claimed) (e : Event) : Claimed :=
  match claimed_due m, e with
  | PowerDownDue, Blank FB_BLANK_POWERDOWN _ =>
      {| claimed_due := WaitDue; powered_down := true;
         claim_broken := claim_broken m |}
  | PowerDownDue, _ =>
      {| claimed_due := NothingDue; powered_down := powered_down m;
         claim_broken := true |}
  | WaitDue, Wait =>
      {| claimed_due := NothingDue; powered_down := powered_down m;
         claim_broken := claim_broken m |}
  | WaitDue, _ =>
      {| claimed_due := NothingDue; powered_down := powered_down m;
         claim_broken := true |}
  | NothingDue, WaitFor false =>
      {| claimed_due := PowerDownDue; powered_down := powered_down m;
         claim_broken := claim_broken m |}
  | NothingDue, Blank FB_BLANK_UNBLANK _ =>
      {| claimed_due := NothingDue; powered_down := false;
         claim_broken := claim_broken m |}
  | NothingDue, Memcpy _ _ =>
      {| claimed_due := NothingDue; powered_down := powered_down m;
         claim_broken := claim_broken m || powered_down m |}
  | NothingDue, _ => m
  end.

Definition claimed_discipline (tr : list Event) : bool :=
  let m := fold_left claimed_step tr
             {| claimed_due := NothingDue; powered_down := false;
                claim_broken := false |} in
  negb (claim_broken m)
  && match claimed_due m with NothingDue => true | _ => false end.

(** A turn in which the wait times out, the power-down ioctl fails and a
    batch of one frame arrives afterwards. *)
Definition idle_power_down_fails : Round :=
  {| stop_at_entry := false; timed_out := true; stop_after_wait := false;
     blank_off_ret := -1; blank_on_ret := 0; temperature_ok := true;
     batch := [null_16x2]; flip_rets := [0] |}.

(** A turn in which the wait times out, the panel is powered down, and the
    unblank ioctl fails when a batch of one frame arrives. *)
Definition idle_unblank_fails : Round :=
  {| stop_at_entry := false; timed_out := true; stop_after_wait := false;
     blank_off_ret := 0; blank_on_ret := -1; temperature_ok := true;
     batch := [null_16x2]; flip_rets := [0] |}.

(** * Properties *)

(** ** Bit-level facts *)

Lemma land_mask7 (z : Z) : Z.land z 7 = z mod 8.
Proof. change 7 with (Z.ones 3). rewrite Z.land_ones by lia. reflexivity. Qed.

Lemma land_not32_mask7 (z : Z) :
  0 <= z < 2 ^ 32 -> Z.land z (not32 7) = z - z mod 8.
Proof.
  intros Hz. unfold not32, wrap32.
  rewrite <- (Z.land_ones (Z.lnot 7) 32) by lia.
  rewrite (Z.land_comm (Z.lnot 7)), Z.land_assoc.
  rewrite (Z.land_ones z 32) by lia.
  rewrite (Z.mod_small z) by lia.
  change (Z.land z (Z.lnot 7)) with (Z.ldiff z (Z.ones 3)).
  rewrite Z.ldiff_ones_r by lia.
  rewrite Z.shiftl_mul_pow2, Z.shiftr_div_pow2 by lia.
  change (2 ^ 3) with 8. pose proof (Z.div_mod z 8). lia.
Qed.

Lemma wrap32_small (z : Z) : 0 <= z < 2 ^ 32 -> wrap32 z = z.
Proof. intros Hz. unfold wrap32. apply Z.mod_small. lia. Qed.

Lemma geometry_ok_width (g : Geometry) :
  geometry_ok g -> 0 < epd_width g <= 2 ^ 32 - 8.
Proof.
  unfold geometry_ok, buf_actual_depth. intros (Hw & Hh & Hsz & Hm).
  assert (epd_width g < 2 ^ 32) by nia.
  pose proof (Z.div_mod (epd_width g) 8). lia.
Qed.

Lemma geometry_ok_height (g : Geometry) :
  geometry_ok g -> 0 < epd_height g < 2 ^ 32.
Proof. unfold geometry_ok. intros (Hw & Hh & Hsz & Hm). nia. Qed.

(** ** [align_region] *)

(** The arithmetic content of [align_region]: the left edge is rounded down
    and the right edge rounded up to the packing quantum. *)
Lemma align_region_eq (g : Geometry) (r : UpdateRegion) :
  geometry_ok g -> region_within g r ->
  align_region r =
  {| top := top r;
     left := left r - left r mod 8;
     width := (left r mod 8 + width r + 7) - (left r mod 8 + width r + 7) mod 8;
     height := height r |}.
Proof.
  intros Hg (Ht & Hl & Hw & Hh & Hr & Hb).
  pose proof (geometry_ok_width g Hg) as HW.
  pose proof (Z.mod_pos_bound (left r) 8 ltac:(lia)) as Hm.
  pose proof (Z.mod_le (left r) 8 ltac:(lia) ltac:(lia)) as Hle.
  unfold align_region, buf_actual_depth. change (8 - 1) with 7.
  rewrite !land_mask7.
  destruct (Z.eqb_spec (width r mod 8) 0) as [Ew|Ew];
    destruct (Z.eqb_spec (left r mod 8) 0) as [El|El]; cbn [andb].
  - destruct r as [t l w h]; cbn in *. f_equal; [lia|].
    rewrite El. replace (0 + w + 7) with (w + 7) by lia.
    pose proof (Z.div_mod w 8). pose proof (Z.div_mod (w + 7) 8).
    pose proof (Z.mod_pos_bound (w + 7) 8). lia.
  - rewrite wrap32_small by lia. rewrite !land_not32_mask7 by lia. reflexivity.
  - rewrite wrap32_small by lia. rewrite !land_not32_mask7 by lia. reflexivity.
  - rewrite wrap32_small by lia. rewrite !land_not32_mask7 by lia. reflexivity.
Qed.

Lemma round_down_mod8 (z : Z) : (z - z mod 8) mod 8 = 0.
Proof.
  pose proof (Z.div_mod z 8 ltac:(lia)).
  replace (z - z mod 8) with (z / 8 * 8) by lia. apply Z.mod_mul. lia.
Qed.

Lemma remarkable2_ok : geometry_ok remarkable2.
Proof. unfold geometry_ok; cbn. repeat split; try lia. Qed.

Lemma panel_16x2_ok : geometry_ok panel_16x2.
Proof. unfold geometry_ok; cbn. repeat split; try lia. Qed.

(** The aligned region stays on the panel and covers the region. *)
Lemma align_region_within (g : Geometry) (r : UpdateRegion) :
  geometry_ok g -> region_within g r ->
  region_within g (align_region r) /\
  top (align_region r) = top r /\ height (align_region r) = height r /\
  left (align_region r) mod 8 = 0 /\ width (align_region r) mod 8 = 0 /\
  left (align_region r) <= left r /\
  left r + width r <= left (align_region r) + width (align_region r).
Proof.
  intros Hg Hr. rewrite (align_region_eq g r Hg Hr).
  destruct Hr as (Htop & Hl & Hw & Hhe & Hright & Hb).
  cbn [top left width height].
  assert (HW8 : epd_width g mod 8 = 0) by apply Hg.
  pose proof (round_down_mod8 (left r)) as Hl8.
  pose proof (round_down_mod8 (left r mod 8 + width r + 7)) as Hw8.
  unfold region_within. cbn [top left width height].
  repeat split; try assumption; try lia.
  all: Z.div_mod_to_equations; lia.
Qed.

(** C7. For every region on the panel, [align_region] is idempotent, yields
    a left edge and a width that are multiples of 8, contains the region it
    is given, and leaves [top] and [height] as they are. *)
Theorem align_region_properties (g : Geometry) (r : UpdateRegion) :
  geometry_ok g -> region_within g r ->
  align_region (align_region r) = align_region r /\
  left (align_region r) mod 8 = 0 /\
  width (align_region r) mod 8 = 0 /\
  (forall x y, contains r x y = true -> contains (align_region r) x y = true) /\
  top (align_region r) = top r /\
  height (align_region r) = height r.
Proof.
  intros Hg Hr. rewrite (align_region_eq g r Hg Hr).
  destruct Hr as (Ht & Hl & Hw & Hh & Hr & Hb).
  set (m := left r mod 8). set (e := m + width r + 7).
  pose proof (round_down_mod8 (left r)) as Hml. fold m in Hml.
  pose proof (round_down_mod8 e) as Hme.
  pose proof (Z.mod_pos_bound e 8 ltac:(lia)) as Hbe.
  cbn [top left width height].
  repeat split; try assumption.
  - unfold align_region, buf_actual_depth. change (8 - 1) with 7.
    cbn [top left width height]. rewrite !land_mask7, Hml, Hme. reflexivity.
  - intros x y. unfold contains. cbn [top left width height].
    rewrite !andb_true_iff, !Z.leb_le, !Z.ltb_lt.
    pose proof (Z.mod_pos_bound (left r) 8 ltac:(lia)). fold m in H.
    subst e. lia.
Qed.

Lemma align_region_properties_witness :
  geometry_ok remarkable2 /\ region_within remarkable2 region_13_5 /\
  (align_region (align_region region_13_5) = align_region region_13_5 /\
   left (align_region region_13_5) mod 8 = 0 /\
   width (align_region region_13_5) mod 8 = 0 /\
   (forall x y, contains region_13_5 x y = true -> contains (align_region region_13_5) x y = true) /\
   top (align_region region_13_5) = top region_13_5 /\
   height (align_region region_13_5) = height region_13_5).
Proof.
  assert (Hr : region_within remarkable2 region_13_5)
    by (unfold region_within; cbn; lia).
  split; [exact remarkable2_ok|]. split; [exact Hr|].
  exact (align_region_properties remarkable2 region_13_5 remarkable2_ok Hr).
Defined.

(** ** The coordinate transform of [push_update] *)

Lemma transform_region_twice_eq (g : Geometry) (r : UpdateRegion) :
  transform_region g (transform_region g r) =
  {| top := wrap32 (top r + (epd_height g - epd_width g));
     left := wrap32 (left r + (epd_width g - epd_height g));
     width := width r; height := height r |}.
Proof.
  unfold transform_region, wrap32. cbn [top left width height]. f_equal.
  - rewrite <- Zminus_mod_idemp_l, Zminus_mod_idemp_r, Zminus_mod_idemp_l.
    f_equal. lia.
  - rewrite <- Zminus_mod_idemp_l, Zminus_mod_idemp_r, Zminus_mod_idemp_l.
    f_equal. lia.
Qed.

Lemma transform_region_inverse (g : Geometry) (r : UpdateRegion) :
  region_wf r -> transform_region (swap_axes g) (transform_region g r) = r.
Proof.
  intros (Ht & Hl & Hw & Hh).
  unfold transform_region, swap_axes, wrap32. cbn [top left width height epd_width epd_height].
  destruct r as [t l w h]; cbn in *. f_equal.
  - rewrite <- Zminus_mod_idemp_l, Zminus_mod_idemp_r, Zminus_mod_idemp_l.
    replace (epd_width g - (epd_width g - t - h) - h) with t by lia.
    apply Z.mod_small. lia.
  - rewrite <- Zminus_mod_idemp_l, Zminus_mod_idemp_r, Zminus_mod_idemp_l.
    replace (epd_height g - (epd_height g - l - w) - w) with l by lia.
    apply Z.mod_small. lia.
Qed.

(** C6 as the code has it. The forward transform maps a region of the
    caller's frame to the panel's frame; its inverse is the same formula with
    [epd_width] and [epd_height] exchanged. Applying the forward transform
    itself twice gives back the region exactly when the panel is square. *)
Theorem transform_region_involution (g : Geometry) (r : UpdateRegion) :
  0 <= epd_width g < 2 ^ 32 -> 0 <= epd_height g < 2 ^ 32 -> region_wf r ->
  transform_region (swap_axes g) (transform_region g r) = r /\
  (transform_region g (transform_region g r) = r <->
   epd_width g = epd_height g).
Proof.
  intros HW HH Hwf. split; [apply transform_region_inverse; exact Hwf|].
  rewrite transform_region_twice_eq.
  destruct Hwf as (Ht & Hl & Hw & Hh).
  destruct r as [t l w h]; cbn in *. split.
  - intros E. injection E as Et El. unfold wrap32 in Et.
    destruct (Z.eq_dec (epd_width g) (epd_height g)) as [|Hne]; [assumption|].
    exfalso.
    destruct (Z_lt_le_dec (epd_width g) (epd_height g)).
    + destruct (Z_lt_le_dec (t + (epd_height g - epd_width g)) (2 ^ 32)).
      * rewrite Z.mod_small in Et by lia. lia.
      * replace (t + (epd_height g - epd_width g))
          with (t + (epd_height g - epd_width g) - 2 ^ 32 + 1 * 2 ^ 32) in Et by lia.
        rewrite Z.mod_add in Et by lia. rewrite Z.mod_small in Et by lia. lia.
    + destruct (Z_lt_le_dec (t + (epd_height g - epd_width g)) 0).
      * replace (t + (epd_height g - epd_width g))
          with (t + (epd_height g - epd_width g) + 2 ^ 32 + (-1) * 2 ^ 32) in Et by lia.
        rewrite Z.mod_add in Et by lia. rewrite Z.mod_small in Et by lia. lia.
      * rewrite Z.mod_small in Et by lia. lia.
  - intros E. rewrite E, !Z.sub_diag, !Z.add_0_r. unfold wrap32.
    rewrite !Z.mod_small by lia. reflexivity.
Qed.

Lemma transform_region_involution_witness :
  (0 <= epd_width remarkable2 < 2 ^ 32 /\ 0 <= epd_height remarkable2 < 2 ^ 32 /\
   region_wf region_10_20) /\
  transform_region (swap_axes remarkable2)
    (transform_region remarkable2 region_10_20) = region_10_20 /\
  (transform_region remarkable2 (transform_region remarkable2 region_10_20)
   = region_10_20 <->
   epd_width remarkable2 = epd_height remarkable2).
Proof.
  assert (HW : 0 <= epd_width remarkable2 < 2 ^ 32) by (cbn; lia).
  assert (HH : 0 <= epd_height remarkable2 < 2 ^ 32) by (cbn; lia).
  assert (Hr : region_wf region_10_20) by (unfold region_wf; cbn; lia).
  split; [auto|].
  exact (transform_region_involution remarkable2 region_10_20 HW HH Hr).
Defined.

(** C6 as stated fails on the 1872 x 1404 panel: the one-pixel region at the
    origin lies on the canvas, and two applications of the forward transform
    move it. *)
Lemma transform_region_twice_counterexample :
  region_within remarkable2 origin_pixel /\
  transform_region remarkable2 (transform_region remarkable2 origin_pixel)
  <> origin_pixel.
Proof.
  split.
  - unfold region_within; cbn; lia.
  - vm_compute. discriminate.
Qed.

(** ** [push_update] *)

Lemma wrap32_negative (z : Z) : - 2 ^ 32 <= z < 0 -> wrap32 z = z + 2 ^ 32.
Proof.
  intros Hz. unfold wrap32.
  replace z with (z + 2 ^ 32 + (-1) * 2 ^ 32) at 1 by lia.
  rewrite Z.mod_add by lia. apply Z.mod_small. lia.
Qed.

(** The bounds test accepts exactly the regions whose transformed top-left
    corner is a pixel of the panel, as long as the caller's right and bottom
    edges are representable. *)
Lemma out_of_panel_transform (g : Geometry) (r : UpdateRegion) :
  geometry_ok g -> region_wf r ->
  left r + width r < 2 ^ 32 -> top r + height r < 2 ^ 32 ->
  out_of_panel g (transform_region g r) = false <->
  (0 < left r + width r <= epd_height g /\ 0 < top r + height r <= epd_width g).
Proof.
  intros Hg (Ht & Hl & Hw & Hh) Hright Hbottom.
  pose proof (geometry_ok_width g Hg) as HW.
  pose proof (geometry_ok_height g Hg) as HH.
  unfold out_of_panel, transform_region. cbn [top left width height].
  rewrite !orb_false_iff, !Z.leb_gt, !Z.ltb_ge.
  set (T := epd_height g - left r - width r).
  set (L := epd_width g - top r - height r).
  split.
  - intros (((HL & HT) & _) & _).
    destruct (Z_lt_le_dec T 0); [rewrite wrap32_negative in HT by lia; lia|].
    destruct (Z_lt_le_dec L 0); [rewrite wrap32_negative in HL by lia; lia|].
    rewrite wrap32_small in HT, HL by lia. lia.
  - intros (HT & HL).
    rewrite (wrap32_small T), (wrap32_small L) by lia.
    rewrite !wrap32_small by lia. lia.
Qed.

Lemma transform_region_on_panel (g : Geometry) (r : UpdateRegion) :
  geometry_ok g -> region_wf r ->
  0 < left r + width r <= epd_height g -> 0 < top r + height r <= epd_width g ->
  region_within g (transform_region g r) /\
  left (transform_region g r) < epd_width g /\
  top (transform_region g r) < epd_height g.
Proof.
  intros Hg (Ht & Hl & Hw & Hh) HT HL.
  pose proof (geometry_ok_width g Hg) as HW.
  pose proof (geometry_ok_height g Hg) as HH.
  unfold region_within, transform_region. cbn [top left width height].
  rewrite !wrap32_small by lia. lia.
Qed.


(** Outside the theorem's hypotheses: when [top + height] overflows, the
    32-bit sums of the bounds test wrap, and a region far wider than the
    panel is queued. *)
Example push_update_accepts_wrapped_region :
  fst (push_update panel_16x2 1 false overflowing_region [] idle_16x2) = true /\
  width (transform_region panel_16x2 overflowing_region) = 2 ^ 32 - 1.
Proof. split; reflexivity. Qed.



(** ** [update_temperature] *)

Lemma terminator_index_bounds (size : Z) :
  0 <= size < 2 ^ 31 ->
  0 <= terminator_index size < sizeof_buffer /\
  terminator_index size =
    (if size <? sizeof_buffer then size else sizeof_buffer - 1).
Proof.
  intros Hs. unfold terminator_index, cast_size_t, sizeof_buffer.
  rewrite Z.mod_small by lia.
  destruct (Z.leb_spec 12 size); destruct (Z.ltb_spec size 12); lia.
Qed.

Lemma sys_read_result (file : SensorFile) (buffer : list Z) (count : Z)
    (size : Z) (buffer' : list Z) :
  0 <= count <= Z.of_nat (length buffer) ->
  sys_read file buffer count = (size, buffer') ->
  -1 <= size <= count /\ length buffer' = length buffer.
Proof.
  intros Hc. destruct file as [|data]; cbn [sys_read].
  - intros [= <- <-]. lia.
  - intros [= <- <-]. split; [lia|].
    rewrite length_app, length_take, length_drop. lia.
Qed.

(** C9. [update_temperature] asks [read] for at most 12 bytes, and whatever
    count [read] returns, the terminator is stored at index [size] when
    [size < 12] and at index 11 otherwise, inside the 12-byte array. *)
Theorem update_temperature_store_in_bounds (fresh : bool) (seek : Z)
    (file : SensorFile) (buffer : list Z) (size index : Z) (buffer' : list Z) :
  Z.of_nat (length buffer) = sizeof_buffer ->
  update_temperature fresh seek file buffer = Terminated size index buffer' ->
  0 <= size <= sizeof_buffer /\
  index = (if size <? sizeof_buffer then size else sizeof_buffer - 1) /\
  0 <= index < Z.of_nat (length buffer) /\
  length buffer' = length buffer /\
  load buffer' index = 0.
Proof.
  intros Hlen. unfold update_temperature.
  destruct fresh; [discriminate|].
  destruct (negb (seek =? 0)); [discriminate|].
  destruct (sys_read file buffer sizeof_buffer) as [n b] eqn:Eread.
  apply sys_read_result in Eread; [|unfold sizeof_buffer in *; lia].
  destruct Eread as (Hn & Hb).
  destruct (Z.eqb_spec n (-1)); [discriminate|].
  intros [= <- <- <-].
  assert (Hn' : 0 <= n < 2 ^ 31) by (unfold sizeof_buffer in *; lia).
  destruct (terminator_index_bounds n Hn') as (Hi & Ei).
  split; [unfold sizeof_buffer in *; lia|]. split; [exact Ei|].
  split; [lia|]. split.
  - unfold store. rewrite length_insert. exact Hb.
  - unfold load, store.
    rewrite list_lookup_total_insert_eq; [reflexivity|]. lia.
Qed.

Lemma update_temperature_store_in_bounds_witness :
  Z.of_nat (length stack_bytes) = sizeof_buffer /\
  update_temperature false 0 sensor_24 stack_bytes
  = Terminated 3 3 [50; 52; 10; 0; 170; 170; 170; 170; 170; 170; 170; 170] /\
  (0 <= 3 <= sizeof_buffer /\
   3 = (if 3 <? sizeof_buffer then 3 else sizeof_buffer - 1) /\
   0 <= 3 < Z.of_nat (length stack_bytes) /\
   length [50; 52; 10; 0; 170; 170; 170; 170; 170; 170; 170; 170]
   = length stack_bytes /\
   load [50; 52; 10; 0; 170; 170; 170; 170; 170; 170; 170; 170] 3 = 0).
Proof.
  assert (Hlen : Z.of_nat (length stack_bytes) = sizeof_buffer) by reflexivity.
  assert (Hrun : update_temperature false 0 sensor_24 stack_bytes
                 = Terminated 3 3 [50; 52; 10; 0; 170; 170; 170; 170; 170; 170; 170; 170])
    by reflexivity.
  split; [exact Hlen|]. split; [exact Hrun|].
  exact (update_temperature_store_in_bounds false 0 sensor_24 stack_bytes 3 3 _
           Hlen Hrun).
Defined.

(** ** [run_vsync_thread]: page alternation *)

Lemma memcpys_app (a b : list Event) : memcpys (a ++ b) = memcpys a ++ memcpys b.
Proof. unfold memcpys. apply flat_map_app. Qed.

Lemma wait_outcomes_app (a b : list Event) :
  wait_outcomes (a ++ b) = wait_outcomes a ++ wait_outcomes b.
Proof. unfold wait_outcomes. apply flat_map_app. Qed.

Lemma set_power_next_frame (want : bool) (ret : Z) (v : Vsync) :
  next_frame (snd (set_power want ret v)) = next_frame v /\
  memcpys (fst (set_power want ret v)) = [] /\
  wait_outcomes (fst (set_power want ret v)) = [].
Proof. unfold set_power. destruct (negb _); repeat split; reflexivity. Qed.

Lemma page_shift (c k n : Z) :
  ((c + k) mod 2 + n + 1) mod 2 = (c + (k + n) + 1) mod 2.
Proof.
  rewrite <- (Zplus_mod_idemp_l ((c + k) mod 2 + n) 1).
  rewrite (Zplus_mod_idemp_l (c + k) n).
  rewrite Zplus_mod_idemp_l. f_equal. lia.
Qed.

(** The frames of one batch (lines 847-880): each is copied to the page after
    the one of the frame before it, up to the first flip that fails. *)
Lemma copy_frames_memcpys (g : Geometry) (frames : list Frame) :
  forall (rets : list Z) (v : Vsync) events v' ok,
    0 <= next_frame v < 2 ->
    copy_frames g frames rets v = (events, v', ok) ->
    memcpys events
    = imap (fun n frame => ((next_frame v + Z.of_nat n + 1) mod 2 * buf_frame g, frame))
           (fst (flipped frames rets)) /\
    wait_outcomes events = [] /\
    ok = snd (flipped frames rets) /\
    next_frame v'
    = (next_frame v + Z.of_nat (length (fst (flipped frames rets)))) mod 2.
Proof.
  induction frames as [|frame frames IH]; intros rets v events v' ok Hv.
  - cbn. intros [= <- <- <-]. repeat split; try reflexivity.
    rewrite Z.add_0_r, Z.mod_small by lia. reflexivity.
  - cbn [copy_frames flipped].
    assert (Hn : 0 <= (next_frame v + 1) mod 2 < 2)
      by (apply Z.mod_pos_bound; lia).
    destruct (hd 0 rets =? -1).
    + intros [= <- <- <-]. cbn. rewrite Z.add_0_r. repeat split; reflexivity.
    + destruct (copy_frames g frames (tl rets) _) as [[events' v''] ok'] eqn:E.
      destruct (flipped frames (tl rets)) as [shown all] eqn:Ef.
      intros [= <- <- <-].
      apply IH in E; [|exact Hn]. cbn [next_frame] in E. rewrite Ef in E.
      cbn [fst snd] in *. destruct E as (Em & Ew & Eok & Ev).
      cbn [app memcpys wait_outcomes flat_map].
      fold (memcpys events'). fold (wait_outcomes events').
      rewrite Em, Ew, imap_cons. cbn [app length].
      split; [|split; [reflexivity|split; [exact Eok|]]].
      * rewrite Z.add_0_r. f_equal.
        apply imap_ext. intros n x _. unfold compose. f_equal. f_equal.
        rewrite page_shift. f_equal. lia.
      * rewrite Ev, Zplus_mod_idemp_l. f_equal. lia.
Qed.

(** One turn of the loop: its timed wait, the frames it copies and whether
    the thread goes on, as the environment's choices decide them. *)
Lemma vsync_round_memcpys (g : Geometry) (r : Round) (v : Vsync) events v' ok :
  0 <= next_frame v < 2 ->
  vsync_round g r v = (events, v', ok) ->
  memcpys events
  = imap (fun n frame => ((next_frame v + Z.of_nat n + 1) mod 2 * buf_frame g, frame))
         (fst (round_frames r)) /\
  wait_outcomes events = [negb (timed_out r)] /\
  ok = snd (round_frames r) /\
  next_frame v' = (next_frame v + Z.of_nat (length (fst (round_frames r)))) mod 2.
Proof.
  intros Hv. unfold vsync_round, round_frames.
  assert (Hidle : forall w : Vsync, next_frame w = next_frame v ->
            next_frame w = (next_frame v + Z.of_nat 0) mod 2).
  { intros w Hw. rewrite Hw. cbn. rewrite Z.add_0_r, Z.mod_small by lia.
    reflexivity. }
  set (waited :=
         if timed_out r
         then let '(off, v0) := set_power false (blank_off_ret r) v in
              ([WaitFor false] ++ off ++ [Wait], v0)
         else ([WaitFor true], v)).
  assert (Hw : memcpys (fst waited) = [] /\
               wait_outcomes (fst waited) = [negb (timed_out r)] /\
               next_frame (snd waited) = next_frame v).
  { subst waited. destruct (timed_out r); [|repeat split; reflexivity].
    pose proof (set_power_next_frame false (blank_off_ret r) v) as (Hn & Hc & Ho).
    destruct (set_power false (blank_off_ret r) v) as [off v0].
    cbn [fst snd] in *.
    rewrite !memcpys_app, !wait_outcomes_app, Hc, Ho.
    split; [reflexivity|]. split; [reflexivity|exact Hn]. }
  destruct waited as [w v0]. cbn [fst snd] in Hw. destruct Hw as (Hcw & How & Hnw).
  destruct (stop_after_wait r).
  { intros [= <- <- <-]. rewrite Hcw, How. cbn [fst snd length imap].
    repeat split; try reflexivity. apply Hidle. exact Hnw. }
  pose proof (set_power_next_frame true (blank_on_ret r) v0) as (Hn1 & Hc1 & Ho1).
  destruct (set_power true (blank_on_ret r) v0) as [on v1]. cbn [fst snd] in *.
  destruct (temperature_ok r); cbn [negb].
  2:{ intros [= <- <- <-].
      rewrite !memcpys_app, !wait_outcomes_app, Hcw, How, Hc1, Ho1.
      cbn [fst snd length imap app]. repeat split; try reflexivity.
      apply Hidle. congruence. }
  destruct (copy_frames g (batch r) (flip_rets r) v1) as [[copied v2] ok2] eqn:E.
  apply copy_frames_memcpys in E; [|lia].
  rewrite Hn1, Hnw in E. destruct E as (Ec & Eo & Eok & Ev).
  assert (Hskip : forall l, memcpys (ReadTemperature true :: l) = memcpys l)
    by reflexivity.
  assert (Hskip' : forall l, wait_outcomes (ReadTemperature true :: l)
                             = wait_outcomes l) by reflexivity.
  destruct ok2; intros [= <- <- <-];
    rewrite !memcpys_app, !wait_outcomes_app, Hcw, How, Hc1, Ho1;
    cbn [app]; rewrite Hskip, Hskip', ?memcpys_app, ?wait_outcomes_app, Eo;
    change (memcpys [Release]) with (@nil (Z * Frame));
    change (wait_outcomes [Release]) with (@nil bool);
    rewrite ?app_nil_r; repeat split; assumption.
Qed.

(** The whole run of the loop from a state [v]. *)
Lemma vsync_loop_memcpys (g : Geometry) (rounds : list Round) :
  forall v : Vsync,
    0 <= next_frame v < 2 ->
    memcpys (vsync_loop g rounds v)
    = imap (fun n frame => ((next_frame v + Z.of_nat n + 1) mod 2 * buf_frame g, frame))
           (frames_shown rounds) /\
    wait_outcomes (vsync_loop g rounds v)
    = map (fun r => negb (timed_out r)) (rounds_entered rounds).
Proof.
  induction rounds as [|r rounds IH]; intros v Hv;
    cbn [vsync_loop frames_shown rounds_entered].
  - split; reflexivity.
  - destruct (stop_at_entry r); [split; reflexivity|].
    destruct (vsync_round g r v) as [[events v'] ok] eqn:E.
    apply vsync_round_memcpys in E; [|exact Hv].
    destruct E as (Ec & Eo & Eok & Ev). rewrite <- Eok.
    destruct ok.
    + assert (Hv' : 0 <= next_frame v' < 2)
        by (rewrite Ev; apply Z.mod_pos_bound; lia).
      destruct (IH v' Hv') as (IHc & IHo).
      rewrite memcpys_app, wait_outcomes_app, Ec, Eo, IHc, IHo, imap_app.
      split; [|reflexivity]. f_equal.
      apply imap_ext. intros n x _. cbn beta. f_equal. f_equal.
      rewrite Ev, page_shift. f_equal. lia.
    + rewrite Ec, Eo, app_nil_r. split; reflexivity.
Qed.

(** C10. Counting every frame the thread displays since it started, across
    batches, the n-th one (from 0) is copied to page [(n + 1) mod 2], at byte
    offset [((n + 1) mod 2) * buf_frame]: the copies of the run are exactly
    the frames shown, in order, each at that offset. In particular the first
    frame shown is written to page 1, at byte offset [buf_frame]. *)
Theorem vsync_pages_alternate (g : Geometry) (power : bool) (rounds : list Round) :
  memcpys (run_vsync_thread g power rounds)
  = imap (fun n frame => ((Z.of_nat n + 1) mod 2 * buf_frame g, frame))
         (frames_shown rounds) /\
  (forall frame rest,
     frames_shown rounds = frame :: rest ->
     head (memcpys (run_vsync_thread g power rounds)) = Some (buf_frame g, frame)).
Proof.
  unfold run_vsync_thread.
  set (v0 := {| next_frame := 0; first_frame := true; power_state := power |}).
  destruct (vsync_loop_memcpys g rounds v0 ltac:(cbn; lia)) as (H & _).
  cbn [next_frame v0] in H.
  split; [exact H|].
  intros frame rest Hshown. rewrite H, Hshown, imap_cons. cbn [head].
  change ((0 + 1) mod 2) with 1. rewrite Z.mul_1_l. reflexivity.
Qed.

Lemma vsync_pages_alternate_witness :
  frames_shown [idle_then_batch; busy_round] = [null_16x2; patch_frame; null_16x2] /\
  memcpys (run_vsync_thread panel_16x2 true [idle_then_batch; busy_round])
  = [(buf_frame panel_16x2, null_16x2); (0, patch_frame);
     (buf_frame panel_16x2, null_16x2)] /\
  head (memcpys (run_vsync_thread panel_16x2 true [idle_then_batch; busy_round]))
  = Some (buf_frame panel_16x2, null_16x2).
Proof.
  assert (Hshown : frames_shown [idle_then_batch; busy_round]
                   = [null_16x2; patch_frame; null_16x2]) by reflexivity.
  destruct (vsync_pages_alternate panel_16x2 true [idle_then_batch; busy_round])
    as (Hall & Hfirst).
  split; [exact Hshown|]. split.
  - rewrite Hall, Hshown. reflexivity.
  - exact (Hfirst null_16x2 [patch_frame; null_16x2] Hshown).
Defined.

(** ** [run_vsync_thread]: power discipline *)

Lemma copy_frames_monitor (g : Geometry) (frames : list Frame) :
  forall (rets : list Z) (v : Vsync) events v' ok (m : Monitor),
    copy_frames g frames rets v = (events, v', ok) ->
    settled v m -> believed_on m || unblank_asked m = true ->
    fold_left monitor_step events m = m /\ power_state v' = power_state v.
Proof.
  induction frames as [|frame frames IH]; intros rets v events v' ok m.
  - cbn. intros [= <- <- <-] _ _. split; reflexivity.
  - cbn [copy_frames]. intros E (Hon & Hdue & Hv) Hc.
    assert (Hm : monitor_step
                   (monitor_step m (Memcpy ((next_frame v + 1) mod 2 * buf_frame g) frame))
                   (Flip (if first_frame v then FBIOPUT_VSCREENINFO else FBIOPAN_DISPLAY)
                         ((next_frame v + 1) mod 2 * buf_height g) (hd 0 rets)) = m).
    { destruct m as [on asked d vi]. cbn in *. subst d vi.
      unfold monitor_step. cbn. rewrite Hc. reflexivity. }
    destruct (hd 0 rets =? -1).
    + injection E as <- <- <-. cbn [fold_left]. split; [exact Hm|reflexivity].
    + destruct (copy_frames g frames (tl rets) _) as [[events' v''] ok'] eqn:E'.
      injection E as <- <- <-.
      cbn [app fold_left]. rewrite Hm.
      eapply IH in E'; [exact E'| |exact Hc].
      repeat split; assumption.
Qed.

Lemma set_power_monitor (want : bool) (ret : Z) (v : Vsync) (m : Monitor) :
  settled v m ->
  let '(events, v') := set_power want ret v in
  let m' := fold_left monitor_step events m in
  settled v' m' /\
  (want = true -> believed_on m' || unblank_asked m' = true) /\
  (want = false ->
   events = if power_state v then [Blank FB_BLANK_POWERDOWN ret] else []).
Proof.
  intros (Hon & Hdue & Hv). unfold set_power.
  destruct m as [on asked d vi]. cbn in *. subst on d vi.
  destruct want, (power_state v) eqn:Ep; cbn; unfold settled, monitor_step; cbn;
    try rewrite Ep; try destruct (ret =? 0); cbn;
    repeat split; try reflexivity; try congruence.
  all: try (intros _; apply orb_true_r).
Qed.

Lemma monitor_step_quiet (m : Monitor) (e : Event) :
  due m = NothingDue ->
  (exists ok, e = ReadTemperature ok) \/ e = Release ->
  monitor_step m e = m.
Proof.
  intros Hdue [[ok ->]| ->]; destruct m as [on asked d vi]; cbn in *; subst d;
    reflexivity.
Qed.

(** The wait at the head of a round (lines 820-832). *)
Lemma wait_phase_monitor (r : Round) (v : Vsync) (m : Monitor) :
  settled v m ->
  let '(waited, v0) :=
    if timed_out r
    then let '(off, v0) := set_power false (blank_off_ret r) v in
         ([WaitFor false] ++ off ++ [Wait], v0)
    else ([WaitFor true], v) in
  settled v0 (fold_left monitor_step waited m).
Proof.
  intros (Hon & Hdue & Hv).
  destruct m as [on asked d vi]. cbn in *. subst on d vi.
  destruct (timed_out r); [|repeat split; reflexivity].
  unfold set_power.
  destruct (power_state v) eqn:Ep; cbn; unfold settled, monitor_step; cbn;
    rewrite ?Ep; cbn.
  - destruct (blank_off_ret r =? 0); cbn; repeat split; congruence.
  - repeat split; congruence.
Qed.

Lemma vsync_round_monitor (g : Geometry) (r : Round) (v : Vsync) (m : Monitor)
    events v' ok :
  vsync_round g r v = (events, v', ok) ->
  settled v m -> settled v' (fold_left monitor_step events m).
Proof.
  unfold vsync_round. intros E Hs.
  pose proof (wait_phase_monitor r v m Hs) as Hw.
  destruct (if timed_out r then _ else _) as [waited v0].
  destruct (stop_after_wait r).
  { injection E as <- <- <-. exact Hw. }
  pose proof (set_power_monitor true (blank_on_ret r) v0 _ Hw) as Hp.
  destruct (set_power true (blank_on_ret r) v0) as [on v1].
  cbn zeta in Hp. destruct Hp as (Hs1 & Hc1 & _). specialize (Hc1 eq_refl).
  set (m1 := fold_left monitor_step on (fold_left monitor_step waited m)) in *.
  assert (Hdue1 : due m1 = NothingDue) by apply Hs1.
  destruct (temperature_ok r); cbn [negb] in E.
  2:{ injection E as <- <- <-. rewrite !fold_left_app. cbn [fold_left].
      fold m1. rewrite monitor_step_quiet; eauto. }
  destruct (copy_frames g (batch r) (flip_rets r) v1) as [[copied v2] ok2] eqn:Ec.
  destruct (copy_frames_monitor g _ _ _ _ _ _ m1 Ec Hs1 Hc1) as (Hm2 & Hp2).
  assert (Hs2 : settled v2 m1).
  { destruct Hs1 as (? & ? & ?). repeat split; congruence. }
  destruct ok2; injection E as <- <- <-; rewrite !fold_left_app; fold m1;
    cbn [fold_left]; rewrite (monitor_step_quiet m1 (ReadTemperature true)) by eauto;
    rewrite ?fold_left_app, Hm2; cbn [fold_left];
    rewrite ?monitor_step_quiet by eauto; exact Hs2.
Qed.

Lemma vsync_loop_monitor (g : Geometry) (rounds : list Round) :
  forall (v : Vsync) (m : Monitor),
    settled v m ->
    accepted (fold_left monitor_step (vsync_loop g rounds v) m) = true.
Proof.
  assert (Hacc : forall v m, settled v m -> accepted m = true).
  { intros v m (_ & Hd & Hv). unfold accepted. rewrite Hd, Hv. reflexivity. }
  induction rounds as [|r rounds IH]; intros v m Hs; cbn [vsync_loop].
  - cbn. eapply Hacc, Hs.
  - destruct (stop_at_entry r); [cbn; eapply Hacc, Hs|].
    destruct (vsync_round g r v) as [[events v'] ok] eqn:E.
    pose proof (vsync_round_monitor g r v m _ _ _ E Hs) as Hs'.
    destruct ok.
    + rewrite fold_left_app. apply (IH v'), Hs'.
    + eapply Hacc, Hs'.
Qed.

(** The head of a round, read off the code: after a timed-out wait comes the
    power-down ioctl when the panel is on, and then the wait without
    timeout. *)
Lemma vsync_round_timeout (g : Geometry) (r : Round) (v : Vsync) :
  timed_out r = true ->
  exists rest,
    fst (fst (vsync_round g r v)) =
    WaitFor false ::
    (if power_state v then [Blank FB_BLANK_POWERDOWN (blank_off_ret r)] else [])
    ++ Wait :: rest.
Proof.
  intros Ht. unfold vsync_round. rewrite Ht.
  destruct (set_power false (blank_off_ret r) v) as [off v0] eqn:Eoff.
  assert (Hoff : off = if power_state v
                       then [Blank FB_BLANK_POWERDOWN (blank_off_ret r)] else []).
  { unfold set_power in Eoff. destruct (power_state v); cbn in Eoff;
      injection Eoff as <- _; reflexivity. }
  rewrite <- Hoff. clear Hoff Eoff.
  destruct (stop_after_wait r).
  { exists []. reflexivity. }
  destruct (set_power true (blank_on_ret r) v0) as [on v1].
  destruct (temperature_ok r); cbn [negb].
  - destruct (copy_frames g (batch r) (flip_rets r) v1) as [[copied v2] ok2].
    destruct ok2; cbn [fst app]; rewrite <- app_assoc; eexists; reflexivity.
  - cbn [fst app]. rewrite <- app_assoc. eexists. reflexivity.
Qed.

(** What follows the waits, read off the code: [set_power(true)] issues the
    unblank ioctl when the recorded state is off, before the temperature is
    read and before any frame is copied. *)
Lemma vsync_round_resume (g : Geometry) (r : Round) (v : Vsync) :
  stop_after_wait r = false ->
  exists waited rest,
    fst (fst (vsync_round g r v))
    = waited
      ++ (if power_after_wait r v then []
          else [Blank FB_BLANK_UNBLANK (blank_on_ret r)])
      ++ ReadTemperature (temperature_ok r) :: rest /\
    memcpys waited = [].
Proof.
  intros Hs. unfold vsync_round, power_after_wait. rewrite Hs.
  set (waited :=
         if timed_out r
         then let '(off, v0) := set_power false (blank_off_ret r) v in
              ([WaitFor false] ++ off ++ [Wait], v0)
         else ([WaitFor true], v)).
  assert (Hw : memcpys (fst waited) = [] /\
               snd waited = if timed_out r
                            then snd (set_power false (blank_off_ret r) v) else v).
  { subst waited. destruct (timed_out r); [|split; reflexivity].
    pose proof (set_power_next_frame false (blank_off_ret r) v) as (_ & Hc & _).
    destruct (set_power false (blank_off_ret r) v) as [off v0].
    cbn [fst snd] in *. rewrite !memcpys_app, Hc. split; reflexivity. }
  destruct waited as [w v0]. cbn [fst snd] in Hw. destruct Hw as (Hcw & <-).
  exists w.
  assert (Hon : fst (set_power true (blank_on_ret r) v0)
                = if power_state v0 then []
                  else [Blank FB_BLANK_UNBLANK (blank_on_ret r)]).
  { unfold set_power. destruct (power_state v0); reflexivity. }
  destruct (set_power true (blank_on_ret r) v0) as [on v1].
  cbn [fst] in Hon. subst on.
  destruct (temperature_ok r); cbn [negb].
  - destruct (copy_frames g (batch r) (flip_rets r) v1) as [[copied v2] ok2].
    destruct ok2; cbn [fst]; eexists; (split; [reflexivity|exact Hcw]).
  - cbn [fst]. exists []. split; [reflexivity|exact Hcw].
Qed.




(** The claim's discipline is met by the run in which both ioctls succeed. *)
Example claimed_discipline_accepts_idle_then_batch :
  claimed_discipline (run_vsync_thread panel_16x2 true [idle_then_batch]) = true.
Proof. reflexivity. Qed.

Example vsync_idle_then_batch :
  run_vsync_thread panel_16x2 true [idle_then_batch] =
  [WaitFor false; Blank FB_BLANK_POWERDOWN 0; Wait;
   Blank FB_BLANK_UNBLANK 0; ReadTemperature true;
   Memcpy (buf_frame panel_16x2) null_16x2;
   Flip FBIOPUT_VSCREENINFO (buf_height panel_16x2) 0; Release].
Proof. reflexivity. Qed.

Example monitor_rejects_copy_while_off :
  power_discipline true
    [WaitFor false; Blank FB_BLANK_POWERDOWN 0; Wait; Memcpy 0 []] = false.
Proof. reflexivity. Qed.

Example monitor_rejects_timeout_without_power_down :
  power_discipline true [WaitFor false; Wait] = false.
Proof. reflexivity. Qed.

(** ** [merge_updates] in immediate mode *)

(** C1 fails on the code. After the first pass of [stroke] both pixels are in
    transition towards 5. The scan of [merge_updates] never moves its
    pointers inside a row, so it compares only the first pixel of [retouch]
    (target 5, unchanged), does not reject, and the merge rewrites the target
    of the second pixel, still in transition, from 5 to 9. *)
Lemma merge_updates_retargets_pixel_in_transition :
  0 < load (waveform_steps stroke_in_flight) 1 /\
  load (next_intensity stroke_in_flight) 1 = 5 /\
  contains (region retouch) 1 0 = true /\
  load (buffer retouch) 1 = 9 /\
  merge_rejected panel_16x2 stroke_in_flight retouch = false /\
  load (next_intensity (snd (merge_updates panel_16x2 stroke stroke_in_flight))) 1
  = 9 /\
  pending_updates (snd (merge_updates panel_16x2 stroke stroke_in_flight)) = [].
Proof. vm_compute. repeat split; reflexivity. Qed.

(** A loop whose body does not depend on the counter and changes nothing when
    repeated is one application of the body. *)
Lemma for_range_repeated {S : Type} (h : S -> S) (body : Z -> S -> S)
    (bound step : Z) :
  (forall v s, body v s = h s) -> (forall s, h (h s) = h s) ->
  forall (fuel : nat) (v : Z) (s : S),
    v < bound -> (0 < fuel)%nat -> for_range fuel v bound step body s = h s.
Proof.
  intros Hbody Hidem.
  assert (Hstay : forall fuel v s, for_range fuel v bound step body (h s) = h s).
  { induction fuel as [|fuel IH]; intros v s; cbn [for_range]; [reflexivity|].
    destruct (v <? bound); [|reflexivity].
    rewrite Hbody, Hidem. apply IH. }
  intros [|fuel] v s Hv Hfuel; [lia|]. cbn [for_range].
  destruct (Z.ltb_spec v bound); [|lia].
  rewrite Hbody. apply Hstay.
Qed.

(** What the scan of [merge_updates] tests for a peer of one row: the pixel
    at the region's top-left corner against the first value of the peer's
    buffer, and nothing else. *)
Lemma merge_rejected_one_row (g : Geometry) (d : Display) (p : Update) :
  height (region p) = 1 -> 0 < width (region p) ->
  0 <= top (region p) -> 0 <= left (region p) ->
  left (region p) + width (region p) < 2 ^ 32 -> top (region p) + 1 < 2 ^ 32 ->
  merge_rejected g d p =
  negb (load (next_intensity d)
             (wrap32 (top (region p) * epd_width g + left (region p)))
        =? load (buffer p) 0)
  && (0 <? load (waveform_steps d)
                (wrap32 (top (region p) * epd_width g + left (region p)))).
Proof.
  intros Hh Hw Ht Hl Hright Hbottom. unfold merge_rejected.
  set (start := wrap32 (top (region p) * epd_width g + left (region p))).
  rewrite Hh, (wrap32_small (top (region p) + 1)) by lia.
  unfold for_loop at 1.
  replace (Z.to_nat (top (region p) + 1 - top (region p))) with 1%nat by lia.
  cbn [for_range].
  destruct (Z.ltb_spec (top (region p)) (top (region p) + 1)); [|lia].
  unfold merge_check_row.
  rewrite (wrap32_small (left (region p) + width (region p))) by lia.
  unfold for_loop.
  rewrite (for_range_repeated
             (merge_check_pixel (waveform_steps d) (next_intensity d) (buffer p) 0 0)).
  - unfold merge_check_pixel.
    destruct (negb (load (next_intensity d) start =? load (buffer p) 0)
              && (0 <? load (waveform_steps d) start)); reflexivity.
  - intros v s. reflexivity.
  - intros [[step cand] stop]. unfold merge_check_pixel.
    destruct stop; [reflexivity|].
    destruct (negb (load (next_intensity d) cand =? load (buffer p) 0)
              && (0 <? load (waveform_steps d) step)) eqn:E; [reflexivity|].
    rewrite E. reflexivity.
  - lia.
  - lia.
Qed.

(** The scan does reject a peer that changes the target of the pixel it
    looks at, the first one of the region. *)
Example merge_rejects_on_first_pixel :
  merge_rejected panel_16x2 stroke_in_flight retouch_first = true.
Proof. reflexivity. Qed.

(** The same run seen from [generate_immediate]: [retouch] arrives before the
    second pass, is merged, and the second pixel ends at 9 after one step of
    the waveform towards 5 and one towards 9. *)
Example generate_immediate_with_retouch :
  exists run,
    generate_immediate panel_16x2 (fun _ _ => two_steps) null_16x2 4
                       [[]; [retouch]] stroke idle_16x2 = Some run /\
    ids (final_update run) = [0; 1] /\
    load (current_intensity (final_display run)) 1 = 9 /\
    length (sent_frames run) = 2%nat.
Proof. eexists. split; [vm_compute; reflexivity|]. repeat split. Qed.

(** ** Loops, vectors and pixel indices *)

Lemma for_range_invariant {S : Type} (I : Z -> S -> Prop)
    (a b step : Z) (body : Z -> S -> S) :
  0 < step ->
  (forall v s, a <= v < b -> (v - a) mod step = 0 -> I v s ->
               I (v + step) (body v s)) ->
  forall (fuel : nat) (v : Z) (s : S),
    a <= v <= b -> (v - a) mod step = 0 -> (b - v) mod step = 0 ->
    b - v <= Z.of_nat fuel ->
    I v s -> I b (for_range fuel v b step body s).
Proof.
  intros Hstep Hbody. induction fuel as [|fuel IH]; intros v s Hv Hva Hbv Hfuel Hs.
  - cbn. assert (v = b) by lia. subst v. exact Hs.
  - cbn [for_range]. destruct (Z.ltb_spec v b) as [Hlt|Hge].
    + assert (Hle : v + step <= b).
      { destruct (Z_lt_le_dec b (v + step)) as [Hgt|]; [|assumption].
        exfalso. rewrite Z.mod_small in Hbv by lia. lia. }
      apply IH.
      * lia.
      * replace (v + step - a) with (v - a + 1 * step) by lia.
        rewrite Z.mod_add by lia. exact Hva.
      * replace (b - (v + step)) with (b - v + (-1) * step) by lia.
        rewrite Z.mod_add by lia. exact Hbv.
      * lia.
      * apply Hbody; [lia|exact Hva|exact Hs].
    + assert (v = b) by lia. subst v. exact Hs.
Qed.

(** The invariant rule for [for (v = a; v < b; v += step)] when [step]
    divides [b - a]. *)
Lemma for_loop_invariant {S : Type} (I : Z -> S -> Prop)
    (a b step : Z) (body : Z -> S -> S) (s : S) :
  0 < step -> a <= b -> (b - a) mod step = 0 ->
  I a s ->
  (forall v s', a <= v < b -> (v - a) mod step = 0 -> I v s' ->
                I (v + step) (body v s')) ->
  I b (for_loop a b step body s).
Proof.
  intros Hstep Hab Hdiv Hs Hbody. unfold for_loop.
  apply (for_range_invariant I a b step body Hstep Hbody);
    [lia| |exact Hdiv|lia|exact Hs].
  rewrite Z.sub_diag. reflexivity.
Qed.

Lemma for_loop_invariant1 {S : Type} (I : Z -> S -> Prop)
    (a b : Z) (body : Z -> S -> S) (s : S) :
  a <= b -> I a s ->
  (forall v s', a <= v < b -> I v s' -> I (v + 1) (body v s')) ->
  I b (for_loop a b 1 body s).
Proof.
  intros Hab Hs Hbody. apply for_loop_invariant; try lia; try assumption.
  - apply Z.mod_1_r.
  - intros v s' Hv _. apply Hbody. exact Hv.
Qed.

Lemma load_store_eq (a : list Z) (i v : Z) :
  0 <= i < Z.of_nat (length a) -> load (store a i v) i = v.
Proof.
  intros Hi. unfold load, store.
  apply list_lookup_total_insert_eq. lia.
Qed.

Lemma load_store_ne (a : list Z) (i j v : Z) :
  0 <= i -> 0 <= j -> i <> j -> load (store a i v) j = load a j.
Proof.
  intros Hi Hj Hne. unfold load, store.
  apply list_lookup_total_insert_ne. lia.
Qed.

Lemma length_store (a : list Z) (i v : Z) : length (store a i v) = length a.
Proof. unfold store. apply length_insert. Qed.

(** Two vectors of the same length with the same cells are equal. *)
Lemma load_ext (a b : list Z) :
  length a = length b ->
  (forall i, 0 <= i < Z.of_nat (length a) -> load a i = load b i) ->
  a = b.
Proof.
  intros Hlen H. apply list_eq_same_length with (n := length a);
    [symmetry; exact Hlen|reflexivity|].
  intros i x y Hi Hx Hy.
  specialize (H (Z.of_nat i) ltac:(lia)). unfold load in H.
  rewrite Nat2Z.id in H.
  rewrite (list_lookup_total_correct a i x Hx) in H.
  rewrite (list_lookup_total_correct b i y Hy) in H. exact H.
Qed.

(** A pixel index determines its row and column. *)
Lemma pixel_index_inj (w x y x' y' : Z) :
  0 <= x < w -> 0 <= x' < w -> y * w + x = y' * w + x' -> x = x' /\ y = y'.
Proof.
  intros Hx Hx' E. assert (y = y') by nia. subst y'. lia.
Qed.

(** ** [Update::apply] *)

Lemma for_range_preserves {S : Type} (P : S -> Prop) (body : Z -> S -> S)
    (bound step : Z) :
  (forall v s, P s -> P (body v s)) ->
  forall (fuel : nat) (v : Z) (s : S), P s -> P (for_range fuel v bound step body s).
Proof.
  intros Hbody. induction fuel as [|fuel IH]; intros v s Hs; cbn [for_range].
  - exact Hs.
  - destruct (v <? bound); [apply IH, Hbody, Hs|exact Hs].
Qed.

Lemma length_apply_update (u : Update) (t : list Z) (w : Z) :
  length (apply_update u t w) = length t.
Proof.
  unfold apply_update, for_loop.
  apply (for_range_preserves (fun t' => length t' = length t)); [|reflexivity].
  intros r t1 H1.
  apply (for_range_preserves (fun t' => length t' = length t)); [|exact H1].
  intros c t2 H2. rewrite length_store. exact H2.
Qed.

(** What [apply] leaves in the target: the buffer over the update's region,
    row-major, and the former content elsewhere. *)
Lemma apply_update_load (g : Geometry) (u : Update) (t : list Z) (x y : Z) :
  region_within g (region u) ->
  Z.of_nat (length t) = epd_size g ->
  0 <= x < epd_width g -> 0 <= y ->
  load (apply_update u t (epd_width g)) (y * epd_width g + x) =
  if contains (region u) x y
  then load (buffer u)
            ((y - top (region u)) * width (region u) + (x - left (region u)))
  else load t (y * epd_width g + x).
Proof.
  intros (Ht & Hl & Hw & Hh & Hr & Hb) Hlen Hx Hy.
  set (r0 := region u) in *. set (W := epd_width g) in *.
  pose (P := fun (r c : Z) =>
               left r0 <= x < left r0 + width r0 /\
               (top r0 <= y < top r0 + r \/ (y = top r0 + r /\ x < left r0 + c))).
  pose (I := fun (r c : Z) (t' : list Z) =>
               length t' = length t /\
               (P r c -> load t' (y * W + x) =
                         load (buffer u) ((y - top r0) * width r0 + (x - left r0))) /\
               (~ P r c -> load t' (y * W + x) = load t (y * W + x))).
  assert (Hfinal : I (height r0) 0 (apply_update u t W)).
  { unfold apply_update. fold r0.
    apply (for_loop_invariant1 (fun r t' => I r 0 t')); [lia| |].
    - unfold I, P. split; [reflexivity|].
      split; [intros Hp; exfalso; lia|intros _; reflexivity].
    - intros r t1 Hr1 H1.
      assert (Hrow : I r (width r0)
                (for_loop 0 (width r0) 1
                   (fun c t' => store t' ((top r0 + r) * W + left r0 + c)
                                      (load (buffer u) (r * width r0 + c))) t1)).
      { apply (for_loop_invariant1 (fun c t' => I r c t')); [lia|exact H1|].
        intros c t2 Hc (Hlen2 & Hin & Hout).
        assert (Hidx : 0 <= (top r0 + r) * W + left r0 + c < Z.of_nat (length t2)).
        { rewrite Hlen2, Hlen. unfold epd_size. fold W. nia. }
        unfold I. split; [rewrite length_store; exact Hlen2|].
        destruct (Z.eq_dec (y * W + x) ((top r0 + r) * W + left r0 + c)) as [E|E].
        - replace ((top r0 + r) * W + left r0 + c)
            with ((top r0 + r) * W + (left r0 + c)) in E by lia.
          apply pixel_index_inj in E; [|lia|lia]. destruct E as (-> & ->).
          replace ((top r0 + r) * W + (left r0 + c))
            with ((top r0 + r) * W + left r0 + c) by lia.
          rewrite load_store_eq by exact Hidx. split.
          + intros _. f_equal. lia.
          + intros Hn. exfalso. apply Hn. unfold P. lia.
        - rewrite load_store_ne by (try lia; nia). split.
          + intros Hp. apply Hin. unfold P in *.
            destruct Hp as (Hpx & [Hpy|(Hpy & Hpc)]); [lia|].
            split; [exact Hpx|right; split; [exact Hpy|]].
            destruct (Z.eq_dec x (left r0 + c)); [|lia].
            exfalso. apply E. subst. lia.
          + intros Hn. apply Hout. intros Hp. apply Hn. unfold P in *. lia. }
      destruct Hrow as (Hlen1 & Hin & Hout). unfold I. split; [exact Hlen1|]. split.
      + intros Hp. apply Hin. unfold P in *. lia.
      + intros Hn. apply Hout. intros Hp. apply Hn. unfold P in *. lia. }
  destruct Hfinal as (_ & Hin & Hout).
  unfold contains. fold r0.
  destruct (Z.leb_spec (left r0) x); destruct (Z.ltb_spec x (left r0 + width r0));
    destruct (Z.leb_spec (top r0) y); destruct (Z.ltb_spec y (top r0 + height r0));
    cbn [andb];
    try (apply Hin; unfold P; lia);
    apply Hout; unfold P; lia.
Qed.

(** ** [generate_batch]: effect on the intensity vectors *)

Lemma contains_inv (r : UpdateRegion) (x y : Z) :
  contains r x y = true ->
  left r <= x < left r + width r /\ top r <= y < top r + height r.
Proof.
  unfold contains. rewrite !andb_true_iff, !Z.leb_le, !Z.ltb_lt. lia.
Qed.

Lemma merge_updates_idle (g : Geometry) (u : Update) (d : Display) :
  pending_updates d = [] -> merge_updates g u d = (u, d).
Proof.
  intros Hq. unfold merge_updates. rewrite Hq. cbn. f_equal.
  destruct d; cbn in *. subst. reflexivity.
Qed.

(** C2. When the pending queue is empty, [generate_batch] leaves
    [current_intensity] equal to [next_intensity]; over the update's region
    it holds the update's buffer (row-major), and every pixel of the panel
    outside the region keeps the value it had before the call. *)
Theorem generate_batch_postcondition (g : Geometry) (table : WaveformTable)
    (null_frame : Frame) (u : Update) (d : Display) :
  geometry_ok g -> region_within g (region u) ->
  Z.of_nat (length (buffer u)) = width (region u) * height (region u) ->
  Z.of_nat (length (current_intensity d)) = epd_size g ->
  pending_updates d = [] ->
  current_intensity (snd (generate_batch g table null_frame u d))
  = next_intensity (snd (generate_batch g table null_frame u d)) /\
  (forall x y, contains (region u) x y = true ->
     load (current_intensity (snd (generate_batch g table null_frame u d)))
          (y * epd_width g + x)
     = load (buffer u)
            ((y - top (region u)) * width (region u) + (x - left (region u)))) /\
  (forall x y, 0 <= x < epd_width g -> 0 <= y < epd_height g ->
     contains (region u) x y = false ->
     load (current_intensity (snd (generate_batch g table null_frame u d)))
          (y * epd_width g + x)
     = load (current_intensity d) (y * epd_width g + x)).
Proof.
  intros Hg Hr Hbuf Hlen Hq. unfold generate_batch.
  rewrite merge_updates_idle by exact Hq. cbn.
  split; [reflexivity|]. split.
  - intros x y Hc. pose proof (contains_inv _ _ _ Hc) as (Hx & Hy).
    pose proof Hr as (Ht & Hl & Hw & Hh & Hright & Hbottom).
    rewrite (apply_update_load g u _ x y Hr Hlen) by lia.
    rewrite Hc. reflexivity.
  - intros x y Hx Hy Hc.
    rewrite (apply_update_load g u _ x y Hr Hlen) by lia.
    rewrite Hc. reflexivity.
Qed.

Lemma generate_batch_postcondition_witness :
  (geometry_ok panel_16x2 /\ region_within panel_16x2 (region patch) /\
   Z.of_nat (length (buffer patch)) = width (region patch) * height (region patch) /\
   Z.of_nat (length (current_intensity idle_16x2)) = epd_size panel_16x2 /\
   pending_updates idle_16x2 = []) /\
  current_intensity
    (snd (generate_batch panel_16x2 (fun _ _ => two_steps) null_16x2 patch idle_16x2))
  = next_intensity
    (snd (generate_batch panel_16x2 (fun _ _ => two_steps) null_16x2 patch idle_16x2)) /\
  load (current_intensity
          (snd (generate_batch panel_16x2 (fun _ _ => two_steps) null_16x2 patch
                               idle_16x2)))
       (1 * epd_width panel_16x2 + 4) = 9.
Proof.
  assert (Hr : region_within panel_16x2 (region patch))
    by (unfold region_within; cbn; lia).
  assert (Hb : Z.of_nat (length (buffer patch))
               = width (region patch) * height (region patch)) by reflexivity.
  assert (Hl : Z.of_nat (length (current_intensity idle_16x2)) = epd_size panel_16x2)
    by reflexivity.
  assert (Hq : pending_updates idle_16x2 = []) by reflexivity.
  split; [auto using panel_16x2_ok|].
  destruct (generate_batch_postcondition panel_16x2 (fun _ _ => two_steps) null_16x2
              patch idle_16x2 panel_16x2_ok Hr Hb Hl Hq) as (Heq & Hin & _).
  split; [exact Heq|].
  rewrite (Hin 4 1) by reflexivity. reflexivity.
Defined.

(** ** Aligned regions and frame cells *)

Lemma group_cell_eq (g : Geometry) (y sx : Z) :
  group_cell g y sx = 2 * ((margin_top g + y) * buf_width g + margin_left g + sx / 8).
Proof.
  unfold group_cell, buf_stride, buf_depth, buf_actual_depth.
  replace ((margin_top g + y) * (buf_width g * 4) + (margin_left g + sx / 8) * 4)
    with ((2 * ((margin_top g + y) * buf_width g + margin_left g + sx / 8)) * 2)
    by lia.
  apply Z.div_mul. lia.
Qed.

Lemma group_cell_next (g : Geometry) (y sx : Z) :
  group_cell g y sx + 2 = group_cell g y (sx + 8).
Proof.
  rewrite !group_cell_eq.
  replace (sx + 8) with (sx + 1 * 8) by lia. rewrite Z.div_add by lia. lia.
Qed.

(** ** The phase accumulator *)

Lemma lor_lane (a c : Z) : 0 <= c < 4 -> Z.lor (a * 4) c = a * 4 + c.
Proof.
  intros Hc.
  assert (Hland : Z.land (a * 4) c = 0).
  { replace c with (Z.land c 3).
    2:{ change 3 with (Z.ones 2). rewrite Z.land_ones by lia.
        apply Z.mod_small. lia. }
    rewrite (Z.land_comm c 3), Z.land_assoc.
    change 3 with (Z.ones 2). rewrite (Z.land_ones (a * 4)) by lia.
    change (2 ^ 2) with 4. rewrite Z.mod_mul by lia. reflexivity. }
  rewrite <- Z.lxor_lor by exact Hland.
  symmetry. apply Z.add_nocarry_lxor. exact Hland.
Qed.

Lemma phase_code_range (p : Phase) : 0 <= phase_code p < 4.
Proof. destruct p; cbn; lia. Qed.

Lemma lane_code_range (matrix : PhaseMatrix) (cur nxt : list Z)
    (region : UpdateRegion) (w x y : Z) :
  0 <= lane_code matrix cur nxt region w x y < 4.
Proof.
  unfold lane_code. destruct (contains region x y); [apply phase_code_range|lia].
Qed.

Lemma pack_range (f : Z -> Z) (sx : Z) (n : nat) :
  (forall x, 0 <= f x < 4) -> 0 <= pack f sx n < 4 ^ Z.of_nat n.
Proof.
  intros Hf. induction n as [|n IH].
  - cbn. lia.
  - cbn [pack]. rewrite Nat2Z.inj_succ, Z.pow_succ_r by lia.
    specialize (Hf (sx + Z.of_nat n)). lia.
Qed.

(** The accumulator is packed most significant pair first: the pair [i]
    pairs below the top of the 16-bit word is the lane of pixel [sx + i]. *)
Lemma lane_of_word_pack (f : Z -> Z) (sx i : Z) :
  (forall x, 0 <= f x < 4) -> 0 <= i < 8 ->
  lane_of_word (pack f sx 8) i = f (sx + i).
Proof.
  intros Hf Hi. unfold lane_of_word.
  change 3 with (Z.ones 2). rewrite Z.land_ones, Z.shiftr_div_pow2 by lia.
  change (2 ^ 2) with 4.
  cbn [pack].
  repeat match goal with
         | |- context [Z.of_nat ?n] =>
             let z := eval compute in (Z.of_nat n) in change (Z.of_nat n) with z
         end.
  pose proof (Hf (sx + 0)). pose proof (Hf (sx + 1)). pose proof (Hf (sx + 2)).
  pose proof (Hf (sx + 3)). pose proof (Hf (sx + 4)). pose proof (Hf (sx + 5)).
  pose proof (Hf (sx + 6)). pose proof (Hf (sx + 7)).
  assert (Ei : i = 0 \/ i = 1 \/ i = 2 \/ i = 3 \/ i = 4 \/ i = 5 \/ i = 6 \/ i = 7)
    by lia.
  destruct Ei as [->|[->|[->|[->|[->|[->|[->| ->]]]]]]];
    match goal with
    | |- (?w / 2 ^ ?k) mod 4 = _ =>
        let p := eval compute in (2 ^ k) in change (2 ^ k) with p
    end;
    Z.div_mod_to_equations; lia.
Qed.

(** ** The walk of the generators over an aligned region *)

Lemma clamp_inside (r : UpdateRegion) (x y : Z) :
  contains r x y = true -> clamp r x = x /\ clamp r (x + 1) = x + 1.
Proof. intros H. apply contains_inv in H. unfold clamp. lia. Qed.

Lemma clamp_outside (r : UpdateRegion) (x y : Z) :
  0 <= width r -> top r <= y < top r + height r ->
  contains r x y = false -> clamp r (x + 1) = clamp r x.
Proof.
  intros Hw Hy. unfold contains, clamp.
  destruct (Z.leb_spec (left r) x); destruct (Z.ltb_spec x (left r + width r));
    destruct (Z.leb_spec (top r) y); destruct (Z.ltb_spec y (top r + height r));
    cbn [andb]; try discriminate; lia.
Qed.

Section BatchFrame.

Variable g : Geometry.
Variable matrix : PhaseMatrix.
Variables cur nxt : list Z.
Variable r : UpdateRegion.
Hypothesis Hg : geometry_ok g.
Hypothesis Hr : region_within g r.

Let W := epd_width g.
Let f (y x : Z) : Z := lane_code matrix cur nxt r W x y.

(** The eight lanes of one group: the accumulator ends as the packed
    lanes, and the pixel pointers have moved over the pixels of the region
    among them. *)
Lemma batch_lanes (y sx : Z) :
  top r <= y < top r + height r ->
  for_loop sx (sx + buf_actual_depth) 1 (batch_lane matrix cur nxt r y)
           (0, y * W + clamp r sx, y * W + clamp r sx)
  = (pack (f y) sx 8, y * W + clamp r (sx + 8), y * W + clamp r (sx + 8)).
Proof.
  intros Hy. unfold buf_actual_depth.
  pose proof Hr as (Ht & Hl & Hw & Hh & Hright & Hbottom).
  pose (I := fun (x : Z) (s : Z * Z * Z) =>
               s = (pack (f y) sx (Z.to_nat (x - sx)),
                    y * W + clamp r x, y * W + clamp r x)).
  assert (H : I (sx + 8)
                (for_loop sx (sx + 8) 1 (batch_lane matrix cur nxt r y)
                          (0, y * W + clamp r sx, y * W + clamp r sx))).
  { apply for_loop_invariant1; [lia| |].
    - unfold I. rewrite Z.sub_diag. reflexivity.
    - intros x s Hx Hs. unfold I in Hs. subst s. unfold I, batch_lane.
      replace (Z.to_nat (x + 1 - sx)) with (Datatypes.S (Z.to_nat (x - sx))) by lia.
      cbn [pack]. rewrite Z2Nat.id by lia.
      replace (sx + (x - sx)) with x by lia.
      set (n := Z.to_nat (x - sx)).
      pose proof (pack_range (f y) sx n
                    (fun x' => lane_code_range matrix cur nxt r W x' y)) as Hp.
      assert (Hn : 4 ^ Z.of_nat n <= 4 ^ 7)
        by (apply Z.pow_le_mono_r; lia).
      rewrite Z.shiftl_mul_pow2 by lia. change (2 ^ 2) with 4.
      change (4 ^ 7) with 16384 in Hn.
      unfold wrap16. change (2 ^ 16) with 65536.
      rewrite Z.mod_small by lia.
      assert (Ef : f y x = lane_code matrix cur nxt r W x y) by reflexivity.
      rewrite Ef. unfold lane_code.
      destruct (contains r x y) eqn:Ec.
      + destruct (clamp_inside r x y Ec) as (E1 & E2). rewrite E1, E2.
        rewrite lor_lane by apply phase_code_range.
        rewrite !Z.add_assoc. reflexivity.
      + rewrite (clamp_outside r x y Hw Hy Ec). rewrite Z.add_0_r. reflexivity. }
  unfold I in H. rewrite H. replace (sx + 8 - sx) with 8 by lia. reflexivity.
Qed.

Variable null_frame : Frame.
Hypothesis Hlayout : frame_layout_ok g null_frame.

Let a := align_region r.

(** The group at [(y, sx)] comes before the position [(y0, sx0)] of the
    walk. *)
Let written (y0 sx0 y sx : Z) : Prop :=
  top r <= y /\ left a <= sx < left a + width a /\ (sx - left a) mod 8 = 0 /\
  (y < y0 \/ (y = y0 /\ sx < sx0)).

(** The frame when the walk stands at [(y0, sx0)]. *)
Let filled (y0 sx0 : Z) (frame : Frame) : Prop :=
  length frame = length null_frame /\
  forall y sx, written y0 sx0 y sx ->
               load frame (group_cell g y sx) = pack (f y) sx 8.

Lemma group_cell_range (y sx : Z) :
  0 <= y < epd_height g -> 0 <= sx < epd_width g ->
  0 <= margin_left g + sx / 8 < buf_width g /\
  0 <= group_cell g y sx < Z.of_nat (length null_frame).
Proof.
  intros Hy Hsx.
  destruct Hlayout as (Hmt & Hml & Hbw & Hbh & _ & Hlen).
  unfold buf_actual_depth in Hbw.
  assert (Hq : 0 <= sx / 8 < epd_width g / 8).
  { assert (epd_width g mod 8 = 0) by apply Hg.
    Z.div_mod_to_equations. lia. }
  split; [lia|].
  rewrite Hlen, group_cell_eq. unfold buf_frame, buf_stride, buf_depth.
  replace (buf_width g * 4 * buf_height g) with (2 * buf_width g * buf_height g * 2)
    by lia.
  rewrite Z.div_mul by lia. nia.
Qed.

Lemma group_cell_inj (y sx y' sx' : Z) :
  0 <= y < epd_height g -> 0 <= sx < epd_width g ->
  0 <= y' < epd_height g -> 0 <= sx' < epd_width g ->
  (sx - sx') mod 8 = 0 ->
  group_cell g y sx = group_cell g y' sx' -> y = y' /\ sx = sx'.
Proof.
  intros Hy Hsx Hy' Hsx' Hmod E.
  destruct (group_cell_range y sx Hy Hsx) as (Hc & _).
  destruct (group_cell_range y' sx' Hy' Hsx') as (Hc' & _).
  rewrite !group_cell_eq in E.
  assert (E' : (margin_top g + y) * buf_width g + (margin_left g + sx / 8)
               = (margin_top g + y') * buf_width g + (margin_left g + sx' / 8))
    by lia.
  apply pixel_index_inj in E'; [|lia|lia].
  split; [lia|]. Z.div_mod_to_equations. lia.
Qed.

(** The groups of one row (lines 639-660). *)
Lemma batch_groups (y : Z) (frame : Frame) :
  top r <= y < top r + height r ->
  filled y (left a) frame ->
  exists frame',
    for_loop (left a) (left a + width a) buf_actual_depth
             (batch_group matrix cur nxt r y)
             (y * W + left r, y * W + left r, group_cell g y (left a), frame)
    = (y * W + (left r + width r), y * W + (left r + width r),
       group_cell g y (left a + width a), frame') /\
    filled y (left a + width a) frame'.
Proof.
  intros Hy Hfill.
  destruct (align_region_within g r Hg Hr)
    as (Ha & Hta & Hha & Hl8 & Hw8 & Hla & Hra). fold a in Ha, Hta, Hha, Hl8, Hw8, Hla, Hra.
  pose proof Hr as (Ht & Hl & Hw & Hh & Hright & Hbottom).
  pose proof Ha as (_ & Hal & Haw & _ & Haright & _).
  assert (Hc0 : clamp r (left a) = left r) by (unfold clamp; lia).
  assert (Hc1 : clamp r (left a + width a) = left r + width r)
    by (unfold clamp; lia).
  pose (I := fun (sx : Z) (s : Z * Z * Z * Frame) =>
               exists frame',
                 s = (y * W + clamp r sx, y * W + clamp r sx,
                      group_cell g y sx, frame') /\
                 filled y sx frame').
  assert (H : I (left a + width a)
                (for_loop (left a) (left a + width a) buf_actual_depth
                   (batch_group matrix cur nxt r y)
                   (y * W + left r, y * W + left r, group_cell g y (left a), frame))).
  { unfold buf_actual_depth.
    apply for_loop_invariant; [lia|lia| | |].
    - replace (left a + width a - left a) with (width a) by lia. exact Hw8.
    - exists frame. rewrite Hc0. split; [reflexivity|exact Hfill].
    - intros sx s Hsx Hmod (frame1 & -> & (Hlen1 & Hw1)).
      unfold I, batch_group.
      rewrite (batch_lanes y sx Hy).
      eexists. split; [rewrite group_cell_next; reflexivity|].
      assert (Hcell : 0 <= group_cell g y sx < Z.of_nat (length frame1)).
      { rewrite Hlen1. apply group_cell_range; lia. }
      split; [rewrite length_store; exact Hlen1|].
      intros y' sx' (Hy' & Hsx' & Hmod' & Hbefore).
      destruct (Z.eq_dec (group_cell g y' sx') (group_cell g y sx)) as [E|E].
      + assert (Hy'' : 0 <= y' < epd_height g) by lia.
        apply group_cell_inj in E; [| lia | lia | lia | lia |].
        * destruct E as (-> & ->). apply load_store_eq. exact Hcell.
        * replace (sx' - sx) with ((sx' - left a) + -1 * (sx - left a)) by lia.
          rewrite Z.add_mod, Hmod' by lia.
          rewrite Z.mul_mod, Hmod by lia. reflexivity.
      + rewrite load_store_ne.
        * apply Hw1. unfold written. repeat split; try lia.
          destruct Hbefore as [Hlt|(-> & Hlt)]; [left; exact Hlt|right].
          split; [reflexivity|].
          destruct (Z_lt_le_dec sx' sx) as [|Hge]; [assumption|].
          exfalso. apply E.
          assert (sx' = sx); [|subst; reflexivity].
          assert (Hd : (sx' - sx) mod 8 = 0).
          { replace (sx' - sx) with ((sx' - left a) + -1 * (sx - left a)) by lia.
            rewrite Z.add_mod, Hmod' by lia.
            rewrite Z.mul_mod, Hmod by lia. reflexivity. }
          Z.div_mod_to_equations. lia.
        * apply group_cell_range; lia.
        * assert (0 <= y' < epd_height g) by lia.
          apply group_cell_range; lia.
        * intros E'. apply E. symmetry. exact E'. }
  destruct H as (frame' & E & Hf). rewrite Hc1 in E.
  exists frame'. split; assumption.
Qed.

Lemma group_cell_row (y : Z) :
  group_cell g y (left a + width a) + data_row_gap g a
  = group_cell g (y + 1) (left a).
Proof.
  destruct (align_region_within g r Hg Hr)
    as (Ha & Hta & Hha & Hl8 & Hw8 & Hla & Hra).
  fold a in Ha, Hta, Hha, Hl8, Hw8, Hla, Hra.
  pose proof Ha as (_ & Hal & Haw & _ & Haright & _).
  destruct Hlayout as (Hmt & Hml & Hbw & Hbh & Hstride & Hlen).
  pose proof (geometry_ok_width g Hg) as HW.
  assert (HW8 : epd_width g mod 8 = 0) by apply Hg.
  unfold buf_actual_depth in Hbw.
  assert (Hq : 0 <= width a / 8 <= epd_width g / 8)
    by (Z.div_mod_to_equations; lia).
  rewrite !group_cell_eq. unfold data_row_gap, buf_actual_depth, buf_depth.
  unfold buf_stride, buf_depth in *.
  rewrite (wrap32_small (width a / 8 * 4)) by lia.
  rewrite wrap32_small by lia.
  replace (buf_width g * 4 - width a / 8 * 4)
    with ((2 * buf_width g - 2 * (width a / 8)) * 2) by lia.
  rewrite Z.div_mul by lia.
  assert (Hsum : (left a + width a) / 8 = left a / 8 + width a / 8)
    by (Z.div_mod_to_equations; lia).
  rewrite Hsum. lia.
Qed.

(** The rows of the aligned region (lines 634-668): every group of every
    row ends up in its cell. *)
Lemma batch_frame_filled :
  0 < height r ->
  filled (top r + height r) (left a)
         (batch_frame g cur nxt r null_frame matrix).
Proof.
  intros Hpos.
  destruct (align_region_within g r Hg Hr)
    as (Ha & Hta & Hha & Hl8 & Hw8 & Hla & Hra).
  fold a in Ha, Hta, Hha, Hl8, Hw8, Hla, Hra.
  pose proof Hr as (Ht & Hl & Hw & Hh & Hright & Hbottom).
  pose proof Ha as (_ & Hal & Haw & _ & Haright & _).
  pose proof (geometry_ok_width g Hg) as HW.
  pose proof (geometry_ok_height g Hg) as HH.
  assert (Hsize : epd_width g * epd_height g < 2 ^ 32) by apply Hg.
  unfold batch_frame. fold a. fold W.
  rewrite Hta, Hha.
  rewrite (wrap32_small (top r + height r)) by lia.
  rewrite (wrap32_small (top r * W + left r)) by (subst W; nia).
  rewrite (wrap32_small (W - width r)) by (subst W; lia).
  pose (I := fun (y : Z) (s : Z * Z * Z * Frame) =>
               exists frame,
                 s = (y * W + left r, y * W + left r,
                      group_cell g y (left a), frame) /\
                 filled y (left a) frame).
  assert (H : I (top r + height r)
                (for_loop (top r) (top r + height r) 1
                   (batch_row g matrix cur nxt r a (W - width r))
                   (top r * W + left r, top r * W + left r,
                    data_start g a, null_frame))).
  { apply for_loop_invariant1; [lia| |].
    - exists null_frame. split.
      + unfold data_start, group_cell. rewrite Hta. reflexivity.
      + split; [reflexivity|].
        intros y sx (Hy & Hsx & _ & Hbefore). exfalso. lia.
    - intros y s Hy (frame & -> & Hfill).
      unfold I, batch_row.
      rewrite (wrap32_small (left a + width a)) by lia.
      destruct (batch_groups y frame Hy Hfill) as (frame' & -> & Hfill').
      exists frame'. split.
      + rewrite group_cell_row.
        replace (y * W + (left r + width r) + (W - width r))
          with ((y + 1) * W + left r) by lia.
        reflexivity.
      + destruct Hfill' as (Hlen' & Hw'). split; [exact Hlen'|].
        intros y' sx' (Hy' & Hsx' & Hmod' & Hbefore).
        apply Hw'. unfold written. repeat split; try lia. }
  destruct H as (frame & E & Hfill). rewrite E. exact Hfill.
Qed.

(** The word of every group of the aligned region. *)
Lemma batch_frame_word (y sx : Z) :
  top a <= y < top a + height a ->
  left a <= sx < left a + width a ->
  (sx - left a) mod 8 = 0 ->
  load (batch_frame g cur nxt r null_frame matrix) (group_cell g y sx)
  = pack (f y) sx 8.
Proof.
  intros Hy Hsx Hmod.
  destruct (align_region_within g r Hg Hr) as (_ & Hta & Hha & _).
  fold a in Hta, Hha. rewrite Hta, Hha in Hy.
  assert (Hpos : 0 < height r) by lia.
  destruct (batch_frame_filled Hpos) as (_ & Hw).
  apply Hw. unfold written. repeat split; try lia.
Qed.

End BatchFrame.

(** ** [generate_batch]: the packed words *)

Lemma extend_within (g : Geometry) (r o : UpdateRegion) :
  region_within g r -> region_within g o -> region_within g (extend r o).
Proof.
  unfold region_within, extend. cbn [top left width height]. lia.
Qed.

Lemma merge_queue_invariants (g : Geometry) (queue : list Update) :
  forall (u : Update) (d : Display),
    region_within g (region u) ->
    Forall (fun p => region_within g (region p)) queue ->
    region_within g (region (fst (merge_queue g u d queue))) /\
    current_intensity (snd (merge_queue g u d queue)) = current_intensity d /\
    mode (fst (merge_queue g u d queue)) = mode u.
Proof.
  induction queue as [|p queue IH]; intros u d Hu Hq; cbn [merge_queue].
  - cbn. auto.
  - inversion Hq as [|? ? Hp Hq']; subst.
    destruct (negb (eqb (immediate u) (immediate p)) || negb (mode u =? mode p));
      [cbn; auto|].
    destruct (immediate u && merge_rejected g d p); [cbn; auto|].
    destruct (IH (merge_metadata u p)
                 (set_next_intensity d
                    (apply_update p (next_intensity d) (epd_width g))))
      as (H1 & H2 & H3).
    + cbn. apply extend_within; assumption.
    + exact Hq'.
    + split; [exact H1|]. split; [exact H2|exact H3].
Qed.

(** C3. In frame [k] of [generate_batch], the 16-bit word of the group of
    eight pixels starting at column [sx] of row [y] of the aligned region
    holds pixel [sx] in its most significant bit pair and pixel [sx + 7] in
    its least significant one; the pair of pixel [p] is the code of
    [waveform[k][current_intensity[p]][next_intensity[p]]] (Noop 0, Black 1,
    White 2, Toggle 3) when the update's region contains [p], and 0 when it
    does not. *)
Theorem generate_batch_packing (g : Geometry) (table : WaveformTable)
    (null_frame : Frame) (u : Update) (d : Display)
    (k : nat) (matrix : PhaseMatrix) (y sx i : Z) :
  geometry_ok g -> frame_layout_ok g null_frame ->
  region_within g (region u) ->
  Forall (fun p => region_within g (region p)) (pending_updates d) ->
  Z.of_nat (length (current_intensity d)) = epd_size g ->
  nth_error (table (mode u) (temperature d)) k = Some matrix ->
  top (align_region (region (batch_update g table null_frame u d))) <= y
    < top (align_region (region (batch_update g table null_frame u d)))
      + height (align_region (region (batch_update g table null_frame u d))) ->
  left (align_region (region (batch_update g table null_frame u d))) <= sx
    < left (align_region (region (batch_update g table null_frame u d)))
      + width (align_region (region (batch_update g table null_frame u d))) ->
  (sx - left (align_region (region (batch_update g table null_frame u d)))) mod 8 = 0 ->
  0 <= i < 8 ->
  exists frame,
    nth_error (batch_frames g table null_frame u d) k = Some frame /\
    lane_of_word (load frame (group_cell g y sx)) i
    = lane_code matrix (current_intensity d)
                (next_intensity (batch_display g table null_frame u d))
                (region (batch_update g table null_frame u d))
                (epd_width g) (sx + i) y.
Proof.
  intros Hg Hlayout Hu Hq _ Hk.
  unfold batch_update, batch_frames, batch_display, generate_batch.
  unfold merge_updates. cbn [pending_updates set_next_intensity].
  set (d1 := set_next_intensity _ _).
  pose proof (merge_queue_invariants g (pending_updates d) u d1 Hu Hq)
    as (Hr & Hcur & Hmode).
  destruct (merge_queue g u d1 (pending_updates d)) as [u' d'] eqn:Em.
  cbn [fst snd] in *. cbn [next_intensity set_current_intensity].
  intros Hy Hsx Hmod Hi.
  exists (batch_frame g (current_intensity d') (next_intensity d') (region u')
                      null_frame matrix).
  split.
  - apply map_nth_error. exact Hk.
  - rewrite (batch_frame_word g matrix _ _ (region u') Hg Hr null_frame Hlayout y sx
               Hy Hsx Hmod).
    rewrite lane_of_word_pack; [|intros x; apply lane_code_range|exact Hi].
    rewrite Hcur. reflexivity.
Qed.

Lemma panel_16x2_layout : frame_layout_ok panel_16x2 null_16x2.
Proof.
  unfold frame_layout_ok. vm_compute.
  repeat split; try discriminate; reflexivity.
Qed.

Lemma generate_batch_packing_witness :
  (geometry_ok panel_16x2 /\ frame_layout_ok panel_16x2 null_16x2 /\
   region_within panel_16x2 (region patch) /\
   Forall (fun p => region_within panel_16x2 (region p))
          (pending_updates idle_16x2) /\
   Z.of_nat (length (current_intensity idle_16x2)) = epd_size panel_16x2) /\
  exists frame,
    nth_error (batch_frames panel_16x2 (fun _ _ => two_steps) null_16x2 patch
                            idle_16x2) 0 = Some frame /\
    lane_of_word (load frame (group_cell panel_16x2 1 0)) 3
    = lane_code (fun _ _ => Black) (current_intensity idle_16x2)
        (next_intensity (batch_display panel_16x2 (fun _ _ => two_steps)
                                       null_16x2 patch idle_16x2))
        (region (batch_update panel_16x2 (fun _ _ => two_steps) null_16x2 patch
                              idle_16x2))
        (epd_width panel_16x2) (0 + 3) 1.
Proof.
  assert (Hr : region_within panel_16x2 (region patch))
    by (unfold region_within; cbn; lia).
  assert (Hq : Forall (fun p => region_within panel_16x2 (region p))
                      (pending_updates idle_16x2)) by constructor.
  split.
  { split; [exact panel_16x2_ok|]. split; [exact panel_16x2_layout|].
    split; [exact Hr|]. split; [exact Hq|reflexivity]. }
  apply (generate_batch_packing panel_16x2 (fun _ _ => two_steps) null_16x2 patch
           idle_16x2 0 (fun _ _ => Black) 1 0 3 panel_16x2_ok panel_16x2_layout
           Hr Hq eq_refl).
  - reflexivity.
  - vm_compute. split; [discriminate|reflexivity].
  - vm_compute. split; [discriminate|reflexivity].
  - reflexivity.
  - lia.
Defined.

Example batch_word_of_patch :
  map (fun frame => load frame (group_cell panel_16x2 1 0))
      (batch_frames panel_16x2 (fun _ _ => two_steps) null_16x2 patch idle_16x2)
  = [1 * 4 ^ 4 + 1 * 4 ^ 3; 2 * 4 ^ 4 + 2 * 4 ^ 3].
Proof. reflexivity. Qed.

(** ** Pixel indices and regions *)

Lemma pixel_in_index (g : Geometry) (r : UpdateRegion) (x y : Z) :
  0 <= x < epd_width g ->
  pixel_in g r (y * epd_width g + x) = contains r x y.
Proof.
  intros Hx. unfold pixel_in.
  rewrite Z.add_comm, Z.mod_add, Z.div_add by lia.
  rewrite Z.mod_small, Z.div_small by lia. reflexivity.
Qed.

Lemma pixel_in_bounds (g : Geometry) (r : UpdateRegion) (i : Z) :
  geometry_ok g -> region_within g r -> pixel_in g r i = true ->
  top r * epd_width g + left r <= i < (top r + height r) * epd_width g /\
  0 <= i < epd_size g.
Proof.
  intros Hg (Ht & Hl & Hw & Hh & Hright & Hbottom) Hin.
  pose proof (geometry_ok_width g Hg) as HW.
  apply contains_inv in Hin. unfold epd_size.
  pose proof (Z.div_mod i (epd_width g) ltac:(lia)) as Hdm.
  pose proof (Z.mod_pos_bound i (epd_width g) ltac:(lia)) as Hmb.
  set (q := i / epd_width g) in *. set (m := i mod epd_width g) in *.
  nia.
Qed.

(** Between the end of the region's part of row [y] and its start in row
    [y + 1] there is no pixel of the region. *)
Lemma pixel_in_gap (g : Geometry) (r : UpdateRegion) (y i : Z) :
  geometry_ok g -> region_within g r ->
  y * epd_width g + (left r + width r) <= i < (y + 1) * epd_width g + left r ->
  pixel_in g r i = false.
Proof.
  intros Hg (Ht & Hl & Hw & Hh & Hright & Hbottom) Hi.
  pose proof (geometry_ok_width g Hg) as HW.
  unfold pixel_in, contains.
  pose proof (Z.div_mod i (epd_width g) ltac:(lia)) as Hdm.
  pose proof (Z.mod_pos_bound i (epd_width g) ltac:(lia)) as Hmb.
  set (q := i / epd_width g) in *. set (m := i mod epd_width g) in *.
  assert (Hq : q = y \/ q = y + 1) by nia.
  destruct (Z.leb_spec (left r) m); destruct (Z.ltb_spec m (left r + width r));
    cbn [andb]; try reflexivity.
  exfalso. destruct Hq as [-> | ->]; nia.
Qed.

Lemma contains_extend_l (r o : UpdateRegion) (x y : Z) :
  contains r x y = true -> contains (extend r o) x y = true.
Proof.
  unfold contains, extend. cbn [top left width height].
  rewrite !andb_true_iff, !Z.leb_le, !Z.ltb_lt. lia.
Qed.

Lemma contains_extend_point (r : UpdateRegion) (x y : Z) :
  contains (extend_point r x y) x y = true.
Proof.
  unfold contains, extend_point, extend. cbn [top left width height].
  rewrite !andb_true_iff, !Z.leb_le, !Z.ltb_lt. lia.
Qed.

Lemma extend_point_within (g : Geometry) (r : UpdateRegion) (x y : Z) :
  region_within g r -> 0 <= x < epd_width g -> 0 <= y < epd_height g ->
  region_within g (extend_point r x y).
Proof.
  intros Hr Hx Hy. apply extend_within; [exact Hr|].
  unfold region_within. cbn. lia.
Qed.

(** The lanes of a group leave the [data] pointer and the frame alone; the
    group stores one word and moves the pointer by one group. *)
Lemma immediate_lane_frame (waveform : Waveform) (nxt : list Z)
    (r : UpdateRegion) (y x : Z) (s : Z * Pass) :
  p_data (snd (immediate_lane waveform nxt r y x s)) = p_data (snd s) /\
  p_frame (snd (immediate_lane waveform nxt r y x s)) = p_frame (snd s).
Proof.
  destruct s as [phases p]. unfold immediate_lane.
  destruct (contains r x y); [|cbn; auto].
  destruct (negb (load (p_current p) (p_prev p) =? load nxt (p_next p)));
    [|cbn; auto].
  unfold advance_pixel.
  destruct (load (p_steps p) (p_step p) + 1 =? Z.of_nat (length waveform));
    cbn; auto.
Qed.

Lemma immediate_group_frame (waveform : Waveform) (nxt : list Z)
    (r : UpdateRegion) (y sx : Z) (p : Pass) :
  p_data (immediate_group waveform nxt r y sx p) = p_data p + 2 /\
  p_frame (immediate_group waveform nxt r y sx p)
  = store (p_frame p) (p_data p)
          (fst (for_loop sx (sx + buf_actual_depth) 1
                         (immediate_lane waveform nxt r y) (0, p))).
Proof.
  unfold immediate_group.
  assert (H : p_data (snd (for_loop sx (sx + buf_actual_depth) 1
                             (immediate_lane waveform nxt r y) (0, p))) = p_data p /\
              p_frame (snd (for_loop sx (sx + buf_actual_depth) 1
                              (immediate_lane waveform nxt r y) (0, p))) = p_frame p).
  { unfold for_loop.
    apply (for_range_preserves
             (fun s : Z * Pass => p_data (snd s) = p_data p /\
                                  p_frame (snd s) = p_frame p));
      [|split; reflexivity].
    intros x s (Hd & Hf).
    destruct (immediate_lane_frame waveform nxt r y x s) as (Hd' & Hf').
    rewrite Hd', Hf'. auto. }
  destruct (for_loop sx (sx + buf_actual_depth) 1
              (immediate_lane waveform nxt r y) (0, p)) as [phases p'].
  cbn [fst snd] in *. destruct H as (Hd & Hf).
  cbn [p_data p_frame]. rewrite Hd, Hf. auto.
Qed.

Lemma immediate_lane_code_range (waveform : Waveform) (steps cur nxt : list Z)
    (r : UpdateRegion) (w x y : Z) :
  0 <= immediate_lane_code waveform steps cur nxt r w x y < 4.
Proof.
  unfold immediate_lane_code.
  destruct (contains r x y && negb (load cur (y * w + x) =? load nxt (y * w + x)));
    [apply phase_code_range|lia].
Qed.

(** ** One pass of [generate_immediate]

    The pass starts from the vectors [steps0] and [cur0]; [nxt] is the target
    vector, which the pass only reads. Every pixel that differs from its
    target lies in the region and stands at the same step [j] (this is what
    the loop maintains when no update arrives). *)

Section ImmediatePass.

Variable g : Geometry.
Variable waveform : Waveform.
Variables nxt steps0 cur0 : list Z.
Variable r : UpdateRegion.
Variable j : Z.

Hypothesis Hg : geometry_ok g.
Hypothesis Hr : region_within g r.
Hypothesis Hsteps : Z.of_nat (length steps0) = epd_size g.
Hypothesis Hcur : Z.of_nat (length cur0) = epd_size g.
Hypothesis Hj : 0 <= j < Z.of_nat (length waveform).
Hypothesis Hdiff :
  forall i, 0 <= i < epd_size g -> load cur0 i <> load nxt i ->
            pixel_in g r i = true /\ load steps0 i = j.

Let W := epd_width g.
Let last_step : bool := j + 1 =? Z.of_nat (length waveform).

(** The pixel at index [i] has been advanced when the pointers stand at
    [c]. *)
Let touched (c i : Z) : Prop :=
  i < c /\ pixel_in g r i = true /\ load cur0 i <> load nxt i.

(** The state of the pass when the pointers stand at [c]. *)
Let pass_inv (c : Z) (p : Pass) : Prop :=
  length (p_steps p) = length steps0 /\
  length (p_current p) = length cur0 /\
  (forall i, 0 <= i < epd_size g -> touched c i ->
     load (p_current p) i = (if last_step then load nxt i else load cur0 i) /\
     load (p_steps p) i = (if last_step then 0 else j + 1)) /\
  (forall i, 0 <= i < epd_size g -> ~ touched c i ->
     load (p_current p) i = load cur0 i /\ load (p_steps p) i = load steps0 i) /\
  (p_finished p = true <-> forall i, 0 <= i < epd_size g -> ~ touched c i) /\
  region_within g (p_active p) /\
  (forall i, 0 <= i < epd_size g -> touched c i ->
     pixel_in g (p_active p) i = true).

Lemma pass_inv_moves (c c' : Z) (p : Pass) :
  (forall i, 0 <= i < epd_size g -> (touched c i <-> touched c' i)) ->
  pass_inv c p -> pass_inv c' p.
Proof.
  intros Hiff (H1 & H2 & H3 & H4 & H5 & H6 & H7).
  unfold pass_inv. split; [exact H1|]. split; [exact H2|].
  split; [|split; [|split; [|split; [exact H6|]]]].
  - intros i Hi Ht. apply H3; [exact Hi|]. apply Hiff; assumption.
  - intros i Hi Ht. apply H4; [exact Hi|]. intros Ht'. apply Ht.
    apply Hiff; assumption.
  - split.
    + intros Hf i Hi Ht. apply (proj1 H5 Hf i Hi). apply Hiff; assumption.
    + intros Hall. apply H5. intros i Hi Ht. apply (Hall i Hi).
      apply Hiff; assumption.
  - intros i Hi Ht. apply H7; [exact Hi|]. apply Hiff; assumption.
Qed.

Lemma touched_next (c i : Z) :
  touched (c + 1) i <->
  touched c i \/ (i = c /\ pixel_in g r c = true /\ load cur0 c <> load nxt c).
Proof.
  unfold touched. split.
  - intros (Hlt & Hin & Hne). destruct (Z.eq_dec i c) as [->|]; [right|left]; auto.
    repeat split; auto. lia.
  - intros [(Hlt & Hin & Hne)|(-> & Hin & Hne)]; repeat split; auto; lia.
Qed.

(** One pixel of the walk (lines 736-763). *)
Lemma immediate_lane_walk (y x phases : Z) (p : Pass) :
  top r <= y < top r + height r ->
  pass_inv (y * W + clamp r x) p -> at_cursor (y * W + clamp r x) p ->
  pass_inv (y * W + clamp r (x + 1))
           (snd (immediate_lane waveform nxt r y x (phases, p))) /\
  at_cursor (y * W + clamp r (x + 1))
            (snd (immediate_lane waveform nxt r y x (phases, p))).
Proof.
  intros Hy Hinv Hat. unfold immediate_lane.
  pose proof Hr as (Ht & Hl & Hw & Hh & Hright & Hbottom).
  pose proof (geometry_ok_width g Hg) as HW.
  destruct (contains r x y) eqn:Ec.
  2:{ cbn [snd]. rewrite (clamp_outside r x y Hw Hy Ec). split; assumption. }
  destruct (clamp_inside r x y Ec) as (E1 & E2). rewrite E1 in Hinv, Hat. rewrite E2.
  pose proof (contains_inv _ _ _ Ec) as (Hx & _).
  set (c := y * W + x) in *.
  assert (Hc : 0 <= c < epd_size g) by (unfold epd_size; subst c W; nia).
  assert (Hin : pixel_in g r c = true)
    by (subst c W; rewrite pixel_in_index by lia; exact Ec).
  assert (Ec1 : y * W + (x + 1) = c + 1) by (subst c; lia). rewrite Ec1.
  destruct Hat as (Es & Ep & En). rewrite Ep, En.
  destruct Hinv as (H1 & H2 & H3 & H4 & H5 & H6 & H7).
  assert (Hnt : ~ touched c c) by (unfold touched; lia).
  destruct (H4 c Hc Hnt) as (Lc & Ls). rewrite Lc.
  assert (Hcs : 0 <= c < Z.of_nat (length (p_steps p))) by (rewrite H1; lia).
  assert (Hcc : 0 <= c < Z.of_nat (length (p_current p))) by (rewrite H2; lia).
  destruct (Z.eqb_spec (load cur0 c) (load nxt c)) as [Eeq|Ene]; cbn [negb snd].
  - split.
    + apply (pass_inv_moves c (c + 1)).
      * intros i Hi. rewrite touched_next. split; [auto|].
        intros [Ht'|(_ & _ & Hne)]; [exact Ht'|contradiction].
      * exact (conj H1 (conj H2 (conj H3 (conj H4 (conj H5 (conj H6 H7)))))).
    + unfold at_cursor, next_pixel. cbn. lia.
  - destruct (Hdiff c Hc Ene) as (_ & Ej).
    unfold advance_pixel. rewrite ?Es, ?Ep, ?En, Ls, Ej. fold last_step.
    destruct last_step eqn:El; cbn [snd fst]; split.
    + unfold pass_inv. cbn [p_steps p_current p_finished p_active next_pixel].
      rewrite !length_store.
      split; [exact H1|]. split; [exact H2|].
      split; [|split; [|split; [|split]]].
      * intros i Hi Ht'. apply touched_next in Ht'.
        destruct Ht' as [Ht'|(-> & _)].
        -- assert (i <> c) by (unfold touched in Ht'; lia).
           rewrite !load_store_ne by lia. apply H3; assumption.
        -- rewrite !load_store_eq by (rewrite ?length_store; assumption).
           split; reflexivity.
      * intros i Hi Ht'.
        assert (Hic : i <> c).
        { intros ->. apply Ht'. apply touched_next. right. auto. }
        rewrite !load_store_ne by lia. apply H4; [exact Hi|].
        intros Ht''. apply Ht'. apply touched_next. left. exact Ht''.
      * split; [discriminate|]. intros Hall. exfalso. apply (Hall c Hc).
        apply touched_next. right. auto.
      * apply extend_point_within; [exact H6|lia|lia].
      * intros i Hi Ht'. apply touched_next in Ht'.
        destruct Ht' as [Ht'|(-> & _)].
        -- unfold pixel_in, extend_point. apply contains_extend_l.
           apply (H7 i Hi Ht').
        -- subst c W. rewrite pixel_in_index by lia. apply contains_extend_point.
    + unfold at_cursor, next_pixel. cbn. lia.
    + unfold pass_inv. cbn [p_steps p_current p_finished p_active next_pixel].
      rewrite !length_store.
      split; [exact H1|]. split; [exact H2|].
      split; [|split; [|split; [|split]]].
      * intros i Hi Ht'. apply touched_next in Ht'.
        destruct Ht' as [Ht'|(-> & _)].
        -- assert (i <> c) by (unfold touched in Ht'; lia).
           rewrite !load_store_ne by lia. apply H3; assumption.
        -- rewrite !load_store_eq by (rewrite ?length_store; assumption).
           split; [exact Lc|reflexivity].
      * intros i Hi Ht'.
        assert (Hic : i <> c).
        { intros ->. apply Ht'. apply touched_next. right. auto. }
        rewrite !load_store_ne by lia. apply H4; [exact Hi|].
        intros Ht''. apply Ht'. apply touched_next. left. exact Ht''.
      * split; [discriminate|]. intros Hall. exfalso. apply (Hall c Hc).
        apply touched_next. right. auto.
      * apply extend_point_within; [exact H6|lia|lia].
      * intros i Hi Ht'. apply touched_next in Ht'.
        destruct Ht' as [Ht'|(-> & _)].
        -- unfold pixel_in, extend_point. apply contains_extend_l.
           apply (H7 i Hi Ht').
        -- subst c W. rewrite pixel_in_index by lia. apply contains_extend_point.
    + unfold at_cursor, next_pixel. cbn. lia.
Qed.

(** One group of the walk (lines 733-767). *)
Lemma immediate_group_walk (y sx : Z) (p : Pass) :
  top r <= y < top r + height r ->
  pass_inv (y * W + clamp r sx) p -> at_cursor (y * W + clamp r sx) p ->
  pass_inv (y * W + clamp r (sx + 8)) (immediate_group waveform nxt r y sx p) /\
  at_cursor (y * W + clamp r (sx + 8)) (immediate_group waveform nxt r y sx p).
Proof.
  intros Hy Hinv Hat. unfold immediate_group, buf_actual_depth.
  pose (I := fun (x : Z) (s : Z * Pass) =>
               pass_inv (y * W + clamp r x) (snd s) /\
               at_cursor (y * W + clamp r x) (snd s)).
  assert (H : I (sx + 8)
                (for_loop sx (sx + 8) 1 (immediate_lane waveform nxt r y) (0, p))).
  { apply for_loop_invariant1; [lia|split; assumption|].
    intros x [phases p'] Hx (Hinv' & Hat'). cbn [snd] in *.
    apply immediate_lane_walk; assumption. }
  destruct (for_loop sx (sx + 8) 1 (immediate_lane waveform nxt r y) (0, p))
    as [phases p'].
  destruct H as ((H1 & H2 & H3 & H4 & H5 & H6 & H7) & (Es & Ep & En)).
  cbn [snd] in *. split.
  - exact (conj H1 (conj H2 (conj H3 (conj H4 (conj H5 (conj H6 H7)))))).
  - exact (conj Es (conj Ep En)).
Qed.

(** One row of the walk (lines 728-776). *)
Lemma immediate_row_walk (y : Z) (p : Pass) :
  top r <= y < top r + height r ->
  pass_inv (y * W + left r) p -> at_cursor (y * W + left r) p ->
  pass_inv ((y + 1) * W + left r)
           (immediate_row g waveform nxt r (align_region r)
                          (wrap32 (W - width r)) y p) /\
  at_cursor ((y + 1) * W + left r)
            (immediate_row g waveform nxt r (align_region r)
                           (wrap32 (W - width r)) y p).
Proof.
  intros Hy Hinv Hat. unfold immediate_row.
  destruct (align_region_within g r Hg Hr)
    as (Ha & Hta & Hha & Hl8 & Hw8 & Hla & Hra).
  set (a := align_region r) in *.
  pose proof Hr as (Ht & Hl & Hw & Hh & Hright & Hbottom).
  pose proof Ha as (_ & Hal & Haw & _ & Haright & _).
  pose proof (geometry_ok_width g Hg) as HW.
  assert (Hc0 : clamp r (left a) = left r) by (unfold clamp; lia).
  assert (Hc1 : clamp r (left a + width a) = left r + width r)
    by (unfold clamp; lia).
  rewrite (wrap32_small (left a + width a)) by lia.
  rewrite (wrap32_small (W - width r)) by (subst W; lia).
  pose (I := fun (sx : Z) (p' : Pass) =>
               pass_inv (y * W + clamp r sx) p' /\
               at_cursor (y * W + clamp r sx) p').
  assert (H : I (left a + width a)
                (for_loop (left a) (left a + width a) buf_actual_depth
                          (immediate_group waveform nxt r y) p)).
  { unfold buf_actual_depth. apply for_loop_invariant; [lia|lia| | |].
    - replace (left a + width a - left a) with (width a) by lia. exact Hw8.
    - unfold I. rewrite Hc0. split; assumption.
    - intros sx p' Hsx _ (Hinv' & Hat'). apply immediate_group_walk; assumption. }
  destruct H as (Hinv' & (Es & Ep & En)). rewrite Hc1 in Hinv', Es, Ep, En.
  set (p' := for_loop _ _ _ _ p) in *.
  split.
  - apply (pass_inv_moves (y * W + (left r + width r))).
    + intros i Hi. unfold touched. split; intros (Hlt & Hin & Hne).
      * repeat split; try assumption. lia.
      * repeat split; try assumption.
        destruct (Z_lt_le_dec i (y * W + (left r + width r))) as [|Hge];
          [assumption|].
        rewrite (pixel_in_gap g r y i Hg Hr) in Hin; [discriminate|].
        subst W. lia.
    + destruct Hinv' as (H1 & H2 & H3 & H4 & H5 & H6 & H7).
      exact (conj H1 (conj H2 (conj H3 (conj H4 (conj H5 (conj H6 H7)))))).
  - unfold at_cursor. cbn. lia.
Qed.

(** The whole pass: when it ends, every pixel of the region has been
    visited. *)
Lemma immediate_pass_walk (null_frame : Frame) (d : Display) :
  waveform_steps d = steps0 -> current_intensity d = cur0 ->
  next_intensity d = nxt ->
  pass_inv ((top r + height r) * W + left r)
           (immediate_pass g waveform null_frame r d).
Proof.
  intros Es Ec En. unfold immediate_pass. rewrite Es, Ec, En.
  destruct (align_region_within g r Hg Hr)
    as (Ha & Hta & Hha & Hl8 & Hw8 & Hla & Hra).
  set (a := align_region r) in *.
  pose proof Hr as (Ht & Hl & Hw & Hh & Hright & Hbottom).
  pose proof (geometry_ok_width g Hg) as HW.
  pose proof (geometry_ok_height g Hg) as HH.
  assert (Hsize : epd_width g * epd_height g < 2 ^ 32) by apply Hg.
  rewrite Hta, Hha. rewrite (wrap32_small (top r + height r)) by lia.
  fold W.
  set (p0 := {| p_steps := steps0; p_current := cur0; p_finished := true;
                p_active := empty_region;
                p_step := wrap32 (top r * W + left r);
                p_prev := wrap32 (top r * W + left r);
                p_next := wrap32 (top r * W + left r);
                p_data := data_start g a; p_frame := null_frame |}).
  assert (Hnone : forall c i, c <= top r * W + left r -> ~ touched c i).
  { intros c i Hc (Hlt & Hin & _).
    apply (pixel_in_bounds g r i Hg Hr) in Hin. subst W. lia. }
  assert (H0 : forall c, c <= top r * W + left r -> pass_inv c p0).
  { intros c Hc. unfold pass_inv. cbn [p0 p_steps p_current p_finished p_active].
    split; [reflexivity|]. split; [reflexivity|].
    split; [|split; [|split; [|split]]].
    - intros i Hi Ht'. exfalso. exact (Hnone c i Hc Ht').
    - intros i Hi _. split; reflexivity.
    - split; [|reflexivity]. intros _ i Hi. apply Hnone. exact Hc.
    - unfold region_within, empty_region. cbn. lia.
    - intros i Hi Ht'. exfalso. exact (Hnone c i Hc Ht'). }
  destruct (Z.eq_dec (height r) 0) as [Hz|Hnz].
  - rewrite Hz, Z.add_0_r. unfold for_loop. rewrite Z.sub_diag. cbn [Z.to_nat for_range].
    apply H0. lia.
  - assert (Hstart : wrap32 (top r * W + left r) = top r * W + left r)
      by (apply wrap32_small; subst W; nia).
    pose (I := fun (y : Z) (p : Pass) =>
                 pass_inv (y * W + left r) p /\ at_cursor (y * W + left r) p).
    assert (H : I (top r + height r)
                  (for_loop (top r) (top r + height r) 1
                     (immediate_row g waveform nxt r a (wrap32 (W - width r))) p0)).
    { apply for_loop_invariant1; [lia| |].
      - split; [apply H0; lia|]. unfold at_cursor. cbn [p0 p_step p_prev p_next].
        rewrite Hstart. auto.
      - intros y p Hy (Hinv & Hat). apply immediate_row_walk; [lia| |]; assumption. }
    apply H.
Qed.

(** What one pass does, pixel by pixel. *)
Lemma immediate_pass_spec (null_frame : Frame) (d : Display) :
  waveform_steps d = steps0 -> current_intensity d = cur0 ->
  next_intensity d = nxt ->
  length (p_steps (immediate_pass g waveform null_frame r d)) = length steps0 /\
  length (p_current (immediate_pass g waveform null_frame r d)) = length cur0 /\
  (forall i, 0 <= i < epd_size g -> load cur0 i <> load nxt i ->
     load (p_current (immediate_pass g waveform null_frame r d)) i
     = (if last_step then load nxt i else load cur0 i) /\
     load (p_steps (immediate_pass g waveform null_frame r d)) i
     = (if last_step then 0 else j + 1) /\
     pixel_in g (p_active (immediate_pass g waveform null_frame r d)) i = true) /\
  (forall i, 0 <= i < epd_size g -> load cur0 i = load nxt i ->
     load (p_current (immediate_pass g waveform null_frame r d)) i = load cur0 i /\
     load (p_steps (immediate_pass g waveform null_frame r d)) i = load steps0 i) /\
  (p_finished (immediate_pass g waveform null_frame r d) = true <->
   forall i, 0 <= i < epd_size g -> load cur0 i = load nxt i) /\
  region_within g (p_active (immediate_pass g waveform null_frame r d)).
Proof.
  intros Es Ec En.
  destruct (immediate_pass_walk null_frame d Es Ec En)
    as (H1 & H2 & H3 & H4 & H5 & H6 & H7).
  set (p := immediate_pass g waveform null_frame r d) in *.
  set (c := (top r + height r) * W + left r) in *.
  pose proof Hr as (Ht & Hl & Hw & Hh & Hright & Hbottom).
  assert (Hiff : forall i, 0 <= i < epd_size g ->
                           (touched c i <-> load cur0 i <> load nxt i)).
  { intros i Hi. unfold touched. split; [tauto|].
    intros Hne. destruct (Hdiff i Hi Hne) as (Hin & _).
    pose proof (pixel_in_bounds g r i Hg Hr Hin) as (Hb & _).
    repeat split; try assumption. subst c W. lia. }
  split; [exact H1|]. split; [exact H2|].
  split; [|split; [|split; [|exact H6]]].
  - intros i Hi Hne. pose proof (proj2 (Hiff i Hi) Hne) as Ht'.
    destruct (H3 i Hi Ht') as (Hc' & Hs'). repeat split; auto.
  - intros i Hi Heq. apply H4; [exact Hi|].
    intros Ht'. apply (Hiff i Hi) in Ht'. contradiction.
  - rewrite H5. split.
    + intros Hall i Hi.
      destruct (Z.eq_dec (load cur0 i) (load nxt i)) as [|Hne]; [assumption|].
      exfalso. apply (Hall i Hi). apply Hiff; assumption.
    + intros Hall i Hi Ht'. apply (Hiff i Hi) in Ht'. apply Ht'. apply Hall. exact Hi.
Qed.

(** *** The frame of the pass *)

Let fl (y x : Z) : Z := immediate_lane_code waveform steps0 cur0 nxt r W x y.

(** The accumulator after one pixel (lines 737-762). *)
Lemma immediate_lane_phases (y x phases : Z) (p : Pass) :
  top r <= y < top r + height r ->
  pass_inv (y * W + clamp r x) p -> at_cursor (y * W + clamp r x) p ->
  fst (immediate_lane waveform nxt r y x (phases, p))
  = Z.lor (wrap16 (Z.shiftl phases 2)) (fl y x).
Proof.
  intros Hy Hinv Hat. unfold immediate_lane, fl, immediate_lane_code.
  pose proof Hr as (Ht & Hl & Hw & Hh & Hright & Hbottom).
  pose proof (geometry_ok_width g Hg) as HW.
  destruct (contains r x y) eqn:Ec; cbn [andb].
  2:{ cbn [fst]. rewrite Z.lor_0_r. reflexivity. }
  destruct (clamp_inside r x y Ec) as (E1 & E2). rewrite E1 in Hinv, Hat.
  pose proof (contains_inv _ _ _ Ec) as (Hx & _).
  set (c := y * W + x) in *.
  assert (Hc : 0 <= c < epd_size g) by (unfold epd_size; subst c W; nia).
  destruct Hat as (Es & Ep & En). rewrite Ep, En.
  destruct Hinv as (H1 & H2 & H3 & H4 & H5 & H6 & H7).
  assert (Hnt : ~ touched c c) by (unfold touched; lia).
  destruct (H4 c Hc Hnt) as (Lc & Ls). rewrite Lc.
  destruct (Z.eqb_spec (load cur0 c) (load nxt c)) as [Eeq|Ene]; cbn [negb fst].
  - reflexivity.
  - unfold advance_pixel. rewrite Es, Ls.
    destruct (load steps0 c + 1 =? Z.of_nat (length waveform)); reflexivity.
Qed.

(** The eight lanes of one group. *)
Lemma immediate_lanes_word (y sx : Z) (p : Pass) :
  top r <= y < top r + height r ->
  pass_inv (y * W + clamp r sx) p -> at_cursor (y * W + clamp r sx) p ->
  fst (for_loop sx (sx + buf_actual_depth) 1
                (immediate_lane waveform nxt r y) (0, p))
  = pack (fl y) sx 8.
Proof.
  intros Hy Hinv Hat. unfold buf_actual_depth.
  pose (I := fun (x : Z) (s : Z * Pass) =>
               fst s = pack (fl y) sx (Z.to_nat (x - sx)) /\
               pass_inv (y * W + clamp r x) (snd s) /\
               at_cursor (y * W + clamp r x) (snd s)).
  assert (H : I (sx + 8)
                (for_loop sx (sx + 8) 1 (immediate_lane waveform nxt r y) (0, p))).
  { apply for_loop_invariant1; [lia| |].
    - unfold I. rewrite Z.sub_diag. cbn. auto.
    - intros x [phases p'] Hx (Hph & Hinv' & Hat'). cbn [fst snd] in *.
      unfold I. split; [|apply immediate_lane_walk; assumption].
      rewrite (immediate_lane_phases y x phases p' Hy Hinv' Hat'), Hph.
      replace (Z.to_nat (x + 1 - sx)) with (Datatypes.S (Z.to_nat (x - sx))) by lia.
      cbn [pack]. rewrite Z2Nat.id by lia.
      replace (sx + (x - sx)) with x by lia.
      set (n := Z.to_nat (x - sx)).
      pose proof (pack_range (fl y) sx n
                    (fun x' => immediate_lane_code_range waveform steps0 cur0 nxt
                                 r W x' y)) as Hp.
      assert (Hn : 4 ^ Z.of_nat n <= 4 ^ 7)
        by (apply Z.pow_le_mono_r; lia).
      rewrite Z.shiftl_mul_pow2 by lia. change (2 ^ 2) with 4.
      change (4 ^ 7) with 16384 in Hn.
      unfold wrap16. change (2 ^ 16) with 65536.
      rewrite Z.mod_small by lia.
      apply lor_lane. apply immediate_lane_code_range. }
  destruct H as (H & _). rewrite H.
  replace (sx + 8 - sx) with 8 by lia. reflexivity.
Qed.

Variable null0 : Frame.
Hypothesis Hlayout : frame_layout_ok g null0.

Let a := align_region r.

(** The group at [(y, sx)] comes before the position [(y0, sx0)] of the
    walk. *)
Let reached (y0 sx0 y sx : Z) : Prop :=
  top r <= y /\ left a <= sx < left a + width a /\ (sx - left a) mod 8 = 0 /\
  (y < y0 \/ (y = y0 /\ sx < sx0)).

(** The frame when the walk stands at [(y0, sx0)]. *)
Let filled_to (y0 sx0 : Z) (frame : Frame) : Prop :=
  length frame = length null0 /\
  forall y sx, reached y0 sx0 y sx ->
               load frame (group_cell g y sx) = pack (fl y) sx 8.

(** The groups of one row (lines 733-767). *)
Lemma immediate_groups_filled (y : Z) (p : Pass) :
  top r <= y < top r + height r ->
  pass_inv (y * W + left r) p -> at_cursor (y * W + left r) p ->
  p_data p = group_cell g y (left a) -> filled_to y (left a) (p_frame p) ->
  p_data (for_loop (left a) (left a + width a) buf_actual_depth
                   (immediate_group waveform nxt r y) p)
  = group_cell g y (left a + width a) /\
  filled_to y (left a + width a)
            (p_frame (for_loop (left a) (left a + width a) buf_actual_depth
                               (immediate_group waveform nxt r y) p)).
Proof.
  intros Hy Hinv Hat Hdata Hfill.
  destruct (align_region_within g r Hg Hr)
    as (Ha & Hta & Hha & Hl8 & Hw8 & Hla & Hra).
  fold a in Ha, Hta, Hha, Hl8, Hw8, Hla, Hra.
  pose proof Hr as (Ht & Hl & Hw & Hh & Hright & Hbottom).
  pose proof Ha as (_ & Hal & Haw & _ & Haright & _).
  assert (Hc0 : clamp r (left a) = left r) by (unfold clamp; lia).
  pose (I := fun (sx : Z) (p' : Pass) =>
               pass_inv (y * W + clamp r sx) p' /\
               at_cursor (y * W + clamp r sx) p' /\
               p_data p' = group_cell g y sx /\
               filled_to y sx (p_frame p')).
  assert (H : I (left a + width a)
                (for_loop (left a) (left a + width a) buf_actual_depth
                          (immediate_group waveform nxt r y) p)).
  { unfold buf_actual_depth.
    apply for_loop_invariant; [lia|lia| | |].
    - replace (left a + width a - left a) with (width a) by lia. exact Hw8.
    - unfold I. rewrite Hc0. auto.
    - intros sx p' Hsx Hmod (Hinv' & Hat' & Hd' & (Hlen1 & Hw1)).
      destruct (immediate_group_walk y sx p' Hy Hinv' Hat') as (Hinv2 & Hat2).
      destruct (immediate_group_frame waveform nxt r y sx p') as (Hd2 & Hf2).
      rewrite (immediate_lanes_word y sx p' Hy Hinv' Hat') in Hf2.
      unfold I. split; [exact Hinv2|]. split; [exact Hat2|].
      split; [rewrite Hd2, Hd'; apply group_cell_next|].
      rewrite Hf2, Hd'.
      assert (Hcell : 0 <= group_cell g y sx < Z.of_nat (length (p_frame p'))).
      { rewrite Hlen1.
        apply (group_cell_range g (fun _ _ => Noop) [] [] r Hg null0 Hlayout); lia. }
      split; [rewrite length_store; exact Hlen1|].
      intros y' sx' (Hy' & Hsx' & Hmod' & Hbefore).
      assert (Hd : (sx' - sx) mod 8 = 0).
      { replace (sx' - sx) with ((sx' - left a) + -1 * (sx - left a)) by lia.
        rewrite Z.add_mod, Hmod' by lia.
        rewrite Z.mul_mod, Hmod by lia. reflexivity. }
      destruct (Z.eq_dec (group_cell g y' sx') (group_cell g y sx)) as [E|E].
      + assert (Hy'' : 0 <= y' < epd_height g) by lia.
        apply (group_cell_inj g (fun _ _ => Noop) [] [] r Hg null0 Hlayout) in E;
          [| lia | lia | lia | lia | exact Hd].
        destruct E as (-> & ->). apply load_store_eq. exact Hcell.
      + rewrite load_store_ne.
        * apply Hw1. unfold reached. repeat split; try lia.
          destruct Hbefore as [Hlt|(-> & Hlt)]; [left; exact Hlt|right].
          split; [reflexivity|].
          destruct (Z_lt_le_dec sx' sx) as [|Hge]; [assumption|].
          exfalso. apply E.
          assert (sx' = sx); [|subst; reflexivity].
          Z.div_mod_to_equations. lia.
        * lia.
        * assert (0 <= y' < epd_height g) by lia.
          apply (group_cell_range g (fun _ _ => Noop) [] [] r Hg null0 Hlayout); lia.
        * intros E'. apply E. symmetry. exact E'. }
  destruct H as (_ & _ & Hd & Hf). split; assumption.
Qed.

(** The rows of the region (lines 728-776): every group of every row ends
    up in its cell. *)
Lemma immediate_pass_filled (d : Display) :
  waveform_steps d = steps0 -> current_intensity d = cur0 ->
  next_intensity d = nxt -> 0 < height r ->
  filled_to (top r + height r) (left a)
            (p_frame (immediate_pass g waveform null0 r d)).
Proof.
  intros Es Ec En Hpos. unfold immediate_pass. rewrite Es, Ec, En.
  destruct (align_region_within g r Hg Hr)
    as (Ha & Hta & Hha & Hl8 & Hw8 & Hla & Hra).
  fold a in Ha, Hta, Hha, Hl8, Hw8, Hla, Hra. fold a.
  pose proof Hr as (Ht & Hl & Hw & Hh & Hright & Hbottom).
  pose proof Ha as (_ & Hal & Haw & _ & Haright & _).
  pose proof (geometry_ok_width g Hg) as HW.
  pose proof (geometry_ok_height g Hg) as HH.
  assert (Hsize : epd_width g * epd_height g < 2 ^ 32) by apply Hg.
  rewrite Hta, Hha. rewrite (wrap32_small (top r + height r)) by lia.
  fold W.
  assert (Hstart : wrap32 (top r * W + left r) = top r * W + left r)
    by (apply wrap32_small; subst W; nia).
  rewrite Hstart.
  set (p0 := {| p_steps := steps0; p_current := cur0; p_finished := true;
                p_active := empty_region;
                p_step := top r * W + left r;
                p_prev := top r * W + left r;
                p_next := top r * W + left r;
                p_data := data_start g a; p_frame := null0 |}).
  assert (Hnone : forall i, ~ touched (top r * W + left r) i).
  { intros i (Hlt & Hin & _).
    apply (pixel_in_bounds g r i Hg Hr) in Hin. subst W. lia. }
  assert (Hinv0 : pass_inv (top r * W + left r) p0).
  { unfold pass_inv. cbn [p0 p_steps p_current p_finished p_active].
    split; [reflexivity|]. split; [reflexivity|].
    split; [|split; [|split; [|split]]].
    - intros i Hi Ht'. exfalso. exact (Hnone i Ht').
    - intros i Hi _. split; reflexivity.
    - split; [|reflexivity]. intros _ i Hi. apply Hnone.
    - unfold region_within, empty_region. cbn. lia.
    - intros i Hi Ht'. exfalso. exact (Hnone i Ht'). }
  pose (I := fun (y : Z) (p : Pass) =>
               pass_inv (y * W + left r) p /\ at_cursor (y * W + left r) p /\
               p_data p = group_cell g y (left a) /\
               filled_to y (left a) (p_frame p)).
  assert (H : I (top r + height r)
                (for_loop (top r) (top r + height r) 1
                   (immediate_row g waveform nxt r a (wrap32 (W - width r))) p0)).
  { apply for_loop_invariant1; [lia| |].
    - unfold I. split; [exact Hinv0|]. split; [unfold at_cursor; cbn; auto|].
      split.
      + cbn [p0 p_data]. unfold data_start, group_cell. rewrite Hta. reflexivity.
      + split; [reflexivity|].
        intros y sx (Hy & Hsx & _ & Hbefore). exfalso. lia.
    - intros y p Hy (Hinv & Hat & Hd & Hfill).
      destruct (immediate_row_walk y p Hy Hinv Hat) as (Hinv' & Hat').
      unfold I. split; [exact Hinv'|]. split; [exact Hat'|].
      unfold immediate_row. cbn [p_data p_frame].
      rewrite (wrap32_small (left a + width a)) by lia.
      destruct (immediate_groups_filled y p Hy Hinv Hat Hd Hfill)
        as (Hd' & Hlen' & Hw').
      split.
      + rewrite Hd'.
        apply (group_cell_row g (fun _ _ => Noop) [] [] r Hg Hr null0 Hlayout).
      + split; [exact Hlen'|].
        intros y' sx' (Hy' & Hsx' & Hmod' & Hbefore).
        apply Hw'. unfold reached. repeat split; try lia. }
  destruct H as (_ & _ & _ & Hfill). exact Hfill.
Qed.

(** The lane of a pixel that differs from its target: the phase of step
    [j] of the waveform for its current and target values. *)
Lemma immediate_frame_lane (d : Display) (i : Z) :
  waveform_steps d = steps0 -> current_intensity d = cur0 ->
  next_intensity d = nxt ->
  0 <= i < epd_size g -> load cur0 i <> load nxt i ->
  lane_of_word (load (p_frame (immediate_pass g waveform null0 r d))
                     (group_cell g (i / W) (i mod W)))
               (i mod W mod 8)
  = phase_code (waveform_at waveform j (load cur0 i) (load nxt i)).
Proof.
  intros Es Ec En Hi Hne.
  destruct (Hdiff i Hi Hne) as (Hin & Ej).
  destruct (align_region_within g r Hg Hr)
    as (Ha & Hta & Hha & Hl8 & Hw8 & Hla & Hra).
  fold a in Ha, Hta, Hha, Hl8, Hw8, Hla, Hra.
  pose proof Hr as (Ht & Hl & Hw & Hh & Hright & Hbottom).
  pose proof (geometry_ok_width g Hg) as HW.
  unfold pixel_in in Hin. fold W in Hin.
  pose proof (contains_inv _ _ _ Hin) as (Hx & Hy).
  set (x := i mod W) in *. set (y := i / W) in *.
  assert (Ei : y * W + x = i).
  { subst x y W. pose proof (Z.div_mod i (epd_width g) ltac:(lia)). lia. }
  assert (Hcell : group_cell g y x = group_cell g y (8 * (x / 8))).
  { unfold group_cell, buf_actual_depth. do 3 f_equal.
    rewrite Z.mul_comm, Z.div_mul by lia. reflexivity. }
  destruct (immediate_pass_filled d Es Ec En ltac:(lia)) as (_ & Hword).
  rewrite Hcell, (Hword y (8 * (x / 8))).
  2:{ unfold reached. split; [lia|].
      split; [Z.div_mod_to_equations; lia|].
      split; [Z.div_mod_to_equations; lia|]. left. lia. }
  rewrite lane_of_word_pack;
    [|intros x'; apply immediate_lane_code_range
     |apply Z.mod_pos_bound; lia].
  replace (8 * (x / 8) + x mod 8) with x
    by (pose proof (Z.div_mod x 8 ltac:(lia)); lia).
  unfold fl, immediate_lane_code. rewrite Hin, Ei, Ej.
  destruct (Z.eqb_spec (load cur0 i) (load nxt i)); [contradiction|reflexivity].
Qed.

End ImmediatePass.

(** ** The loop of [generate_immediate] *)

Lemma immediate_loop_idle (g : Geometry) (waveform : Waveform) (null_frame : Frame)
    (fuel : nat) (u : Update) (d : Display) (sent : list Frame) (count : nat) :
  pending_updates d = [] ->
  immediate_loop g waveform null_frame (Datatypes.S fuel) [] u d sent count =
  if p_finished (immediate_pass g waveform null_frame (region u) d)
  then Some {| sent_frames := sent; passes := Datatypes.S count;
               final_update := u;
               final_display :=
                 after_pass d (immediate_pass g waveform null_frame (region u) d) |}
  else immediate_loop g waveform null_frame fuel []
         (with_region u (p_active (immediate_pass g waveform null_frame (region u) d)))
         (after_pass d (immediate_pass g waveform null_frame (region u) d))
         (sent ++ [p_frame (immediate_pass g waveform null_frame (region u) d)])
         (Datatypes.S count).
Proof.
  intros Hq. cbn [immediate_loop hd tl]. rewrite app_nil_r.
  replace (set_pending_updates d (pending_updates d)) with d
    by (destruct d; reflexivity).
  rewrite (merge_updates_idle g u d Hq). reflexivity.
Qed.

(** When no pixel differs from its target, the next pass ends the loop
    without sending a frame. *)
Lemma immediate_loop_settled (g : Geometry) (waveform : Waveform)
    (null_frame : Frame) (fuel : nat) (u : Update) (d : Display)
    (sent : list Frame) (count : nat) :
  geometry_ok g -> (0 < length waveform)%nat ->
  in_step g 0 u d ->
  (forall i, 0 <= i < epd_size g ->
             load (current_intensity d) i = load (next_intensity d) i) ->
  exists run,
    immediate_loop g waveform null_frame (Datatypes.S fuel) [] u d sent count
    = Some run /\
    passes run = Datatypes.S count /\ sent_frames run = sent /\
    current_intensity (final_display run) = next_intensity (final_display run).
Proof.
  intros Hg Hwf (Hr & Hls & Hlc & Hln & Hq & Hdiff) Heq.
  rewrite (immediate_loop_idle g waveform null_frame fuel u d sent count Hq).
  destruct (immediate_pass_spec g waveform (next_intensity d) (waveform_steps d)
              (current_intensity d) (region u) 0 Hg Hr Hls Hlc ltac:(lia) Hdiff
              null_frame d eq_refl eq_refl eq_refl)
    as (H1 & H2 & _ & H4 & H5 & _).
  rewrite (proj2 H5 Heq).
  eexists. split; [reflexivity|]. cbn. repeat split.
  apply load_ext; [lia|].
  intros i Hi. rewrite H2 in Hi.
  destruct (H4 i ltac:(lia) (Heq i ltac:(lia))) as (Hc & _).
  rewrite Hc. apply Heq. lia.
Qed.

(** From a state in which the pixels in transition stand at step [j], the
    loop needs at most [size - j] passes that send a frame and one more that
    finds no pixel in transition. *)
Lemma immediate_loop_terminates (g : Geometry) (waveform : Waveform)
    (null_frame : Frame) :
  geometry_ok g ->
  forall (n : nat) (j : Z) (fuel : nat) (u : Update) (d : Display)
         (sent : list Frame) (count : nat),
    Z.of_nat n = Z.of_nat (length waveform) - j - 1 -> 0 <= j ->
    in_step g j u d -> (n + 2 <= fuel)%nat ->
    exists run,
      immediate_loop g waveform null_frame fuel [] u d sent count = Some run /\
      (passes run <= count + n + 2)%nat /\
      (length (sent_frames run) <= length sent + n + 1)%nat /\
      (passes run + length sent = count + length (sent_frames run) + 1)%nat /\
      current_intensity (final_display run) = next_intensity (final_display run).
Proof.
  intros Hg. induction n as [|n IH]; intros j fuel u d sent count Hn Hj0 Hstep Hfuel.
  all: destruct fuel as [|fuel]; [lia|].
  all: pose proof Hstep as (Hr & Hls & Hlc & Hln & Hq & Hdiff).
  all: rewrite (immediate_loop_idle g waveform null_frame fuel u d sent count Hq).
  all: destruct (immediate_pass_spec g waveform (next_intensity d) (waveform_steps d)
                   (current_intensity d) (region u) j Hg Hr Hls Hlc ltac:(lia) Hdiff
                   null_frame d eq_refl eq_refl eq_refl)
         as (H1 & H2 & H3 & H4 & H5 & H6).
  all: set (p := immediate_pass g waveform null_frame (region u) d) in *.
  all: destruct (p_finished p) eqn:Ef.
  1,3: eexists; split; [reflexivity|]; cbn;
       split; [lia|]; split; [lia|]; split; [lia|];
       apply load_ext; [lia|];
       intros i Hi; rewrite H2 in Hi;
       pose proof (proj1 H5 eq_refl i ltac:(lia)) as Heq;
       destruct (H4 i ltac:(lia) Heq) as (Hc & _); rewrite Hc; exact Heq.
  - (* the last step of the waveform: every pixel reaches its target *)
    assert (Hlast : (j + 1 =? Z.of_nat (length waveform)) = true)
      by (apply Z.eqb_eq; lia).
    rewrite Hlast in H3.
    assert (Heq : forall i, 0 <= i < epd_size g ->
                    load (current_intensity (after_pass d p)) i
                    = load (next_intensity (after_pass d p)) i).
    { intros i Hi. cbn.
      destruct (Z.eq_dec (load (current_intensity d) i) (load (next_intensity d) i))
        as [E|E].
      - destruct (H4 i Hi E) as (Hc & _). rewrite Hc. exact E.
      - destruct (H3 i Hi E) as (Hc & _). exact Hc. }
    assert (Hstep' : in_step g 0 (with_region u (p_active p)) (after_pass d p)).
    { unfold in_step. cbn. split; [exact H6|].
      split; [lia|]. split; [lia|]. split; [lia|]. split; [exact Hq|].
      intros i Hi Hne. exfalso. apply Hne. apply (Heq i Hi). }
    destruct fuel as [|fuel]; [lia|].
    destruct (immediate_loop_settled g waveform null_frame fuel _ _
                (sent ++ [p_frame p]) (Datatypes.S count) Hg ltac:(lia) Hstep' Heq)
      as (run & Hrun & Hp & Hs & Hfinal).
    exists run. split; [exact Hrun|]. rewrite Hp, Hs, length_app. cbn.
    repeat split; try lia. exact Hfinal.
  - (* an inner step: the pixels in transition move to step [j + 1] *)
    assert (Hlast : (j + 1 =? Z.of_nat (length waveform)) = false)
      by (apply Z.eqb_neq; lia).
    rewrite Hlast in H3.
    assert (Hstep' : in_step g (j + 1) (with_region u (p_active p)) (after_pass d p)).
    { unfold in_step. cbn. split; [exact H6|].
      split; [lia|]. split; [lia|]. split; [lia|]. split; [exact Hq|].
      intros i Hi Hne.
      destruct (Z.eq_dec (load (current_intensity d) i) (load (next_intensity d) i))
        as [E|E].
      - exfalso. apply Hne. destruct (H4 i Hi E) as (Hc & _). rewrite Hc. exact E.
      - destruct (H3 i Hi E) as (_ & Hs & Hin). split; assumption. }
    destruct (IH (j + 1) fuel _ _ (sent ++ [p_frame p]) (Datatypes.S count)
                 ltac:(lia) ltac:(lia) Hstep' ltac:(lia))
      as (run & Hrun & Hp & Hs & Hb & Hfinal).
    exists run. split; [exact Hrun|]. rewrite length_app in Hs, Hb. cbn in Hs, Hb.
    repeat split; try lia. exact Hfinal.
Qed.

Lemma load_replicate (n : nat) (v i : Z) :
  0 <= i < Z.of_nat n -> load (replicate n v) i = v.
Proof.
  intros Hi. unfold load. apply list_lookup_total_correct.
  apply lookup_replicate_2. lia.
Qed.

(** When [generate_immediate] enters its loop, the pixels that differ from
    their target are those the update changes, all at step 0. *)
Lemma generate_immediate_start (g : Geometry) (u : Update) (d : Display) :
  geometry_ok g -> region_within g (region u) ->
  Z.of_nat (length (current_intensity d)) = epd_size g ->
  Z.of_nat (length (waveform_steps d)) = epd_size g ->
  pending_updates d = [] ->
  in_step g 0 u
    (set_next_intensity
       (set_next_intensity
          (set_waveform_steps d (replicate (length (waveform_steps d)) 0))
          (current_intensity d))
       (apply_update u (current_intensity d) (epd_width g))).
Proof.
  intros Hg Hr Hlc Hls Hq.
  pose proof (geometry_ok_width g Hg) as HW.
  unfold in_step. cbn.
  rewrite length_replicate, length_apply_update.
  split; [exact Hr|]. split; [exact Hls|]. split; [exact Hlc|].
  split; [exact Hlc|]. split; [exact Hq|].
  intros i Hi H0. split.
  - pose proof (Z.div_mod i (epd_width g) ltac:(lia)) as Hdm.
    pose proof (Z.mod_pos_bound i (epd_width g) ltac:(lia)) as Hmb.
    assert (Hy : 0 <= i / epd_width g) by (apply Z.div_pos; lia).
    pose proof (apply_update_load g u (current_intensity d) (i mod epd_width g)
                  (i / epd_width g) Hr Hlc Hmb Hy) as Hload.
    replace (i / epd_width g * epd_width g + i mod epd_width g) with i in Hload
      by lia.
    unfold pixel_in.
    destruct (contains (region u) (i mod epd_width g) (i / epd_width g));
      [reflexivity|].
    exfalso. apply H0. symmetry. exact Hload.
  - apply load_replicate. lia.
Qed.




(** * Further properties of the code *)

(** ** [push_update]: the transform of the buffer *)

Lemma index_div_mod (w x y : Z) :
  0 <= x < w -> (y * w + x) / w = y /\ (y * w + x) mod w = x.
Proof.
  intros Hx. rewrite Z.add_comm, Z.div_add, Z.mod_add by lia.
  rewrite Z.div_small, Z.mod_small by lia. split; lia.
Qed.

Lemma length_transform_buffer (r : UpdateRegion) (b : list Z) :
  length (transform_buffer r b) = length b.
Proof.
  unfold transform_buffer. rewrite length_map, length_seqZ. lia.
Qed.

Lemma load_map (f : Z -> Z) (l : list Z) (k : Z) :
  0 <= k < Z.of_nat (length l) -> load (map f l) k = f (load l k).
Proof.
  intros Hk. unfold load.
  destruct (lookup_lt_is_Some_2 l (Z.to_nat k) ltac:(lia)) as [x Hx].
  rewrite (list_lookup_total_correct l _ x Hx).
  apply list_lookup_total_correct.
  change (map f l) with (f <$> l). rewrite list_lookup_fmap, Hx. reflexivity.
Qed.

Lemma load_seqZ (n k : Z) : 0 <= k < n -> load (seqZ 0 n) k = k.
Proof.
  intros Hk. unfold load. rewrite lookup_total_seqZ_lt by lia. lia.
Qed.

(** Each cell of the transformed buffer, as lines 416-420 compute it. *)
Lemma load_transform_buffer (r : UpdateRegion) (b : list Z) (k : Z) :
  0 <= k < Z.of_nat (length b) ->
  load (transform_buffer r b) k =
  Z.land (load b ((height r - k mod height r - 1) * width r
                  + (width r - k / height r - 1)))
         (intensity_values - 1).
Proof.
  intros Hk. unfold transform_buffer.
  rewrite load_map by (rewrite length_seqZ; lia).
  rewrite load_seqZ by lia. reflexivity.
Qed.

Lemma land_mask31 (z : Z) : 0 <= Z.land z 31 < 32 /\ Z.land (Z.land z 31) 31 = Z.land z 31.
Proof.
  change 31 with (Z.ones 5). rewrite !Z.land_ones by lia.
  change (2 ^ 5) with 32. rewrite Z.mod_mod by lia.
  split; [apply Z.mod_pos_bound; lia|reflexivity].
Qed.

(** X1. Whatever the caller passes, the buffer [push_update] builds for the
    queue has the length of the caller's buffer and only holds values from 0
    to 31. *)
Theorem transform_buffer_masks (r : UpdateRegion) (b : list Z) :
  length (transform_buffer r b) = length b /\
  Forall (fun v => 0 <= v < intensity_values) (transform_buffer r b).
Proof.
  split; [apply length_transform_buffer|].
  unfold transform_buffer. apply List.Forall_forall. intros v Hv.
  apply in_map_iff in Hv. destruct Hv as (k & <- & _).
  unfold intensity_values. change (32 - 1) with 31. apply land_mask31.
Qed.

(** X2. The transform is a transposition with both axes flipped: the value
    the caller gives for row [i], column [j] of its region lands, masked to
    five bits, in row [width - 1 - j], column [height - 1 - i] of the queued
    region (whose rows are [height] long). *)
Theorem transform_buffer_pixel (r : UpdateRegion) (b : list Z) (i j : Z) :
  Z.of_nat (length b) = width r * height r ->
  0 <= i < height r -> 0 <= j < width r ->
  load (transform_buffer r b) ((width r - 1 - j) * height r + (height r - 1 - i))
  = Z.land (load b (i * width r + j)) (intensity_values - 1).
Proof.
  intros Hlen Hi Hj.
  rewrite load_transform_buffer by nia.
  destruct (index_div_mod (height r) (height r - 1 - i) (width r - 1 - j)
              ltac:(lia)) as (Hd & Hm).
  rewrite Hd, Hm. do 2 f_equal. lia.
Qed.

Lemma transform_buffer_pixel_witness :
  (Z.of_nat (length buffer_2x3) = width portrait_2x3 * height portrait_2x3 /\
   0 <= 1 < height portrait_2x3 /\ 0 <= 0 < width portrait_2x3) /\
  load (transform_buffer portrait_2x3 buffer_2x3)
       ((width portrait_2x3 - 1 - 0) * height portrait_2x3
        + (height portrait_2x3 - 1 - 1))
  = Z.land (load buffer_2x3 (1 * width portrait_2x3 + 0)) (intensity_values - 1).
Proof.
  assert (Hl : Z.of_nat (length buffer_2x3)
               = width portrait_2x3 * height portrait_2x3) by reflexivity.
  assert (Hi : 0 <= 1 < height portrait_2x3) by (cbn; lia).
  assert (Hj : 0 <= 0 < width portrait_2x3) by (cbn; lia).
  split; [auto|].
  exact (transform_buffer_pixel portrait_2x3 buffer_2x3 1 0 Hl Hi Hj).
Defined.

(** X3. Transforming twice, the second time with the two sizes of the region
    exchanged (as they are in the queued region), gives back the caller's
    buffer with every value masked to five bits. *)
Theorem transform_buffer_round_trip (r : UpdateRegion) (b : list Z) :
  Z.of_nat (length b) = width r * height r ->
  0 <= width r -> 0 <= height r ->
  transform_buffer (transposed r) (transform_buffer r b)
  = map (fun v => Z.land v (intensity_values - 1)) b.
Proof.
  intros Hlen Hw Hh.
  apply load_ext.
  { rewrite !length_transform_buffer, length_map. reflexivity. }
  intros k Hk. rewrite !length_transform_buffer in Hk.
  rewrite load_transform_buffer by (rewrite length_transform_buffer; lia).
  rewrite load_map by lia.
  cbn [width height transposed].
  assert (Hwpos : 0 < width r) by nia.
  assert (Hhpos : 0 < height r) by nia.
  pose proof (Z.div_mod k (width r) ltac:(lia)) as Hdm.
  pose proof (Z.mod_pos_bound k (width r) ltac:(lia)) as Hmb.
  assert (Hq : 0 <= k / width r < height r).
  { split; [apply Z.div_pos; lia|].
    apply Z.div_lt_upper_bound; [lia|]. lia. }
  set (q := k / width r) in *. set (m := k mod width r) in *.
  replace ((width r - m - 1) * height r + (height r - q - 1))
    with ((width r - 1 - m) * height r + (height r - 1 - q)) by lia.
  rewrite load_transform_buffer by nia.
  destruct (index_div_mod (height r) (height r - 1 - q) (width r - 1 - m)
              ltac:(lia)) as (Hd & Hm).
  rewrite Hd, Hm.
  unfold intensity_values. change (32 - 1) with 31.
  rewrite (proj2 (land_mask31 _)). do 2 f_equal. lia.
Qed.

Lemma transform_buffer_round_trip_witness :
  (Z.of_nat (length buffer_2x3) = width portrait_2x3 * height portrait_2x3 /\
   0 <= width portrait_2x3 /\ 0 <= height portrait_2x3) /\
  transform_buffer (transposed portrait_2x3)
                   (transform_buffer portrait_2x3 buffer_2x3)
  = map (fun v => Z.land v (intensity_values - 1)) buffer_2x3.
Proof.
  assert (Hl : Z.of_nat (length buffer_2x3)
               = width portrait_2x3 * height portrait_2x3) by reflexivity.
  assert (Hw : 0 <= width portrait_2x3) by (cbn; lia).
  assert (Hh : 0 <= height portrait_2x3) by (cbn; lia).
  split; [auto|].
  exact (transform_buffer_round_trip portrait_2x3 buffer_2x3 Hl Hw Hh).
Defined.

(** ** [push_update]: what the queue holds *)

(** The accepted case of [push_update], spelled out. *)
Lemma push_update_accepted (g : Geometry) (mode : Z) (immediate : bool)
    (r : UpdateRegion) (buffer : list Z) (d : Display) :
  geometry_ok g -> region_wf r ->
  Z.of_nat (length buffer) = width r * height r ->
  0 < left r + width r <= epd_height g -> 0 < top r + height r <= epd_width g ->
  push_update g mode immediate r buffer d =
  (true,
   {| current_intensity := current_intensity d;
      next_intensity := next_intensity d;
      waveform_steps := waveform_steps d;
      pending_updates :=
        pending_updates d ++
        [ {| ids := [next_update_id d]; mode := mode; immediate := immediate;
             region := transform_region g r;
             buffer := transform_buffer r buffer |} ];
      next_update_id := next_update_id d + 1;
      temperature := temperature d |}).
Proof.
  intros Hg Hwf Hlen HT HL.
  pose proof (geometry_ok_width g Hg) as HW.
  pose proof (geometry_ok_height g Hg) as HH.
  assert (Hsize : epd_width g * epd_height g < 2 ^ 32) by (apply Hg).
  pose proof Hwf as (Ht & Hl & Hw & Hh).
  assert (Hout : out_of_panel g (transform_region g r) = false)
    by (apply (out_of_panel_transform g r Hg Hwf); lia).
  unfold push_update.
  rewrite wrap32_small by nia. rewrite Hlen, Z.eqb_refl, Hout. reflexivity.
Qed.



(** ** From [push_update] to the panel *)



(** ** [merge_updates]: what is merged and what is kept *)

Lemma merge_queue_conserves (g : Geometry) (queue : list Update) :
  forall (u : Update) (d : Display),
  exists merged,
    queue = merged ++ pending_updates (snd (merge_queue g u d queue)) /\
    ids (fst (merge_queue g u d queue)) = ids u ++ concat (map ids merged) /\
    Forall (fun p => same_kind u p = true) merged /\
    next_intensity (snd (merge_queue g u d queue))
    = fold_left (fun a p => apply_update p a (epd_width g)) merged
                (next_intensity d) /\
    region (fst (merge_queue g u d queue))
    = fold_left extend (map region merged) (region u) /\
    (mode (fst (merge_queue g u d queue)) = mode u /\
     immediate (fst (merge_queue g u d queue)) = immediate u /\
     buffer (fst (merge_queue g u d queue)) = buffer u) /\
    (current_intensity (snd (merge_queue g u d queue)) = current_intensity d /\
     waveform_steps (snd (merge_queue g u d queue)) = waveform_steps d /\
     next_update_id (snd (merge_queue g u d queue)) = next_update_id d /\
     temperature (snd (merge_queue g u d queue)) = temperature d).
Proof.
  induction queue as [|p queue IH]; intros u d; cbn [merge_queue].
  - exists []. cbn. rewrite app_nil_r. auto 10.
  - destruct (Sumbool.sumbool_of_bool (same_kind u p)) as [Ek|Ek].
    + pose proof Ek as Ek'. unfold same_kind in Ek'.
      apply andb_true_iff in Ek'. destruct Ek' as (Ei & Em).
      rewrite Ei, Em. cbn [negb orb].
      destruct (immediate u && merge_rejected g d p).
      * exists []. cbn. rewrite app_nil_r. auto 10.
      * destruct (IH (merge_metadata u p)
                     (set_next_intensity d
                        (apply_update p (next_intensity d) (epd_width g))))
          as (merged & Hq & Hids & Hkind & Hnext & Hreg & Hu & Hd).
        exists (p :: merged). cbn [app map concat fold_left].
        split; [f_equal; exact Hq|].
        split; [rewrite Hids; cbn [ids merge_metadata]; apply eq_sym, app_assoc|].
        split.
        { constructor; [exact Ek|exact Hkind]. }
        split; [exact Hnext|]. split; [exact Hreg|].
        split; [exact Hu|exact Hd].
    + assert (E : negb (eqb (immediate u) (immediate p))
                  || negb (mode u =? mode p) = true).
      { unfold same_kind in Ek. apply andb_false_iff in Ek.
        destruct Ek as [-> | ->]; cbn; [reflexivity|apply orb_true_r]. }
      rewrite E. exists []. cbn. rewrite app_nil_r. auto 10.
Qed.

Lemma merge_queue_stops (g : Geometry) (queue : list Update) :
  forall (u : Update) (d : Display),
    match pending_updates (snd (merge_queue g u d queue)) with
    | [] => True
    | p :: _ =>
        same_kind u p = false \/
        (immediate u = true /\
         merge_rejected g (snd (merge_queue g u d queue)) p = true)
    end.
Proof.
  induction queue as [|p queue IH]; intros u d; cbn [merge_queue].
  - exact I.
  - destruct (Sumbool.sumbool_of_bool (same_kind u p)) as [Ek|Ek].
    + pose proof Ek as Ek'. unfold same_kind in Ek'.
      apply andb_true_iff in Ek'. destruct Ek' as (Ei & Em).
      rewrite Ei, Em. cbn [negb orb].
      destruct (Sumbool.sumbool_of_bool (immediate u && merge_rejected g d p))
        as [Er|Er]; rewrite Er.
      * cbn [snd pending_updates set_pending_updates]. right.
        apply andb_true_iff in Er. exact Er.
      * exact (IH (merge_metadata u p) _).
    + assert (E : negb (eqb (immediate u) (immediate p))
                  || negb (mode u =? mode p) = true).
      { unfold same_kind in Ek. apply andb_false_iff in Ek.
        destruct Ek as [-> | ->]; cbn; [reflexivity|apply orb_true_r]. }
      rewrite E. cbn [snd pending_updates set_pending_updates]. left. exact Ek.
Qed.

(** X6. [merge_updates] loses nothing: the queue it leaves is a suffix of the
    one it found, the merged update carries the ids of the updates taken from
    the front in their order after its own, every update taken has the mode
    and the immediate flag of the current one, [next_intensity] is the former
    one with the taken updates applied in queue order and the region the
    former one extended by theirs; the current update's buffer,
    [current_intensity], [waveform_steps] and the id counter are not
    touched. *)
Theorem merge_updates_conserves (g : Geometry) (u : Update) (d : Display) :
  exists merged,
    pending_updates d = merged ++ pending_updates (snd (merge_updates g u d)) /\
    ids (fst (merge_updates g u d)) = ids u ++ concat (map ids merged) /\
    Forall (fun p => same_kind u p = true) merged /\
    next_intensity (snd (merge_updates g u d))
    = fold_left (fun a p => apply_update p a (epd_width g)) merged
                (next_intensity d) /\
    region (fst (merge_updates g u d))
    = fold_left extend (map region merged) (region u) /\
    (mode (fst (merge_updates g u d)) = mode u /\
     immediate (fst (merge_updates g u d)) = immediate u /\
     buffer (fst (merge_updates g u d)) = buffer u) /\
    (current_intensity (snd (merge_updates g u d)) = current_intensity d /\
     waveform_steps (snd (merge_updates g u d)) = waveform_steps d /\
     next_update_id (snd (merge_updates g u d)) = next_update_id d /\
     temperature (snd (merge_updates g u d)) = temperature d).
Proof.
  unfold merge_updates. exact (merge_queue_conserves g (pending_updates d) u d).
Qed.

(** X7. [merge_updates] stops only where it must: the update left at the
    head of the queue, if any, differs from the current one in mode or in
    the immediate flag, or the current update is immediate and the scan of
    the head against the state reached rejects it. For a batch update
    the head therefore always differs in kind. *)
Theorem merge_updates_stops_where_it_must (g : Geometry) (u : Update)
    (d : Display) :
  match pending_updates (snd (merge_updates g u d)) with
  | [] => True
  | p :: _ =>
      same_kind u p = false \/
      (immediate u = true /\
       merge_rejected g (snd (merge_updates g u d)) p = true)
  end.
Proof.
  unfold merge_updates. exact (merge_queue_stops g (pending_updates d) u d).
Qed.

(** ** [generate_batch] with a queue *)

Lemma length_fold_apply (w : Z) (l : list Update) (t : list Z) :
  length (fold_left (fun a p => apply_update p a w) l t) = length t.
Proof.
  revert t. induction l as [|p l IH]; intros t; cbn [fold_left].
  - reflexivity.
  - rewrite IH. apply length_apply_update.
Qed.

Lemma fold_apply_load (g : Geometry) (l : list Update) (t : list Z) (x y : Z) :
  Forall (fun p => region_within g (region p)) l ->
  Z.of_nat (length t) = epd_size g ->
  0 <= x < epd_width g -> 0 <= y ->
  load (fold_left (fun a p => apply_update p a (epd_width g)) l t)
       (y * epd_width g + x)
  = last_writer l x y (load t (y * epd_width g + x)).
Proof.
  intros Hl Hlen Hx Hy. induction l as [|p l IH] using rev_ind.
  - reflexivity.
  - apply Forall_app in Hl. destruct Hl as (Hl & Hp).
    inversion Hp as [|? ? Hp' _]; subst.
    rewrite fold_left_app. cbn [fold_left].
    rewrite (apply_update_load g p _ x y Hp') by
      (try lia; rewrite length_fold_apply; exact Hlen).
    unfold last_writer. rewrite rev_app_distr. cbn [rev app find].
    destruct (contains (region p) x y); [reflexivity|].
    apply IH. exact Hl.
Qed.

(** X8. [generate_batch] with updates waiting: the updates merged are a
    prefix of the queue, and every pixel of the panel ends in
    [current_intensity] with the value of the last update, among the current
    one followed by the merged ones in queue order, whose region contains it;
    a pixel in none of these regions keeps its value. *)
Theorem generate_batch_last_writer_wins (g : Geometry) (table : WaveformTable)
    (null_frame : Frame) (u : Update) (d : Display) :
  region_within g (region u) ->
  Forall (fun p => region_within g (region p)) (pending_updates d) ->
  Z.of_nat (length (current_intensity d)) = epd_size g ->
  exists merged,
    pending_updates d
    = merged ++ pending_updates (snd (generate_batch g table null_frame u d)) /\
    forall x y, 0 <= x < epd_width g -> 0 <= y < epd_height g ->
      load (current_intensity (snd (generate_batch g table null_frame u d)))
           (y * epd_width g + x)
      = last_writer (u :: merged) x y
                    (load (current_intensity d) (y * epd_width g + x)).
Proof.
  intros Hu Hq Hlen. unfold generate_batch, merge_updates.
  cbn [pending_updates set_next_intensity next_intensity].
  set (d1 := set_next_intensity _ _).
  destruct (merge_queue_conserves g (pending_updates d) u d1)
    as (merged & Hpre & _ & _ & Hnext & _).
  destruct (merge_queue g u d1 (pending_updates d)) as [u' d'] eqn:Em.
  cbn [fst snd] in *. cbn [snd pending_updates set_current_intensity
                           current_intensity].
  exists merged. split; [exact Hpre|].
  intros x y Hx Hy. rewrite Hnext.
  unfold d1. cbn [next_intensity set_next_intensity].
  assert (Hm : Forall (fun p => region_within g (region p)) (u :: merged)).
  { constructor; [exact Hu|]. rewrite Hpre in Hq.
    apply Forall_app in Hq. apply Hq. }
  rewrite <- (fold_apply_load g (u :: merged) (current_intensity d) x y Hm Hlen)
    by lia.
  reflexivity.
Qed.

Lemma generate_batch_last_writer_wins_witness :
  (region_within panel_16x2 (region patch) /\
   Forall (fun p => region_within panel_16x2 (region p))
          (pending_updates queued_16x2) /\
   Z.of_nat (length (current_intensity queued_16x2)) = epd_size panel_16x2) /\
  exists merged,
    pending_updates queued_16x2
    = merged ++ pending_updates
                  (snd (generate_batch panel_16x2 (fun _ _ => two_steps) null_16x2
                                       patch queued_16x2)) /\
    load (current_intensity
            (snd (generate_batch panel_16x2 (fun _ _ => two_steps) null_16x2
                                 patch queued_16x2)))
         (1 * epd_width panel_16x2 + 0)
    = last_writer (patch :: merged) 0 1
        (load (current_intensity queued_16x2) (1 * epd_width panel_16x2 + 0)).
Proof.
  assert (Hr : region_within panel_16x2 (region patch))
    by (unfold region_within; cbn; lia).
  assert (Hq : Forall (fun p => region_within panel_16x2 (region p))
                      (pending_updates queued_16x2))
    by (repeat constructor; cbn; lia).
  assert (Hl : Z.of_nat (length (current_intensity queued_16x2))
               = epd_size panel_16x2) by reflexivity.
  split; [auto|].
  destruct (generate_batch_last_writer_wins panel_16x2 (fun _ _ => two_steps)
              null_16x2 patch queued_16x2 Hr Hq Hl) as (merged & Hpre & Hpix).
  exists merged. split; [exact Hpre|].
  apply Hpix; cbn; lia.
Defined.

(** ** [generate_batch]: the cells of the null frame that are kept *)

(** The groups of one row store at [data], [data + 2], ... and nowhere
    else, whatever the pixels are. *)
Lemma batch_groups_frame (matrix : PhaseMatrix) (cur nxt : list Z)
    (r : UpdateRegion) (y sx0 w prev next data : Z) (frame : Frame) :
  0 <= w -> w mod 8 = 0 -> 0 <= data ->
  exists p' n' frame',
    for_loop sx0 (sx0 + w) buf_actual_depth (batch_group matrix cur nxt r y)
             (prev, next, data, frame)
    = (p', n', data + 2 * (w / 8), frame') /\
    length frame' = length frame /\
    forall c, 0 <= c ->
      (forall k, 0 <= k < w / 8 -> c <> data + 2 * k) ->
      load frame' c = load frame c.
Proof.
  intros Hw Hmod Hdata.
  pose (I := fun (sx : Z) (s : Z * Z * Z * Frame) =>
               exists p' n' frame',
                 s = (p', n', data + 2 * ((sx - sx0) / 8), frame') /\
                 length frame' = length frame /\
                 forall c, 0 <= c ->
                   (forall k, 0 <= k < (sx - sx0) / 8 -> c <> data + 2 * k) ->
                   load frame' c = load frame c).
  assert (H : I (sx0 + w)
                (for_loop sx0 (sx0 + w) buf_actual_depth
                   (batch_group matrix cur nxt r y) (prev, next, data, frame))).
  { unfold buf_actual_depth.
    apply for_loop_invariant; [lia|lia| | |].
    - replace (sx0 + w - sx0) with w by lia. exact Hmod.
    - exists prev, next, frame. rewrite Z.sub_diag.
      change (0 / 8) with 0. rewrite Z.mul_0_r, Z.add_0_r. auto.
    - intros sx s Hsx Hm (p' & n' & frame' & -> & Hlen & Hkept).
      unfold I, batch_group.
      destruct (for_loop sx (sx + buf_actual_depth) 1
                  (batch_lane matrix cur nxt r y) (0, p', n'))
        as [[ph p''] n''].
      assert (Hq : (sx + 8 - sx0) / 8 = (sx - sx0) / 8 + 1)
        by (Z.div_mod_to_equations; lia).
      assert (Hq0 : 0 <= (sx - sx0) / 8) by (Z.div_mod_to_equations; lia).
      exists p'', n'', (store frame' (data + 2 * ((sx - sx0) / 8)) ph).
      split; [rewrite Hq; do 2 f_equal; lia|].
      split; [rewrite length_store; exact Hlen|].
      intros c Hc Hne. rewrite load_store_ne; [|lia|exact Hc|].
      + apply Hkept; [exact Hc|]. intros k Hk. apply Hne. lia.
      + intros E. apply (Hne ((sx - sx0) / 8)); lia. }
  destruct H as (p' & n' & frame' & E & Hlen & Hkept).
  exists p', n', frame'.
  replace (sx0 + w - sx0) with w in * by lia. auto.
Qed.

(** The rows store at the same cells, one pitch further for each row. *)
Lemma batch_rows_frame (g : Geometry) (matrix : PhaseMatrix) (cur nxt : list Z)
    (r a : UpdateRegion) (mid y0 h prev next data : Z) (frame : Frame) :
  0 <= h -> 0 <= width a -> width a mod 8 = 0 ->
  0 <= left a + width a < 2 ^ 32 -> 0 <= data ->
  exists p' n' frame',
    for_loop y0 (y0 + h) 1 (batch_row g matrix cur nxt r a mid)
             (prev, next, data, frame)
    = (p', n', data + h * (2 * (width a / 8) + data_row_gap g a), frame') /\
    length frame' = length frame /\
    forall c, 0 <= c ->
      (forall j k, 0 <= j < h -> 0 <= k < width a / 8 ->
                   c <> data + j * (2 * (width a / 8) + data_row_gap g a) + 2 * k) ->
      load frame' c = load frame c.
Proof.
  intros Hh Hw Hmod Hright Hdata.
  set (pitch := 2 * (width a / 8) + data_row_gap g a).
  assert (Hgap : 0 <= data_row_gap g a).
  { unfold data_row_gap. apply Z.div_pos; [|lia].
    unfold wrap32. apply Z.mod_pos_bound. lia. }
  assert (Hw8 : 0 <= width a / 8) by (apply Z.div_pos; lia).
  assert (Hpitch : 0 <= pitch) by (unfold pitch; lia).
  pose (I := fun (y : Z) (s : Z * Z * Z * Frame) =>
               exists p' n' frame',
                 s = (p', n', data + (y - y0) * pitch, frame') /\
                 length frame' = length frame /\
                 forall c, 0 <= c ->
                   (forall j k, 0 <= j < y - y0 -> 0 <= k < width a / 8 ->
                                c <> data + j * pitch + 2 * k) ->
                   load frame' c = load frame c).
  assert (H : I (y0 + h)
                (for_loop y0 (y0 + h) 1 (batch_row g matrix cur nxt r a mid)
                          (prev, next, data, frame))).
  { apply for_loop_invariant1; [lia| |].
    - exists prev, next, frame. rewrite Z.sub_diag, Z.mul_0_l, Z.add_0_r. auto.
    - intros y s Hy (p' & n' & frame' & -> & Hlen & Hkept).
      unfold I, batch_row.
      rewrite (wrap32_small (left a + width a)) by lia.
      destruct (batch_groups_frame matrix cur nxt r y (left a) (width a) p' n'
                  (data + (y - y0) * pitch) frame' Hw Hmod ltac:(nia))
        as (p1 & n1 & frame1 & -> & Hlen1 & Hkept1).
      exists (p1 + mid), (n1 + mid), frame1.
      split; [do 2 f_equal; unfold pitch; lia|].
      split; [rewrite Hlen1; exact Hlen|].
      intros c Hc Hne. rewrite Hkept1; [|exact Hc|].
      + apply Hkept; [exact Hc|]. intros j k Hj Hk. apply Hne; lia.
      + intros k Hk. apply Hne; lia. }
  destruct H as (p' & n' & frame' & E & Hlen & Hkept).
  exists p', n', frame'.
  replace (y0 + h - y0) with h in * by lia. auto.
Qed.

(** A frame of [generate_batch] differs from the null frame at most in the
    cells of the groups of the aligned region. *)
Lemma batch_frame_untouched (g : Geometry) (cur nxt : list Z) (r : UpdateRegion)
    (null_frame : Frame) (matrix : PhaseMatrix) :
  geometry_ok g -> frame_layout_ok g null_frame -> region_within g r ->
  length (batch_frame g cur nxt r null_frame matrix) = length null_frame /\
  forall c, 0 <= c ->
    (forall y sx,
        top (align_region r) <= y < top (align_region r) + height (align_region r) ->
        left (align_region r) <= sx < left (align_region r) + width (align_region r) ->
        c <> group_cell g y sx) ->
    load (batch_frame g cur nxt r null_frame matrix) c = load null_frame c.
Proof.
  intros Hg Hlayout Hr.
  destruct (align_region_within g r Hg Hr)
    as (Ha & Hta & Hha & Hl8 & Hw8 & Hla & Hra).
  set (a := align_region r) in *.
  pose proof Hr as (Ht & Hl & Hw & Hh & Hright & Hbottom).
  pose proof Ha as (_ & Hal & Haw & _ & Haright & _).
  pose proof (geometry_ok_width g Hg) as HW.
  pose proof (geometry_ok_height g Hg) as HH.
  assert (Hsize : epd_width g * epd_height g < 2 ^ 32) by apply Hg.
  assert (HW8 : epd_width g mod 8 = 0) by apply Hg.
  pose proof Hlayout as (Hmt & Hml & Hbw & Hbh & Hstride & Hlen).
  unfold buf_actual_depth in Hbw.
  assert (Hq : 0 <= width a / 8 <= epd_width g / 8)
    by (Z.div_mod_to_equations; lia).
  assert (Hgap : data_row_gap g a = 2 * buf_width g - 2 * (width a / 8)).
  { unfold data_row_gap, buf_actual_depth, buf_depth.
    unfold buf_stride, buf_depth in *.
    rewrite (wrap32_small (width a / 8 * 4)) by lia.
    rewrite wrap32_small by lia.
    replace (buf_width g * 4 - width a / 8 * 4)
      with ((2 * buf_width g - 2 * (width a / 8)) * 2) by lia.
    apply Z.div_mul. lia. }
  assert (Hstart : data_start g a = group_cell g (top a) (left a)) by reflexivity.
  assert (Hstart0 : 0 <= data_start g a).
  { rewrite Hstart, group_cell_eq.
    assert (0 <= left a / 8) by (apply Z.div_pos; lia). nia. }
  unfold batch_frame. fold a.
  rewrite (wrap32_small (top a + height a)) by lia.
  destruct (batch_rows_frame g matrix cur nxt r a (wrap32 (epd_width g - width r))
              (top a) (height a)
              (wrap32 (top r * epd_width g + left r))
              (wrap32 (top r * epd_width g + left r))
              (data_start g a) null_frame)
    as (p' & n' & frame' & -> & Hlen' & Hkept); try lia.
  split; [exact Hlen'|].
  intros c Hc Hne. apply Hkept; [exact Hc|].
  intros j k Hj Hk.
  assert (E : data_start g a + j * (2 * (width a / 8) + data_row_gap g a) + 2 * k
              = group_cell g (top a + j) (left a + 8 * k)).
  { rewrite Hstart, Hgap, !group_cell_eq.
    assert (Hdiv : (left a + 8 * k) / 8 = left a / 8 + k)
      by (Z.div_mod_to_equations; lia).
    rewrite Hdiv. lia. }
  rewrite E. apply Hne; [lia|].
  Z.div_mod_to_equations. lia.
Qed.

(** X9. Every frame of [generate_batch] has the length of the null frame and
    differs from it at most in the cells of the groups of the aligned merged
    region; in particular no cell of odd index, where the null frame holds
    the control bytes, is ever written. *)
Theorem generate_batch_keeps_null_frame (g : Geometry) (table : WaveformTable)
    (null_frame : Frame) (u : Update) (d : Display) (frame : Frame) :
  geometry_ok g -> frame_layout_ok g null_frame ->
  region_within g (region u) ->
  Forall (fun p => region_within g (region p)) (pending_updates d) ->
  In frame (batch_frames g table null_frame u d) ->
  length (batch_frames g table null_frame u d)
  = length (table (mode u) (temperature d)) /\
  length frame = length null_frame /\
  (forall c, 0 <= c ->
     (forall y sx,
        top (align_region (region (batch_update g table null_frame u d))) <= y
          < top (align_region (region (batch_update g table null_frame u d)))
            + height (align_region (region (batch_update g table null_frame u d))) ->
        left (align_region (region (batch_update g table null_frame u d))) <= sx
          < left (align_region (region (batch_update g table null_frame u d)))
            + width (align_region (region (batch_update g table null_frame u d))) ->
        c <> group_cell g y sx) ->
     load frame c = load null_frame c) /\
  (forall c, 0 <= c -> Z.odd c = true -> load frame c = load null_frame c).
Proof.
  intros Hg Hlayout Hu Hq.
  unfold batch_update, batch_frames, generate_batch.
  unfold merge_updates. cbn [pending_updates set_next_intensity].
  set (d1 := set_next_intensity _ _).
  pose proof (merge_queue_invariants g (pending_updates d) u d1 Hu Hq)
    as (Hr & _ & _).
  destruct (merge_queue g u d1 (pending_updates d)) as [u' d'] eqn:Em.
  cbn [fst snd] in *.
  intros Hin. split; [apply length_map|].
  apply in_map_iff in Hin. destruct Hin as (matrix & <- & _).
  destruct (batch_frame_untouched g (current_intensity d') (next_intensity d')
              (region u') null_frame matrix Hg Hlayout Hr) as (Hlen & Hkept).
  split; [exact Hlen|]. split; [exact Hkept|].
  intros c Hc Hodd. apply Hkept; [exact Hc|].
  intros y sx _ _ E. rewrite group_cell_eq in E.
  rewrite E, Z.odd_mul in Hodd. discriminate Hodd.
Qed.

Lemma generate_batch_keeps_null_frame_witness :
  (geometry_ok panel_16x2 /\ frame_layout_ok panel_16x2 null_16x2 /\
   region_within panel_16x2 (region patch) /\
   Forall (fun p => region_within panel_16x2 (region p))
          (pending_updates idle_16x2) /\
   In patch_frame
      (batch_frames panel_16x2 (fun _ _ => two_steps) null_16x2 patch idle_16x2)) /\
  length patch_frame = length null_16x2 /\
  load patch_frame 9 = load null_16x2 9.
Proof.
  assert (Hr : region_within panel_16x2 (region patch))
    by (unfold region_within; cbn; lia).
  assert (Hq : Forall (fun p => region_within panel_16x2 (region p))
                      (pending_updates idle_16x2)) by constructor.
  assert (Hin : In patch_frame
                   (batch_frames panel_16x2 (fun _ _ => two_steps) null_16x2 patch
                                 idle_16x2))
    by (vm_compute; left; reflexivity).
  split.
  { split; [exact panel_16x2_ok|]. split; [exact panel_16x2_layout|].
    split; [exact Hr|]. split; [exact Hq|exact Hin]. }
  destruct (generate_batch_keeps_null_frame panel_16x2 (fun _ _ => two_steps)
              null_16x2 patch idle_16x2 patch_frame panel_16x2_ok
              panel_16x2_layout Hr Hq Hin) as (_ & Hlen & _ & Hodd).
  split; [exact Hlen|].
  apply Hodd; [lia|reflexivity].
Defined.

(** ** [generate_immediate]: the state it leaves and the frames it sends *)

Lemma immediate_loop_settled_exact (g : Geometry) (waveform : Waveform)
    (null_frame : Frame) (fuel : nat) (u : Update) (d : Display)
    (sent : list Frame) (count n : nat) :
  geometry_ok g -> (0 < length waveform)%nat ->
  in_step g 0 u d -> rested g d ->
  (forall i, 0 <= i < epd_size g ->
             load (current_intensity d) i = load (next_intensity d) i) ->
  exists run,
    immediate_loop g waveform null_frame (Datatypes.S fuel) [] u d sent count
    = Some run /\
    run_settles g d sent count n run.
Proof.
  intros Hg Hwf (Hr & Hls & Hlc & Hln & Hq & Hdiff) Hz Heq.
  rewrite (immediate_loop_idle g waveform null_frame fuel u d sent count Hq).
  destruct (immediate_pass_spec g waveform (next_intensity d) (waveform_steps d)
              (current_intensity d) (region u) 0 Hg Hr Hls Hlc ltac:(lia) Hdiff
              null_frame d eq_refl eq_refl eq_refl)
    as (H1 & H2 & _ & H4 & H5 & _).
  rewrite (proj2 H5 Heq).
  eexists. split; [reflexivity|]. unfold run_settles. cbn.
  split; [reflexivity|]. split.
  { apply load_ext; [lia|].
    intros i Hi. rewrite H2 in Hi.
    destruct (H4 i ltac:(lia) (Heq i ltac:(lia))) as (Hc & _).
    rewrite Hc. apply Heq. lia. }
  split; [lia|]. split.
  { intros i Hi. destruct (H4 i Hi (Heq i Hi)) as (_ & Hs).
    rewrite Hs. apply Hz; [exact Hi|apply Heq; exact Hi]. }
  split; [exact Hq|]. split; [auto|].
  intros i Hi Hne. exfalso. apply Hne, Heq, Hi.
Qed.

Lemma immediate_loop_exact (g : Geometry) (waveform : Waveform)
    (null_frame : Frame) :
  geometry_ok g ->
  forall (n : nat) (j : Z) (fuel : nat) (u : Update) (d : Display)
         (sent : list Frame) (count : nat),
    Z.of_nat n = Z.of_nat (length waveform) - j - 1 -> 0 <= j ->
    in_step g j u d -> rested g d -> (n + 2 <= fuel)%nat ->
    exists run,
      immediate_loop g waveform null_frame fuel [] u d sent count = Some run /\
      run_settles g d sent count n run /\
      forall Q : Frame -> Prop,
        (forall r d', region_within g r ->
                      Q (p_frame (immediate_pass g waveform null_frame r d'))) ->
        Forall Q sent -> Forall Q (sent_frames run).
Proof.
  intros Hg. induction n as [|n IH];
    intros j fuel u d sent count Hn Hj0 Hstep Hz Hfuel.
  all: destruct fuel as [|fuel]; [lia|].
  all: pose proof Hstep as (Hr & Hls & Hlc & Hln & Hq & Hdiff).
  all: destruct (immediate_pass_spec g waveform (next_intensity d) (waveform_steps d)
                   (current_intensity d) (region u) j Hg Hr Hls Hlc ltac:(lia) Hdiff
                   null_frame d eq_refl eq_refl eq_refl)
         as (H1 & H2 & H3 & H4 & H5 & H6).
  all: set (p := immediate_pass g waveform null_frame (region u) d) in *.
  all: destruct (p_finished p) eqn:Ef.
  1,3: assert (Hstep0 : in_step g 0 u d)
         by (unfold in_step; split; [exact Hr|]; split; [exact Hls|];
             split; [exact Hlc|]; split; [exact Hln|]; split; [exact Hq|];
             intros i Hi Hne; exfalso; apply Hne; exact (proj1 H5 eq_refl i Hi));
       match goal with
       | |- exists run, _ /\ run_settles _ _ _ _ ?m run /\ _ =>
           destruct (immediate_loop_settled_exact g waveform null_frame fuel u d
                       sent count m Hg ltac:(lia) Hstep0 Hz (proj1 H5 eq_refl))
             as (run & Hrun & Hset)
       end;
       exists run; split; [exact Hrun|]; split; [exact Hset|];
       intros Q _ Hsent;
       destruct Hset as (_ & _ & _ & _ & _ & Hnone & _);
       destruct (Hnone (proj1 H5 eq_refl)) as (-> & _); exact Hsent.
  all: rewrite (immediate_loop_idle g waveform null_frame fuel u d sent count Hq).
  all: fold p; rewrite Ef.
  - (* the last step of the waveform: every pixel reaches its target *)
    assert (Hlast : (j + 1 =? Z.of_nat (length waveform)) = true)
      by (apply Z.eqb_eq; lia).
    rewrite Hlast in H3.
    assert (Heq : forall i, 0 <= i < epd_size g ->
                    load (current_intensity (after_pass d p)) i
                    = load (next_intensity (after_pass d p)) i).
    { intros i Hi. cbn.
      destruct (Z.eq_dec (load (current_intensity d) i) (load (next_intensity d) i))
        as [E|E].
      - destruct (H4 i Hi E) as (Hc & _). rewrite Hc. exact E.
      - destruct (H3 i Hi E) as (Hc & _). exact Hc. }
    assert (Hstep' : in_step g 0 (with_region u (p_active p)) (after_pass d p)).
    { unfold in_step. cbn. split; [exact H6|].
      split; [lia|]. split; [lia|]. split; [lia|]. split; [exact Hq|].
      intros i Hi Hne. exfalso. apply Hne. apply (Heq i Hi). }
    assert (Hz' : rested g (after_pass d p)).
    { intros i Hi _. cbn.
      destruct (Z.eq_dec (load (current_intensity d) i) (load (next_intensity d) i))
        as [E|E].
      - destruct (H4 i Hi E) as (_ & Hs). rewrite Hs. apply Hz; assumption.
      - destruct (H3 i Hi E) as (_ & Hs & _). exact Hs. }
    destruct fuel as [|fuel]; [lia|].
    destruct (immediate_loop_settled_exact g waveform null_frame fuel _ _
                (sent ++ [p_frame p]) (Datatypes.S count) 0 Hg ltac:(lia)
                Hstep' Hz' Heq)
      as (run & Hrun & Hnext & Hcur & Hlen & Hzero & Hpend & Hnone & _).
    exists run. split; [exact Hrun|].
    destruct (Hnone Heq) as (Hs & Hp).
    split.
    + unfold run_settles.
      split; [exact Hnext|]. split; [exact Hcur|]. split; [exact Hlen|].
      split; [exact Hzero|]. split; [exact Hpend|]. split.
      * intros Hall. exfalso.
        pose proof (proj2 H5 Hall) as Hfin. discriminate Hfin.
      * intros i Hi Hne. rewrite Hs, Hp, length_app. cbn. lia.
    + intros Q HQ Hsent. rewrite Hs. apply Forall_app. split; [exact Hsent|].
      constructor; [|constructor]. apply HQ. exact Hr.
  - (* an inner step: the pixels in transition move to step [j + 1] *)
    assert (Hlast : (j + 1 =? Z.of_nat (length waveform)) = false)
      by (apply Z.eqb_neq; lia).
    rewrite Hlast in H3.
    assert (Hstep' : in_step g (j + 1) (with_region u (p_active p)) (after_pass d p)).
    { unfold in_step. cbn. split; [exact H6|].
      split; [lia|]. split; [lia|]. split; [lia|]. split; [exact Hq|].
      intros i Hi Hne.
      destruct (Z.eq_dec (load (current_intensity d) i) (load (next_intensity d) i))
        as [E|E].
      - exfalso. apply Hne. destruct (H4 i Hi E) as (Hc & _). rewrite Hc. exact E.
      - destruct (H3 i Hi E) as (_ & Hs & Hin). split; assumption. }
    assert (Hz' : rested g (after_pass d p)).
    { intros i Hi Heq'. cbn in Heq' |- *.
      destruct (Z.eq_dec (load (current_intensity d) i) (load (next_intensity d) i))
        as [E|E].
      - destruct (H4 i Hi E) as (_ & Hs). rewrite Hs. apply Hz; assumption.
      - exfalso. destruct (H3 i Hi E) as (Hc & _). rewrite Hc in Heq'.
        exact (E Heq'). }
    destruct (IH (j + 1) fuel _ _ (sent ++ [p_frame p]) (Datatypes.S count)
                 ltac:(lia) ltac:(lia) Hstep' Hz' ltac:(lia))
      as (run & Hrun & (Hnext & Hcur & Hlen & Hzero & Hpend & _ & Hsome) & Hall').
    exists run. split; [exact Hrun|]. split.
    + unfold run_settles.
      split; [exact Hnext|]. split; [exact Hcur|]. split; [exact Hlen|].
      split; [exact Hzero|]. split; [exact Hpend|]. split.
      * intros Hall. exfalso.
        pose proof (proj2 H5 Hall) as Hfin. discriminate Hfin.
      * intros i Hi Hne.
        assert (Hne' : load (current_intensity (after_pass d p)) i
                       <> load (next_intensity (after_pass d p)) i).
        { cbn. destruct (H3 i Hi Hne) as (Hc & _). rewrite Hc. exact Hne. }
        destruct (Hsome i Hi Hne') as (Hs & Hp).
        rewrite Hs, Hp, length_app. cbn. lia.
    + intros Q HQ Hsent. apply Hall'; [exact HQ|].
      apply Forall_app. split; [exact Hsent|].
      constructor; [|constructor]. apply HQ. exact Hr.
Qed.



(** ** [generate_immediate]: the cells of the null frame that are kept *)

Lemma immediate_groups_frame (waveform : Waveform) (nxt : list Z)
    (r : UpdateRegion) (y sx0 w : Z) (p : Pass) :
  0 <= w -> w mod 8 = 0 -> 0 <= p_data p ->
  p_data (for_loop sx0 (sx0 + w) buf_actual_depth
                   (immediate_group waveform nxt r y) p)
  = p_data p + 2 * (w / 8) /\
  length (p_frame (for_loop sx0 (sx0 + w) buf_actual_depth
                            (immediate_group waveform nxt r y) p))
  = length (p_frame p) /\
  forall c, 0 <= c ->
    (forall k, 0 <= k < w / 8 -> c <> p_data p + 2 * k) ->
    load (p_frame (for_loop sx0 (sx0 + w) buf_actual_depth
                            (immediate_group waveform nxt r y) p)) c
    = load (p_frame p) c.
Proof.
  intros Hw Hmod Hdata.
  pose (I := fun (sx : Z) (p' : Pass) =>
               p_data p' = p_data p + 2 * ((sx - sx0) / 8) /\
               length (p_frame p') = length (p_frame p) /\
               forall c, 0 <= c ->
                 (forall k, 0 <= k < (sx - sx0) / 8 -> c <> p_data p + 2 * k) ->
                 load (p_frame p') c = load (p_frame p) c).
  assert (H : I (sx0 + w)
                (for_loop sx0 (sx0 + w) buf_actual_depth
                          (immediate_group waveform nxt r y) p)).
  { unfold buf_actual_depth.
    apply for_loop_invariant; [lia|lia| | |].
    - replace (sx0 + w - sx0) with w by lia. exact Hmod.
    - unfold I. rewrite Z.sub_diag.
      change (0 / 8) with 0. rewrite Z.mul_0_r, Z.add_0_r. auto.
    - intros sx p' Hsx Hm (Hd & Hlen & Hkept).
      destruct (immediate_group_frame waveform nxt r y sx p') as (Hd' & Hf').
      assert (Hq : (sx + 8 - sx0) / 8 = (sx - sx0) / 8 + 1)
        by (Z.div_mod_to_equations; lia).
      assert (Hq0 : 0 <= (sx - sx0) / 8) by (Z.div_mod_to_equations; lia).
      unfold I. rewrite Hd', Hf', Hq, Hd.
      split; [lia|]. split; [rewrite length_store; exact Hlen|].
      intros c Hc Hne. rewrite load_store_ne; [|lia|exact Hc|].
      + apply Hkept; [exact Hc|]. intros k Hk. apply Hne. lia.
      + intros E. apply (Hne ((sx - sx0) / 8)); lia. }
  unfold I in H. replace (sx0 + w - sx0) with w in H by lia. exact H.
Qed.

Lemma immediate_rows_frame (g : Geometry) (waveform : Waveform) (nxt : list Z)
    (r a : UpdateRegion) (mid y0 h : Z) (p : Pass) :
  0 <= h -> 0 <= width a -> width a mod 8 = 0 ->
  0 <= left a + width a < 2 ^ 32 -> 0 <= p_data p ->
  length (p_frame (for_loop y0 (y0 + h) 1
                            (immediate_row g waveform nxt r a mid) p))
  = length (p_frame p) /\
  forall c, 0 <= c ->
    (forall j k, 0 <= j < h -> 0 <= k < width a / 8 ->
       c <> p_data p + j * (2 * (width a / 8) + data_row_gap g a) + 2 * k) ->
    load (p_frame (for_loop y0 (y0 + h) 1
                            (immediate_row g waveform nxt r a mid) p)) c
    = load (p_frame p) c.
Proof.
  intros Hh Hw Hmod Hright Hdata.
  set (pitch := 2 * (width a / 8) + data_row_gap g a).
  assert (Hgap : 0 <= data_row_gap g a).
  { unfold data_row_gap. apply Z.div_pos; [|lia].
    unfold wrap32. apply Z.mod_pos_bound. lia. }
  assert (Hw8 : 0 <= width a / 8) by (apply Z.div_pos; lia).
  assert (Hpitch : 0 <= pitch) by (unfold pitch; lia).
  pose (I := fun (y : Z) (p' : Pass) =>
               p_data p' = p_data p + (y - y0) * pitch /\
               length (p_frame p') = length (p_frame p) /\
               forall c, 0 <= c ->
                 (forall j k, 0 <= j < y - y0 -> 0 <= k < width a / 8 ->
                              c <> p_data p + j * pitch + 2 * k) ->
                 load (p_frame p') c = load (p_frame p) c).
  assert (H : I (y0 + h)
                (for_loop y0 (y0 + h) 1 (immediate_row g waveform nxt r a mid) p)).
  { apply for_loop_invariant1; [lia| |].
    - unfold I. rewrite Z.sub_diag, Z.mul_0_l, Z.add_0_r. auto.
    - intros y p' Hy (Hd & Hlen & Hkept).
      unfold I, immediate_row. cbn [p_data p_frame].
      rewrite (wrap32_small (left a + width a)) by lia.
      destruct (immediate_groups_frame waveform nxt r y (left a) (width a) p'
                  Hw Hmod ltac:(nia)) as (Hd1 & Hlen1 & Hkept1).
      rewrite Hd1, Hlen1, Hd.
      split; [unfold pitch; lia|]. split; [exact Hlen|].
      intros c Hc Hne. rewrite Hkept1; [|exact Hc|].
      + apply Hkept; [exact Hc|]. intros j k Hj Hk. apply Hne; lia.
      + intros k Hk. rewrite Hd. apply Hne; lia. }
  unfold I in H. replace (y0 + h - y0) with h in H by lia.
  destruct H as (_ & Hlen & Hkept). auto.
Qed.

(** A frame of [generate_immediate] differs from the null frame at most in
    the cells of the groups of the aligned region. *)
Lemma immediate_frame_untouched (g : Geometry) (waveform : Waveform)
    (null_frame : Frame) (r : UpdateRegion) (d : Display) :
  geometry_ok g -> frame_layout_ok g null_frame -> region_within g r ->
  length (p_frame (immediate_pass g waveform null_frame r d)) = length null_frame /\
  forall c, 0 <= c ->
    (forall y sx,
        top (align_region r) <= y < top (align_region r) + height (align_region r) ->
        left (align_region r) <= sx < left (align_region r) + width (align_region r) ->
        c <> group_cell g y sx) ->
    load (p_frame (immediate_pass g waveform null_frame r d)) c = load null_frame c.
Proof.
  intros Hg Hlayout Hr.
  destruct (align_region_within g r Hg Hr)
    as (Ha & Hta & Hha & Hl8 & Hw8 & Hla & Hra).
  set (a := align_region r) in *.
  pose proof Hr as (Ht & Hl & Hw & Hh & Hright & Hbottom).
  pose proof Ha as (_ & Hal & Haw & _ & Haright & _).
  pose proof (geometry_ok_width g Hg) as HW.
  pose proof (geometry_ok_height g Hg) as HH.
  assert (HW8 : epd_width g mod 8 = 0) by apply Hg.
  pose proof Hlayout as (Hmt & Hml & Hbw & Hbh & Hstride & Hlen).
  unfold buf_actual_depth in Hbw.
  assert (Hq : 0 <= width a / 8 <= epd_width g / 8)
    by (Z.div_mod_to_equations; lia).
  assert (Hgap : data_row_gap g a = 2 * buf_width g - 2 * (width a / 8)).
  { unfold data_row_gap, buf_actual_depth, buf_depth.
    unfold buf_stride, buf_depth in *.
    rewrite (wrap32_small (width a / 8 * 4)) by lia.
    rewrite wrap32_small by lia.
    replace (buf_width g * 4 - width a / 8 * 4)
      with ((2 * buf_width g - 2 * (width a / 8)) * 2) by lia.
    apply Z.div_mul. lia. }
  assert (Hstart : data_start g a = group_cell g (top a) (left a)) by reflexivity.
  assert (Hstart0 : 0 <= data_start g a).
  { rewrite Hstart, group_cell_eq.
    assert (0 <= left a / 8) by (apply Z.div_pos; lia). nia. }
  unfold immediate_pass. fold a.
  rewrite (wrap32_small (top a + height a)) by lia.
  set (p0 := {| p_steps := waveform_steps d; p_current := current_intensity d;
                p_finished := true; p_active := empty_region;
                p_step := wrap32 (top r * epd_width g + left r);
                p_prev := wrap32 (top r * epd_width g + left r);
                p_next := wrap32 (top r * epd_width g + left r);
                p_data := data_start g a; p_frame := null_frame |}).
  destruct (immediate_rows_frame g waveform (next_intensity d) r a
              (wrap32 (epd_width g - width r)) (top a) (height a) p0)
    as (Hlen' & Hkept); try (cbn [p0 p_data]; lia).
  split; [exact Hlen'|].
  intros c Hc Hne. rewrite Hkept; [reflexivity|exact Hc|].
  intros j k Hj Hk. cbn [p0 p_data].
  assert (E : data_start g a + j * (2 * (width a / 8) + data_row_gap g a) + 2 * k
              = group_cell g (top a + j) (left a + 8 * k)).
  { rewrite Hstart, Hgap, !group_cell_eq.
    assert (Hdiv : (left a + 8 * k) / 8 = left a / 8 + k)
      by (Z.div_mod_to_equations; lia).
    rewrite Hdiv. lia. }
  rewrite E. apply Hne; [lia|].
  Z.div_mod_to_equations. lia.
Qed.

(** X11. With no update arriving, every frame [generate_immediate] sends
    has the length of the null frame and the null frame's content in every
    cell of odd index, where the control bytes are. *)
Theorem generate_immediate_keeps_null_frame (g : Geometry)
    (table : WaveformTable) (null_frame : Frame) (fuel : nat) (u : Update)
    (d : Display) :
  geometry_ok g -> frame_layout_ok g null_frame ->
  region_within g (region u) ->
  Z.of_nat (length (current_intensity d)) = epd_size g ->
  Z.of_nat (length (waveform_steps d)) = epd_size g ->
  pending_updates d = [] ->
  (0 < length (table (mode u) (temperature d)))%nat ->
  (length (table (mode u) (temperature d)) + 1 <= fuel)%nat ->
  exists run,
    generate_immediate g table null_frame fuel [] u d = Some run /\
    Forall (fun frame =>
              length frame = length null_frame /\
              forall c, 0 <= c -> Z.odd c = true ->
                        load frame c = load null_frame c)
           (sent_frames run).
Proof.
  intros Hg Hlayout Hr Hlc Hls Hq Hwf Hfuel. unfold generate_immediate.
  set (waveform := table (mode u) (temperature d)) in *.
  pose proof (generate_immediate_start g u d Hg Hr Hlc Hls Hq) as Hstart.
  set (d0 := set_next_intensity _ _) in *.
  assert (Hz : rested g d0).
  { intros i Hi _. unfold d0. cbn. apply load_replicate. lia. }
  destruct (immediate_loop_exact g waveform null_frame Hg
              (length waveform - 1) 0 fuel u d0 [] 0%nat
              ltac:(lia) ltac:(lia) Hstart Hz ltac:(lia))
    as (run & Hrun & _ & Hall).
  exists run. split; [exact Hrun|].
  apply Hall; [|constructor].
  intros r d' Hr'.
  destruct (immediate_frame_untouched g waveform null_frame r d' Hg Hlayout Hr')
    as (Hlen & Hkept).
  split; [exact Hlen|].
  intros c Hc Hodd. apply Hkept; [exact Hc|].
  intros y sx _ _ E. rewrite group_cell_eq in E.
  rewrite E, Z.odd_mul in Hodd. discriminate Hodd.
Qed.

Lemma generate_immediate_keeps_null_frame_witness :
  (geometry_ok panel_16x2 /\ frame_layout_ok panel_16x2 null_16x2 /\
   region_within panel_16x2 (region stroke) /\
   Z.of_nat (length (current_intensity idle_16x2)) = epd_size panel_16x2 /\
   Z.of_nat (length (waveform_steps idle_16x2)) = epd_size panel_16x2 /\
   pending_updates idle_16x2 = [] /\
   (0 < length two_steps)%nat /\ (length two_steps + 1 <= 3)%nat) /\
  exists run,
    generate_immediate panel_16x2 (fun _ _ => two_steps) null_16x2 3 [] stroke
                       idle_16x2 = Some run /\
    Forall (fun frame =>
              length frame = length null_16x2 /\
              forall c, 0 <= c -> Z.odd c = true ->
                        load frame c = load null_16x2 c)
           (sent_frames run).
Proof.
  assert (Hr : region_within panel_16x2 (region stroke))
    by (unfold region_within; cbn; lia).
  assert (Hlc : Z.of_nat (length (current_intensity idle_16x2)) = epd_size panel_16x2)
    by reflexivity.
  assert (Hls : Z.of_nat (length (waveform_steps idle_16x2)) = epd_size panel_16x2)
    by reflexivity.
  assert (Hq : pending_updates idle_16x2 = []) by reflexivity.
  assert (Hwf : (0 < length two_steps)%nat) by (cbn; lia).
  assert (Hfuel : (length two_steps + 1 <= 3)%nat) by (cbn; lia).
  split; [auto 10 using panel_16x2_ok, panel_16x2_layout|].
  exact (generate_immediate_keeps_null_frame panel_16x2 (fun _ _ => two_steps)
           null_16x2 3 stroke idle_16x2 panel_16x2_ok panel_16x2_layout Hr Hlc Hls
           Hq Hwf Hfuel).
Defined.

(** ** [run_vsync_thread]: copies and flips *)

Lemma set_power_flip (g : Geometry) (want : bool) (ret : Z) (v : Vsync)
    (first : bool) :
  fold_left (flip_step g) (fst (set_power want ret v)) (Ready first) = Ready first /\
  first_frame (snd (set_power want ret v)) = first_frame v.
Proof. unfold set_power. destruct (negb _); split; reflexivity. Qed.

Lemma copy_frames_flip (g : Geometry) (frames : list Frame) :
  forall (rets : list Z) (v : Vsync) events v' ok,
    copy_frames g frames rets v = (events, v', ok) ->
    fold_left (flip_step g) events (Ready (first_frame v))
    = if ok then Ready (first_frame v') else Ended.
Proof.
  induction frames as [|frame frames IH]; intros rets v events v' ok.
  - cbn. intros [= <- <- <-]. reflexivity.
  - cbn [copy_frames].
    assert (Hn : 0 <= (next_frame v + 1) mod 2 < 2)
      by (apply Z.mod_pos_bound; lia).
    set (page := (next_frame v + 1) mod 2) in *.
    assert (Hpage : ((page * buf_frame g =? 0) && (page * buf_height g =? 0))
                    || ((page * buf_frame g =? buf_frame g)
                        && (page * buf_height g =? buf_height g)) = true).
    { assert (Hp : page = 0 \/ page = 1) by lia. destruct Hp as [-> | ->].
      - rewrite !Z.mul_0_l. reflexivity.
      - rewrite !Z.mul_1_l, !Z.eqb_refl. apply orb_true_r. }
    assert (Hreq : (match (if first_frame v then FBIOPUT_VSCREENINFO
                           else FBIOPAN_DISPLAY) with
                    | FBIOPUT_VSCREENINFO => first_frame v
                    | FBIOPAN_DISPLAY => negb (first_frame v)
                    end) = true)
      by (destruct (first_frame v); reflexivity).
    destruct (hd 0 rets =? -1) eqn:Eret.
    + intros [= <- <- <-]. cbn [fold_left flip_step].
      rewrite Hpage, Hreq, Eret. reflexivity.
    + destruct (copy_frames g frames (tl rets) _) as [[events' v''] ok'] eqn:E.
      intros [= <- <- <-].
      apply IH in E. cbn [first_frame] in E.
      cbn [app fold_left flip_step]. rewrite Hpage, Hreq, Eret. cbn [andb].
      exact E.
Qed.

Lemma vsync_round_flip (g : Geometry) (r : Round) (v : Vsync) events v' ok :
  vsync_round g r v = (events, v', ok) ->
  flip_accepted (fold_left (flip_step g) events (Ready (first_frame v))) = true /\
  (ok = true ->
   fold_left (flip_step g) events (Ready (first_frame v)) = Ready (first_frame v')).
Proof.
  unfold vsync_round.
  set (waited :=
         if timed_out r
         then let '(off, v0) := set_power false (blank_off_ret r) v in
              ([WaitFor false] ++ off ++ [Wait], v0)
         else ([WaitFor true], v)).
  assert (Hw : fold_left (flip_step g) (fst waited) (Ready (first_frame v))
               = Ready (first_frame v) /\
               first_frame (snd waited) = first_frame v).
  { subst waited. destruct (timed_out r); [|split; reflexivity].
    pose proof (set_power_flip g false (blank_off_ret r) v (first_frame v))
      as (Hf & Hn).
    destruct (set_power false (blank_off_ret r) v) as [off v0].
    cbn [fst snd] in *. cbn [app fold_left flip_step].
    rewrite fold_left_app, Hf. split; [reflexivity|exact Hn]. }
  destruct waited as [w v0]. cbn [fst snd] in Hw. destruct Hw as (Hfw & Hnw).
  destruct (stop_after_wait r).
  { intros [= <- <- <-]. rewrite Hfw. split; [reflexivity|discriminate]. }
  pose proof (set_power_flip g true (blank_on_ret r) v0 (first_frame v))
    as (Hf1 & Hn1).
  destruct (set_power true (blank_on_ret r) v0) as [on v1]. cbn [fst snd] in *.
  destruct (temperature_ok r); cbn [negb].
  2:{ intros [= <- <- <-]. rewrite !fold_left_app, Hfw, Hf1.
      split; [reflexivity|discriminate]. }
  destruct (copy_frames g (batch r) (flip_rets r) v1) as [[copied v2] ok2] eqn:E.
  apply copy_frames_flip in E. rewrite Hn1, Hnw in E.
  destruct ok2; intros [= <- <- <-]; rewrite !fold_left_app, Hfw, Hf1;
    cbn [app fold_left flip_step]; rewrite ?fold_left_app, E.
  - split; [reflexivity|]. intros _. reflexivity.
  - split; [reflexivity|discriminate].
Qed.

Lemma vsync_loop_flip (g : Geometry) (rounds : list Round) :
  forall v : Vsync,
    flip_accepted (fold_left (flip_step g) (vsync_loop g rounds v)
                             (Ready (first_frame v))) = true.
Proof.
  induction rounds as [|r rounds IH]; intros v; cbn [vsync_loop].
  - reflexivity.
  - destruct (stop_at_entry r); [reflexivity|].
    destruct (vsync_round g r v) as [[events v'] ok] eqn:E.
    apply vsync_round_flip in E. destruct E as (Hacc & Hnext).
    destruct ok; [|exact Hacc].
    rewrite fold_left_app, (Hnext eq_refl). apply IH.
Qed.

(** X12. In every run of the vsync thread each copied frame is followed at
    once by the flip to the page that was filled (offset 0 with [yoffset] 0,
    or offset [buf_frame] with [yoffset = buf_height]); the first flip of the
    thread is requested with [FBIOPUT_VSCREENINFO] and every later one with
    [FBIOPAN_DISPLAY]; no flip comes without a copy, and nothing follows a
    flip that returned -1. *)
Theorem vsync_flip_discipline (g : Geometry) (power : bool) (rounds : list Round) :
  flip_discipline g (run_vsync_thread g power rounds) = true.
Proof.
  unfold flip_discipline, run_vsync_thread.
  exact (vsync_loop_flip g rounds
           {| next_frame := 0; first_frame := true; power_state := power |}).
Qed.

(** The monitor is not vacuous: it rejects a second [FBIOPUT_VSCREENINFO]
    and a flip of the page that was not filled. *)
Example flip_monitor_rejects :
  flip_discipline panel_16x2
    [Memcpy (buf_frame panel_16x2) null_16x2; Flip FBIOPUT_VSCREENINFO 3 0;
     Memcpy 0 null_16x2; Flip FBIOPUT_VSCREENINFO 0 0] = false /\
  flip_discipline panel_16x2
    [Memcpy (buf_frame panel_16x2) null_16x2; Flip FBIOPUT_VSCREENINFO 0 0] = false.
Proof. split; reflexivity. Qed.

(** ** [run_vsync_thread]: the frames that are copied *)

Lemma copied_frames_app (a b : list Event) :
  copied_frames (a ++ b) = copied_frames a ++ copied_frames b.
Proof. unfold copied_frames. apply flat_map_app. Qed.

Lemma releases_app (a b : list Event) :
  releases (a ++ b) = (releases a + releases b)%nat.
Proof. unfold releases. rewrite List.filter_app, length_app. reflexivity. Qed.

Lemma set_power_quiet (want : bool) (ret : Z) (v : Vsync) :
  copied_frames (fst (set_power want ret v)) = [] /\
  releases (fst (set_power want ret v)) = 0%nat.
Proof. unfold set_power. destruct (negb _); split; reflexivity. Qed.

Lemma copy_frames_frames (g : Geometry) (frames : list Frame) :
  forall (rets : list Z) (v : Vsync) events v' ok,
    copy_frames g frames rets v = (events, v', ok) ->
    releases events = 0%nat /\
    exists rest, frames = copied_frames events ++ rest /\
                 (ok = true -> rest = []).
Proof.
  induction frames as [|frame frames IH]; intros rets v events v' ok.
  - cbn. intros [= <- <- <-]. split; [reflexivity|]. exists []. auto.
  - cbn [copy_frames]. destruct (hd 0 rets =? -1).
    + intros [= <- <- <-]. split; [reflexivity|].
      exists frames. split; [reflexivity|discriminate].
    + destruct (copy_frames g frames (tl rets) _) as [[events' v''] ok'] eqn:E.
      intros [= <- <- <-].
      apply IH in E. destruct E as (Hrel & rest & Hfr & Hok).
      split; [exact Hrel|].
      exists rest. split; [|exact Hok].
      cbn. f_equal. exact Hfr.
Qed.

Lemma vsync_round_frames (g : Geometry) (r : Round) (v : Vsync) events v' ok :
  vsync_round g r v = (events, v', ok) ->
  (exists rest, batch r = copied_frames events ++ rest /\
                (ok = true -> rest = [])) /\
  releases events = (if ok then 1 else 0)%nat.
Proof.
  unfold vsync_round.
  set (waited :=
         if timed_out r
         then let '(off, v0) := set_power false (blank_off_ret r) v in
              ([WaitFor false] ++ off ++ [Wait], v0)
         else ([WaitFor true], v)).
  assert (Hw : copied_frames (fst waited) = [] /\ releases (fst waited) = 0%nat).
  { subst waited. destruct (timed_out r); [|split; reflexivity].
    pose proof (set_power_quiet false (blank_off_ret r) v) as (Hc & Hr).
    destruct (set_power false (blank_off_ret r) v) as [off v0].
    cbn [fst snd] in *.
    rewrite !copied_frames_app, !releases_app, Hc, Hr. split; reflexivity. }
  destruct waited as [w v0]. cbn [fst snd] in Hw. destruct Hw as (Hcw & Hrw).
  destruct (stop_after_wait r).
  { intros [= <- <- <-]. rewrite Hcw, Hrw. split; [|reflexivity].
    exists (batch r). split; [reflexivity|discriminate]. }
  pose proof (set_power_quiet true (blank_on_ret r) v0) as (Hc1 & Hr1).
  destruct (set_power true (blank_on_ret r) v0) as [on v1]. cbn [fst snd] in *.
  destruct (temperature_ok r); cbn [negb].
  2:{ intros [= <- <- <-].
      rewrite !copied_frames_app, !releases_app, Hcw, Hrw, Hc1, Hr1.
      split; [|reflexivity].
      exists (batch r). split; [reflexivity|discriminate]. }
  destruct (copy_frames g (batch r) (flip_rets r) v1) as [[copied v2] ok2] eqn:E.
  apply copy_frames_frames in E. destruct E as (Hrel & rest & Hfr & Hok).
  assert (Hskip : forall l, copied_frames (ReadTemperature true :: l)
                            = copied_frames l) by reflexivity.
  assert (Hskip' : forall l, releases (ReadTemperature true :: l) = releases l)
    by reflexivity.
  destruct ok2; intros [= <- <- <-];
    rewrite !copied_frames_app, !releases_app, Hcw, Hrw, Hc1, Hr1;
    cbn [app]; rewrite Hskip, Hskip', ?copied_frames_app, ?releases_app, Hrel;
    change (copied_frames [Release]) with (@nil Frame);
    rewrite ?app_nil_r.
  - split; [|reflexivity]. exists rest. auto.
  - split; [|reflexivity]. exists rest. auto.
Qed.

Lemma vsync_loop_frames (g : Geometry) (rounds : list Round) :
  forall v : Vsync,
    exists done rest,
      rounds = done ++ rest /\
      length done = releases (vsync_loop g rounds v) /\
      exists tail,
        copied_frames (vsync_loop g rounds v) = concat (map batch done) ++ tail /\
        match rest with
        | [] => tail = []
        | r :: _ => exists tail', batch r = tail ++ tail'
        end.
Proof.
  induction rounds as [|r rounds IH]; intros v; cbn [vsync_loop].
  - exists [], []. split; [reflexivity|]. split; [reflexivity|].
    exists []. auto.
  - destruct (stop_at_entry r).
    { exists [], (r :: rounds). split; [reflexivity|]. split; [reflexivity|].
      exists []. split; [reflexivity|]. exists (batch r). reflexivity. }
    destruct (vsync_round g r v) as [[events v'] ok] eqn:E.
    apply vsync_round_frames in E. destruct E as ((rest0 & Hb & Hok) & Hrel).
    destruct ok.
    + destruct (IH v') as (done & rest & Hsplit & Hlen & tail & Hc & Htail).
      exists (r :: done), rest. split; [cbn; f_equal; exact Hsplit|].
      split; [rewrite releases_app, Hrel; cbn; f_equal; exact Hlen|].
      exists tail. split; [|exact Htail].
      rewrite copied_frames_app, Hc. cbn [map concat].
      rewrite Hb, (Hok eq_refl), app_nil_r, app_assoc. reflexivity.
    + exists [], (r :: rounds). split; [reflexivity|].
      split; [rewrite Hrel; reflexivity|].
      exists (copied_frames events). split; [reflexivity|].
      exists rest0. exact Hb.
Qed.

(** X13. The vsync thread copies frames in the order it receives them: the
    frames copied are the batches of the rounds it completed, one [Release]
    each, in order and in full, followed by a leading part of the batch of
    the round in which it stopped. *)
Theorem vsync_frames_in_order (g : Geometry) (power : bool) (rounds : list Round) :
  exists done rest,
    rounds = done ++ rest /\
    length done = releases (run_vsync_thread g power rounds) /\
    exists tail,
      copied_frames (run_vsync_thread g power rounds)
      = concat (map batch done) ++ tail /\
      match rest with
      | [] => tail = []
      | r :: _ => exists tail', batch r = tail ++ tail'
      end.
Proof.
  unfold run_vsync_thread.
  exact (vsync_loop_frames g rounds
           {| next_frame := 0; first_frame := true; power_state := power |}).
Qed.

(** ** [update_temperature]: the text handed to [std::stoi] *)

Lemma load_read (data buffer : list Z) (n : nat) (k : Z) :
  (n <= length data)%nat -> 0 <= k ->
  load (take n data ++ drop n buffer) k
  = if k <? Z.of_nat n then load data k else load buffer k.
Proof.
  intros Hn Hk. unfold load. rewrite !list_lookup_total_alt.
  destruct (Z.ltb_spec k (Z.of_nat n)).
  - rewrite lookup_app_l by (rewrite length_take; lia).
    rewrite lookup_take_lt by lia. reflexivity.
  - rewrite lookup_app_r by (rewrite length_take; lia).
    rewrite lookup_drop, length_take. do 2 f_equal. lia.
Qed.

(** X14. When the sensor file delivers bytes, the array handed to
    [std::stoi] holds the first [min (size of the file) 11] bytes of the
    file, then the terminator; a twelfth byte that was read is overwritten by
    the terminator, and the bytes after the terminator are what the array
    held before. *)
Theorem update_temperature_text (data buffer : list Z) :
  Z.of_nat (length buffer) = sizeof_buffer ->
  exists buffer',
    update_temperature false 0 (ReadBytes data) buffer
    = Terminated (Z.min (Z.of_nat (length data)) sizeof_buffer)
                 (Z.min (Z.of_nat (length data)) (sizeof_buffer - 1)) buffer' /\
    length buffer' = length buffer /\
    (forall k, 0 <= k < Z.min (Z.of_nat (length data)) (sizeof_buffer - 1) ->
               load buffer' k = load data k) /\
    load buffer' (Z.min (Z.of_nat (length data)) (sizeof_buffer - 1)) = 0 /\
    (forall k, Z.min (Z.of_nat (length data)) (sizeof_buffer - 1) < k
               < sizeof_buffer ->
               load buffer' k = load buffer k).
Proof.
  unfold sizeof_buffer. intros Hlen.
  unfold update_temperature, sys_read, sizeof_buffer. cbn [negb Z.eqb].
  set (n := Z.to_nat (Z.min (Z.of_nat (length data)) 12)).
  assert (Hn : Z.of_nat n = Z.min (Z.of_nat (length data)) 12) by lia.
  assert (Hneg : (Z.of_nat n =? -1) = false) by (apply Z.eqb_neq; lia).
  rewrite Hneg.
  assert (Hidx : terminator_index (Z.of_nat n)
                 = Z.min (Z.of_nat (length data)) (12 - 1)).
  { destruct (terminator_index_bounds (Z.of_nat n) ltac:(lia)) as (_ & E).
    rewrite E. unfold sizeof_buffer.
    destruct (Z.ltb_spec (Z.of_nat n) 12); lia. }
  rewrite Hidx, Hn.
  set (idx := Z.min (Z.of_nat (length data)) (12 - 1)).
  set (b1 := take n data ++ drop n buffer).
  assert (Hb1 : length b1 = length buffer).
  { unfold b1. rewrite length_app, length_take, length_drop. lia. }
  exists (store b1 idx 0). split; [reflexivity|].
  split; [rewrite length_store; exact Hb1|]. split; [|split].
  - intros k Hk. rewrite load_store_ne by lia.
    unfold b1. rewrite load_read by lia.
    destruct (Z.ltb_spec k (Z.of_nat n)); [reflexivity|lia].
  - apply load_store_eq. lia.
  - intros k Hk. rewrite load_store_ne by lia.
    unfold b1. rewrite load_read by lia.
    destruct (Z.ltb_spec k (Z.of_nat n)); [lia|reflexivity].
Qed.

Lemma update_temperature_text_witness :
  Z.of_nat (length stack_bytes) = sizeof_buffer /\
  exists buffer',
    update_temperature false 0 sensor_long stack_bytes
    = Terminated 12 11 buffer' /\
    load buffer' 10 = 49 /\ load buffer' 11 = 0.
Proof.
  assert (Hlen : Z.of_nat (length stack_bytes) = sizeof_buffer) by reflexivity.
  split; [exact Hlen|].
  destruct (update_temperature_text
              [49; 50; 51; 52; 53; 54; 55; 56; 57; 48; 49; 50; 51; 52]
              stack_bytes Hlen)
    as (buffer' & Hrun & _ & Htext & Hzero & _).
  exists buffer'. split; [exact Hrun|].
  split; [exact (Htext 10 ltac:(unfold sizeof_buffer; cbn; lia))|exact Hzero].
Defined.

(** ** [start]: the null frame *)

Lemma fill_run_spec (count value ptr : Z) (frame : list Z) :
  0 <= count -> 0 <= ptr -> ptr + 4 * count <= Z.of_nat (length frame) + 2 ->
  exists frame',
    fill_run count value (ptr, frame) = (ptr + 4 * count, frame') /\
    length frame' = length frame /\
    forall o, 0 <= o ->
      load frame' o
      = if (ptr <=? o) && (o <? ptr + 4 * count) && ((o - ptr) mod 4 =? 0)
        then value else load frame o.
Proof.
  intros Hc Hp Hfit. unfold fill_run.
  pose (I := fun (i : Z) (s : Z * list Z) =>
               exists frame',
                 s = (ptr + 4 * i, frame') /\
                 length frame' = length frame /\
                 forall o, 0 <= o ->
                   load frame' o
                   = if (ptr <=? o) && (o <? ptr + 4 * i) && ((o - ptr) mod 4 =? 0)
                     then value else load frame o).
  assert (H : I count
                (for_loop 0 count 1
                   (fun _ s => let '(null_ptr, frame) := s in
                               (null_ptr + buf_depth, store frame null_ptr value))
                   (ptr, frame))).
  { apply for_loop_invariant1; [lia| |].
    - exists frame. split; [f_equal; lia|]. split; [reflexivity|].
      intros o Ho.
      destruct (Z.leb_spec ptr o); destruct (Z.ltb_spec o (ptr + 4 * 0));
        cbn [andb]; try reflexivity; lia.
    - intros i s Hi (frame' & -> & Hlen & Hload).
      exists (store frame' (ptr + 4 * i) value). unfold buf_depth.
      split; [f_equal; lia|]. split; [rewrite length_store; exact Hlen|].
      intros o Ho.
      destruct (Z.eq_dec o (ptr + 4 * i)) as [->|Hne].
      + rewrite load_store_eq by lia.
        replace (ptr + 4 * i - ptr) with (i * 4) by lia. rewrite Z.mod_mul by lia.
        destruct (Z.leb_spec ptr (ptr + 4 * i));
          destruct (Z.ltb_spec (ptr + 4 * i) (ptr + 4 * (i + 1)));
          cbn [andb Z.eqb]; try reflexivity; lia.
      + rewrite load_store_ne by lia. rewrite Hload by exact Ho.
        destruct (Z.leb_spec ptr o); destruct (Z.ltb_spec o (ptr + 4 * i));
          destruct (Z.ltb_spec o (ptr + 4 * (i + 1)));
          destruct (Z.eqb_spec ((o - ptr) mod 4) 0);
          cbn [andb]; try reflexivity; exfalso;
          Z.div_mod_to_equations; lia. }
  exact H.
Qed.

Lemma fill_runs_spec (runs : list (Z * Z)) :
  forall (ptr : Z) (frame : list Z),
    Forall (fun r => 0 <= fst r) runs -> 0 <= ptr ->
    ptr + 4 * fold_right (fun r n => fst r + n) 0 runs
      <= Z.of_nat (length frame) + 2 ->
    exists frame',
      fill_runs runs (ptr, frame)
      = (ptr + 4 * fold_right (fun r n => fst r + n) 0 runs, frame') /\
      length frame' = length frame /\
      forall o, 0 <= o ->
        load frame' o
        = if (ptr <=? o)
             && (o <? ptr + 4 * fold_right (fun r n => fst r + n) 0 runs)
             && ((o - ptr) mod 4 =? 0)
          then run_value runs ((o - ptr) / 4) else load frame o.
Proof.
  induction runs as [|[count value] runs IH]; intros ptr frame Hpos Hp Hfit.
  - exists frame. unfold fill_runs. cbn [fold_right fold_left run_value].
    replace (ptr + 4 * 0) with ptr by lia.
    split; [reflexivity|]. split; [reflexivity|].
    intros o Ho.
    destruct (Z.leb_spec ptr o); destruct (Z.ltb_spec o ptr);
      cbn [andb]; try reflexivity; lia.
  - inversion Hpos as [|? ? Hc Hpos']; subst. cbn [fst] in Hc.
    cbn [fold_right fst] in *.
    set (total := fold_right (fun r n => fst r + n) 0 runs) in *.
    assert (Htotal : 0 <= total).
    { subst total. clear -Hpos'. induction runs as [|r runs IHr]; cbn; [lia|].
      inversion Hpos'; subst. specialize (IHr ltac:(assumption)). lia. }
    unfold fill_runs. cbn [fold_left fst snd].
    destruct (fill_run_spec count value ptr frame Hc Hp ltac:(lia))
      as (frame1 & -> & Hlen1 & Hload1).
    destruct (IH (ptr + 4 * count) frame1 Hpos' ltac:(lia) ltac:(lia))
      as (frame2 & E2 & Hlen2 & Hload2).
    fold total in E2, Hload2. unfold fill_runs in E2. rewrite E2.
    exists frame2. split; [f_equal; lia|]. split; [lia|].
    intros o Ho. rewrite Hload2, Hload1 by exact Ho. cbn [run_value].
    destruct (Z.leb_spec ptr o); destruct (Z.leb_spec (ptr + 4 * count) o);
      destruct (Z.ltb_spec o (ptr + 4 * count));
      destruct (Z.ltb_spec o (ptr + 4 * count + 4 * total));
      destruct (Z.ltb_spec o (ptr + 4 * (count + total)));
      destruct (Z.eqb_spec ((o - ptr) mod 4) 0);
      destruct (Z.eqb_spec ((o - (ptr + 4 * count)) mod 4) 0);
      destruct (Z.ltb_spec ((o - ptr) / 4) count);
      cbn [andb]; try reflexivity;
      try (exfalso; Z.div_mod_to_equations; lia).
    f_equal. Z.div_mod_to_equations. lia.
Qed.

(** One row of 260 groups, whatever its runs. *)
Lemma null_row_spec (runs : list (Z * Z)) (y : Z) (frame : list Z) :
  Forall (fun r => 0 <= fst r) runs ->
  fold_right (fun r n => fst r + n) 0 runs = 260 ->
  0 <= y -> 1040 * (y + 1) <= Z.of_nat (length frame) ->
  exists frame',
    fill_runs runs (2 + 1040 * y, frame) = (2 + 1040 * (y + 1), frame') /\
    length frame' = length frame /\
    (forall col, 0 <= col < 260 ->
       load frame' ((y * 260 + col) * 4 + 2) = run_value runs col) /\
    (forall o, 0 <= o ->
       o mod 4 <> 2 \/ o < 2 + 1040 * y \/ 2 + 1040 * (y + 1) <= o ->
       load frame' o = load frame o).
Proof.
  intros Hpos Htotal Hy Hfit.
  destruct (fill_runs_spec runs (2 + 1040 * y) frame Hpos ltac:(lia)
              ltac:(rewrite Htotal; lia)) as (frame' & E & Hlen & Hload).
  rewrite Htotal in E, Hload.
  exists frame'. split; [rewrite E; f_equal; lia|]. split; [exact Hlen|]. split.
  - intros col Hcol. rewrite Hload by lia.
    replace ((y * 260 + col) * 4 + 2 - (2 + 1040 * y)) with (col * 4) by lia.
    rewrite Z.mod_mul, Z.div_mul by lia.
    destruct (Z.leb_spec (2 + 1040 * y) ((y * 260 + col) * 4 + 2));
      destruct (Z.ltb_spec ((y * 260 + col) * 4 + 2) (2 + 1040 * y + 4 * 260));
      cbn [andb Z.eqb]; try reflexivity; lia.
  - intros o Ho Hout. rewrite Hload by exact Ho.
    destruct (Z.leb_spec (2 + 1040 * y) o);
      destruct (Z.ltb_spec o (2 + 1040 * y + 4 * 260));
      destruct (Z.eqb_spec ((o - (2 + 1040 * y)) mod 4) 0);
      cbn [andb]; try reflexivity; exfalso;
      Z.div_mod_to_equations; lia.
Qed.

(** X15. With a framebuffer 260 groups wide and at least three rows high,
    the initialisation of the null frame stays inside the frame and ends at
    its end: it writes the control byte of every group of every row, at byte
    2 of the group, following the three row patterns of the source, and
    leaves every other byte as it was. *)
Theorem init_null_frame_layout (g : Geometry) (null_frame : list Z) :
  buf_width g = 260 -> 3 <= buf_height g ->
  Z.of_nat (length null_frame) = buf_frame g ->
  fst (init_null_frame g null_frame) = buf_frame g + 2 /\
  length (snd (init_null_frame g null_frame)) = length null_frame /\
  (forall y col, 0 <= y < buf_height g -> 0 <= col < 260 ->
     load (snd (init_null_frame g null_frame)) ((y * 260 + col) * 4 + 2)
     = control_byte y col) /\
  (forall o, 0 <= o -> o mod 4 <> 2 ->
     load (snd (init_null_frame g null_frame)) o = load null_frame o).
Proof.
  intros Hbw Hbh Hlen.
  assert (Hsize : Z.of_nat (length null_frame) = 1040 * buf_height g).
  { rewrite Hlen. unfold buf_frame, buf_stride, buf_depth. rewrite Hbw. lia. }
  pose (I := fun (y : Z) (s : Z * list Z) =>
               exists frame,
                 s = (2 + 1040 * y, frame) /\
                 length frame = length null_frame /\
                 (forall y' col, 0 <= y' < y -> 0 <= col < 260 ->
                    load frame ((y' * 260 + col) * 4 + 2) = control_byte y' col) /\
                 (forall o, 0 <= o -> o mod 4 <> 2 \/ 2 + 1040 * y <= o ->
                    load frame o = load null_frame o)).
  assert (Hstep : forall runs y s,
             Forall (fun r => 0 <= fst r) runs ->
             fold_right (fun r n => fst r + n) 0 runs = 260 ->
             0 <= y < buf_height g ->
             (forall col, control_byte y col = run_value runs col) ->
             I y s -> I (y + 1) (fill_runs runs s)).
  { intros runs y s Hpos Htotal Hy Hctl (frame & -> & Hl & Hrows & Hrest).
    destruct (null_row_spec runs y frame Hpos Htotal ltac:(lia) ltac:(lia))
      as (frame' & E & Hl' & Hrow & Hout).
    exists frame'. split; [exact E|]. split; [lia|]. split.
    - intros y' col Hy' Hcol.
      destruct (Z.eq_dec y' y) as [->|Hne].
      + rewrite Hrow by exact Hcol. symmetry. apply Hctl.
      + rewrite Hout by lia. apply Hrows; lia.
    - intros o Ho Hcase. rewrite Hout by lia. apply Hrest; lia. }
  assert (H0 : I 0 (2, null_frame)).
  { exists null_frame. split; [reflexivity|]. split; [reflexivity|].
    split; [intros y' col Hy'; lia|]. intros o _ _. reflexivity. }
  assert (H1 : I 1 (null_first_line (2, null_frame))).
  { apply (Hstep first_line_runs 0 _); [repeat constructor; cbn; lia|reflexivity
                                         |lia|reflexivity|exact H0]. }
  assert (H3 : I 3 (for_loop 1 3 1 null_second_third_lines
                             (null_first_line (2, null_frame)))).
  { apply for_loop_invariant1; [lia|exact H1|].
    intros y s Hy Hs.
    apply (Hstep second_third_runs y s); [repeat constructor; cbn; lia|reflexivity
                                          |lia| |exact Hs].
    intros col. unfold control_byte.
    destruct (Z.eqb_spec y 0); [lia|]. destruct (Z.ltb_spec y 3); [reflexivity|lia]. }
  assert (Hend : I (buf_height g) (init_null_frame g null_frame)).
  { unfold init_null_frame. apply for_loop_invariant1; [lia|exact H3|].
    intros y s Hy Hs.
    apply (Hstep following_runs y s); [repeat constructor; cbn; lia|reflexivity
                                       |lia| |exact Hs].
    intros col. unfold control_byte.
    destruct (Z.eqb_spec y 0); [lia|]. destruct (Z.ltb_spec y 3); [lia|reflexivity]. }
  destruct Hend as (frame & -> & Hl & Hrows & Hrest). cbn [fst snd].
  split; [lia|]. split; [exact Hl|]. split; [exact Hrows|].
  intros o Ho Hmod. apply Hrest; [exact Ho|left; exact Hmod].
Qed.

Lemma init_null_frame_layout_witness :
  (buf_width short_260 = 260 /\ 3 <= buf_height short_260 /\
   Z.of_nat (length blank_260) = buf_frame short_260) /\
  fst (init_null_frame short_260 blank_260) = buf_frame short_260 + 2 /\
  load (snd (init_null_frame short_260 blank_260)) ((3 * 260 + 100) * 4 + 2)
  = control_byte 3 100.
Proof.
  assert (Hw : buf_width short_260 = 260) by reflexivity.
  assert (Hh : 3 <= buf_height short_260) by (cbn; lia).
  assert (Hl : Z.of_nat (length blank_260) = buf_frame short_260) by reflexivity.
  split; [auto|].
  destruct (init_null_frame_layout short_260 blank_260 Hw Hh Hl)
    as (Hptr & _ & Hrows & _).
  split; [exact Hptr|].
  apply Hrows; cbn; lia.
Defined.

(** ** [merge_updates]: what the scan compares *)

Lemma merge_check_pixel_twice (steps nxt buf : list Z) (next x x' : Z)
    (s : Z * Z * bool) :
  merge_check_pixel steps nxt buf next x
    (merge_check_pixel steps nxt buf next x' s)
  = merge_check_pixel steps nxt buf next x' s.
Proof.
  destruct s as [[step cand] stop]. unfold merge_check_pixel.
  destruct stop; [reflexivity|].
  destruct (negb (load nxt cand =? load buf next) && (0 <? load steps step)) eqn:E;
    [reflexivity|].
  rewrite E. reflexivity.
Qed.

(** X16. What the scan of [merge_updates] tests for an immediate update: for
    a peer with a region of positive width, it rejects exactly when, for some
    row [j] of the region, the single pixel at offset
    [start + j * (epd_width - width)] has a step counter above 0 and a target
    different from the first value of the peer's buffer. No other pixel and
    no other value of the buffer is read. *)
Theorem merge_rejected_scan (g : Geometry) (d : Display) (p : Update) :
  0 <= top (region p) -> 0 <= left (region p) ->
  0 < width (region p) -> 0 <= height (region p) ->
  left (region p) + width (region p) < 2 ^ 32 ->
  top (region p) + height (region p) < 2 ^ 32 ->
  merge_rejected g d p = true <->
  exists j, 0 <= j < height (region p) /\ scan_hit g d p j.
Proof.
  intros Ht Hl Hw Hh Hright Hbottom. unfold merge_rejected.
  set (r := region p) in *.
  set (start := wrap32 (top r * epd_width g + left r)).
  set (mid := wrap32 (epd_width g - width r)).
  assert (Hoff : forall j, scan_offset g r j = start + j * mid) by reflexivity.
  rewrite (wrap32_small (top r + height r)) by lia.
  pose (I := fun (y : Z) (s : Z * Z * bool) =>
               let '(step, cand, stop) := s in
               if stop
               then exists j, 0 <= j < y - top r /\ scan_hit g d p j
               else step = start + (y - top r) * mid /\
                    cand = start + (y - top r) * mid /\
                    forall j, 0 <= j < y - top r -> ~ scan_hit g d p j).
  assert (H : I (top r + height r)
                (for_loop (top r) (top r + height r) 1
                   (merge_check_row (waveform_steps d) (next_intensity d)
                                    (buffer p) 0 r mid)
                   (start, start, false))).
  { apply for_loop_invariant1; [lia| |].
    - unfold I. rewrite Z.sub_diag. split; [lia|]. split; [lia|].
      intros j Hj. lia.
    - intros y s Hy Hs. unfold merge_check_row.
      rewrite (wrap32_small (left r + width r)) by lia.
      unfold for_loop.
      rewrite (for_range_repeated
                 (merge_check_pixel (waveform_steps d) (next_intensity d)
                                    (buffer p) 0 0));
        [|intros v s'; reflexivity
         |intros s'; apply merge_check_pixel_twice|lia|lia].
      destruct s as [[step cand] stop]. unfold I in Hs. unfold merge_check_pixel.
      destruct stop.
      + destruct Hs as (j & Hj & Hhit). unfold I. exists j. split; [lia|exact Hhit].
      + destruct Hs as (-> & -> & Hnone).
        destruct (negb (load (next_intensity d) (start + (y - top r) * mid)
                        =? load (buffer p) 0)
                  && (0 <? load (waveform_steps d) (start + (y - top r) * mid)))
          eqn:E; unfold I.
        * exists (y - top r). split; [lia|].
          apply andb_true_iff in E. destruct E as (E1 & E2).
          apply negb_true_iff, Z.eqb_neq in E1. apply Z.ltb_lt in E2.
          unfold scan_hit. fold r. rewrite Hoff. split; assumption.
        * split; [lia|]. split; [lia|].
          intros j Hj Hhit.
          destruct (Z.eq_dec j (y - top r)) as [->|Hne]; [|apply (Hnone j); [lia|exact Hhit]].
          unfold scan_hit in Hhit. fold r in Hhit. rewrite Hoff in Hhit.
          destruct Hhit as (H1 & H2).
          apply andb_false_iff in E. destruct E as [E|E].
          -- apply negb_false_iff, Z.eqb_eq in E. exact (H1 E).
          -- apply Z.ltb_ge in E. lia. }
  destruct (for_loop (top r) (top r + height r) 1 _ _) as [[step cand] stop].
  unfold I in H. replace (top r + height r - top r) with (height r) in H by lia.
  destruct stop.
  - split; [intros _; exact H|reflexivity].
  - split; [discriminate|].
    intros (j & Hj & Hhit). destruct H as (_ & _ & Hnone).
    exfalso. exact (Hnone j Hj Hhit).
Qed.

Lemma merge_rejected_scan_witness :
  (0 <= top (region retouch_first) /\ 0 <= left (region retouch_first) /\
   0 < width (region retouch_first) /\ 0 <= height (region retouch_first) /\
   left (region retouch_first) + width (region retouch_first) < 2 ^ 32 /\
   top (region retouch_first) + height (region retouch_first) < 2 ^ 32) /\
  (merge_rejected panel_16x2 stroke_in_flight retouch_first = true <->
   exists j, 0 <= j < height (region retouch_first) /\
             scan_hit panel_16x2 stroke_in_flight retouch_first j).
Proof.
  assert (H1 : 0 <= top (region retouch_first)) by (cbn; lia).
  assert (H2 : 0 <= left (region retouch_first)) by (cbn; lia).
  assert (H3 : 0 < width (region retouch_first)) by (cbn; lia).
  assert (H4 : 0 <= height (region retouch_first)) by (cbn; lia).
  assert (H5 : left (region retouch_first) + width (region retouch_first) < 2 ^ 32)
    by (cbn; lia).
  assert (H6 : top (region retouch_first) + height (region retouch_first) < 2 ^ 32)
    by (cbn; lia).
  split; [auto 10|].
  exact (merge_rejected_scan panel_16x2 stroke_in_flight retouch_first
           H1 H2 H3 H4 H5 H6).
Defined.

(** ** [generate_immediate]: the frames *)

Lemma immediate_loop_frames (g : Geometry) (waveform : Waveform)
    (null_frame : Frame) :
  geometry_ok g -> frame_layout_ok g null_frame ->
  forall (n : nat) (j : Z) (fuel : nat) (u : Update) (d : Display)
         (sent : list Frame) (count : nat),
    Z.of_nat n = Z.of_nat (length waveform) - j - 1 -> 0 <= j ->
    in_step g j u d -> (n + 2 <= fuel)%nat ->
    exists run more,
      immediate_loop g waveform null_frame fuel [] u d sent count = Some run /\
      sent_frames run = sent ++ more /\
      forall (k : nat) (frame : Frame),
        nth_error more k = Some frame ->
        forall i, 0 <= i < epd_size g ->
          load (current_intensity d) i <> load (next_intensity d) i ->
          pixel_lane g frame i
          = phase_code (waveform_at waveform (j + Z.of_nat k)
                          (load (current_intensity d) i)
                          (load (next_intensity d) i)).
Proof.
  intros Hg Hlayout. induction n as [|n IH];
    intros j fuel u d sent count Hn Hj0 Hstep Hfuel.
  all: destruct fuel as [|fuel]; [lia|].
  all: pose proof Hstep as (Hr & Hls & Hlc & Hln & Hq & Hdiff).
  all: rewrite (immediate_loop_idle g waveform null_frame fuel u d sent count Hq).
  all: destruct (immediate_pass_spec g waveform (next_intensity d) (waveform_steps d)
                   (current_intensity d) (region u) j Hg Hr Hls Hlc ltac:(lia) Hdiff
                   null_frame d eq_refl eq_refl eq_refl)
         as (H1 & H2 & H3 & H4 & H5 & H6).
  all: pose proof (immediate_frame_lane g waveform (next_intensity d)
                     (waveform_steps d) (current_intensity d) (region u) j Hg Hr
                     Hls Hlc ltac:(lia) Hdiff null_frame Hlayout d) as Hlane.
  all: set (p := immediate_pass g waveform null_frame (region u) d) in *.
  all: destruct (p_finished p) eqn:Ef.
  1,3: eexists; exists []; split; [reflexivity|]; cbn [sent_frames];
       split; [rewrite app_nil_r; reflexivity|];
       intros k frame Hk; destruct k; discriminate Hk.
  - (* the last step of the waveform *)
    assert (Hlast : (j + 1 =? Z.of_nat (length waveform)) = true)
      by (apply Z.eqb_eq; lia).
    rewrite Hlast in H3.
    assert (Heq : forall i, 0 <= i < epd_size g ->
                    load (current_intensity (after_pass d p)) i
                    = load (next_intensity (after_pass d p)) i).
    { intros i Hi. cbn.
      destruct (Z.eq_dec (load (current_intensity d) i) (load (next_intensity d) i))
        as [E|E].
      - destruct (H4 i Hi E) as (Hc & _). rewrite Hc. exact E.
      - destruct (H3 i Hi E) as (Hc & _). exact Hc. }
    assert (Hstep' : in_step g 0 (with_region u (p_active p)) (after_pass d p)).
    { unfold in_step. cbn. split; [exact H6|].
      split; [lia|]. split; [lia|]. split; [lia|]. split; [exact Hq|].
      intros i Hi Hne. exfalso. apply Hne. apply (Heq i Hi). }
    destruct fuel as [|fuel]; [lia|].
    destruct (immediate_loop_settled g waveform null_frame fuel _ _
                (sent ++ [p_frame p]) (Datatypes.S count) Hg ltac:(lia) Hstep' Heq)
      as (run & Hrun & _ & Hs & _).
    exists run, [p_frame p]. split; [exact Hrun|]. split; [exact Hs|].
    intros k frame Hk i Hi Hne.
    destruct k as [|k]; [|destruct k; discriminate Hk].
    injection Hk as <-. rewrite Z.add_0_r.
    apply Hlane; [reflexivity|reflexivity|reflexivity|exact Hi|exact Hne].
  - (* an inner step *)
    assert (Hlast : (j + 1 =? Z.of_nat (length waveform)) = false)
      by (apply Z.eqb_neq; lia).
    rewrite Hlast in H3.
    assert (Hstep' : in_step g (j + 1) (with_region u (p_active p)) (after_pass d p)).
    { unfold in_step. cbn. split; [exact H6|].
      split; [lia|]. split; [lia|]. split; [lia|]. split; [exact Hq|].
      intros i Hi Hne.
      destruct (Z.eq_dec (load (current_intensity d) i) (load (next_intensity d) i))
        as [E|E].
      - exfalso. apply Hne. destruct (H4 i Hi E) as (Hc & _). rewrite Hc. exact E.
      - destruct (H3 i Hi E) as (_ & Hs & Hin). split; assumption. }
    destruct (IH (j + 1) fuel _ _ (sent ++ [p_frame p]) (Datatypes.S count)
                 ltac:(lia) ltac:(lia) Hstep' ltac:(lia))
      as (run & more & Hrun & Hs & Hframes).
    exists run, (p_frame p :: more). split; [exact Hrun|].
    split; [rewrite Hs, <- app_assoc; reflexivity|].
    intros k frame Hk i Hi Hne.
    destruct k as [|k].
    + injection Hk as <-. rewrite Z.add_0_r.
      apply Hlane; [reflexivity|reflexivity|reflexivity|exact Hi|exact Hne].
    + cbn [nth_error] in Hk.
      destruct (H3 i Hi Hne) as (Hc & _).
      assert (Hne' : load (current_intensity (after_pass d p)) i
                     <> load (next_intensity (after_pass d p)) i)
        by (cbn; rewrite Hc; exact Hne).
      pose proof (Hframes k frame Hk i Hi Hne') as Hk'.
      cbn [after_pass current_intensity next_intensity set_current_intensity
           set_waveform_steps] in Hk'.
      rewrite Hc in Hk'. rewrite Hk'. do 2 f_equal. lia.
Qed.

(** X17. With no update arriving, frame [k] of [generate_immediate] holds,
    for every pixel the update changes, the phase of step [k] of the
    waveform for the pixel's former and new values, in the pixel's bit pair
    of the word of its group of eight. *)
Theorem generate_immediate_frames (g : Geometry) (table : WaveformTable)
    (null_frame : Frame) (fuel : nat) (u : Update) (d : Display) :
  geometry_ok g -> frame_layout_ok g null_frame ->
  region_within g (region u) ->
  Z.of_nat (length (current_intensity d)) = epd_size g ->
  Z.of_nat (length (waveform_steps d)) = epd_size g ->
  pending_updates d = [] ->
  (0 < length (table (mode u) (temperature d)))%nat ->
  (length (table (mode u) (temperature d)) + 1 <= fuel)%nat ->
  exists run,
    generate_immediate g table null_frame fuel [] u d = Some run /\
    forall (k : nat) (frame : Frame),
      nth_error (sent_frames run) k = Some frame ->
      forall i, 0 <= i < epd_size g ->
        load (current_intensity d) i
        <> load (apply_update u (current_intensity d) (epd_width g)) i ->
        pixel_lane g frame i
        = phase_code (waveform_at (table (mode u) (temperature d)) (Z.of_nat k)
                        (load (current_intensity d) i)
                        (load (apply_update u (current_intensity d) (epd_width g))
                              i)).
Proof.
  intros Hg Hlayout Hr Hlc Hls Hq Hwf Hfuel. unfold generate_immediate.
  set (waveform := table (mode u) (temperature d)) in *.
  pose proof (generate_immediate_start g u d Hg Hr Hlc Hls Hq) as Hstart.
  set (d0 := set_next_intensity _ _) in *.
  destruct (immediate_loop_frames g waveform null_frame Hg Hlayout
              (length waveform - 1) 0 fuel u d0 [] 0%nat
              ltac:(lia) ltac:(lia) Hstart ltac:(lia))
    as (run & more & Hrun & Hs & Hframes).
  exists run. split; [exact Hrun|].
  cbn [app] in Hs. rewrite Hs.
  intros k frame Hk i Hi Hne.
  exact (Hframes k frame Hk i Hi Hne).
Qed.

Lemma generate_immediate_frames_witness :
  (geometry_ok panel_16x2 /\ frame_layout_ok panel_16x2 null_16x2 /\
   region_within panel_16x2 (region stroke) /\
   Z.of_nat (length (current_intensity idle_16x2)) = epd_size panel_16x2 /\
   Z.of_nat (length (waveform_steps idle_16x2)) = epd_size panel_16x2 /\
   pending_updates idle_16x2 = [] /\
   (0 < length two_steps)%nat /\ (length two_steps + 1 <= 3)%nat) /\
  exists run,
    generate_immediate panel_16x2 (fun _ _ => two_steps) null_16x2 3 [] stroke
                       idle_16x2 = Some run /\
    forall frame, nth_error (sent_frames run) 1 = Some frame ->
                  pixel_lane panel_16x2 frame 1 = phase_code White.
Proof.
  assert (Hr : region_within panel_16x2 (region stroke))
    by (unfold region_within; cbn; lia).
  assert (Hlc : Z.of_nat (length (current_intensity idle_16x2)) = epd_size panel_16x2)
    by reflexivity.
  assert (Hls : Z.of_nat (length (waveform_steps idle_16x2)) = epd_size panel_16x2)
    by reflexivity.
  assert (Hq : pending_updates idle_16x2 = []) by reflexivity.
  assert (Hwf : (0 < length two_steps)%nat) by (cbn; lia).
  assert (Hfuel : (length two_steps + 1 <= 3)%nat) by (cbn; lia).
  split; [auto 10 using panel_16x2_ok, panel_16x2_layout|].
  destruct (generate_immediate_frames panel_16x2 (fun _ _ => two_steps) null_16x2
              3 stroke idle_16x2 panel_16x2_ok panel_16x2_layout Hr Hlc Hls Hq
              Hwf Hfuel) as (run & Hrun & Hframes).
  exists run. split; [exact Hrun|].
  intros frame Hk.
  apply (Hframes 1%nat frame Hk 1); [vm_compute; split; [discriminate|reflexivity]|].
  vm_compute. discriminate.
Defined.
